(** * The file-backed TTL cache of ccxt-mcp ([src/cache.ts])

    A shallow embedding of class [CacheManager] and of the host facilities
    it calls, followed by the properties of the cache.

    Modelling conventions.
    - A JavaScript string is the sequence of the UTF-8 bytes of well-formed
      Unicode text (Rocq's [string]); this is what [fs] writes with the
      ["utf-8"] encoding and what [crypto]'s [update] hashes.
    - A JavaScript number is an IEEE 754 double ([Number.t]): NaN, the
      infinities, the two zeros and the finite values, with the rounding of
      [JSON.parse] and of arithmetic, and with the shortest decimal text of
      [Number::toString].
    - A cached payload is a JSON value ([json]); an object is the list of its
      own properties in the order JavaScript enumerates them.
    - The cache directory is a flat directory of regular files, a finite map
      from file names to contents.  It can be missing and the file system
      can refuse modifications.  [path.join] is modelled: the path of a key
      leads to a file of the directory, below it (where there is nothing,
      the directory being flat) or elsewhere, and the world records the rest
      of the file system by normalized path.  Symbolic links are not
      modelled, and a relative cache directory is taken relative to a
      working directory that no key spells out.
    - Every method runs in a state-and-exception monad over the [world]: the
      file system, the clock, the console and the collaborator that owns the
      producers passed to [getOrSet]. *)

From Stdlib Require Import ZArith String Ascii List DecimalString DecimalN Lia.
From stdpp Require Import gmap strings list fin_maps.
Import ListNotations.

#[local] Set Warnings "-register-all".

Open Scope string_scope.
Open Scope Z_scope.

(** ** SHA-256 (FIPS 180-4), as [crypto.createHash("sha256")] computes it *)

Module Sha256.

Definition w32 (x : Z) : Z := x mod 2 ^ 32.
Definition add32 (x y : Z) : Z := w32 (x + y).
Definition rotr (n x : Z) : Z :=
  Z.lor (Z.shiftr x n) (w32 (Z.shiftl x (32 - n))).
Definition shr (n x : Z) : Z := Z.shiftr x n.

Definition Ch (x y z : Z) : Z :=
  Z.lxor (Z.land x y) (Z.land (w32 (Z.lnot x)) z).
Definition Maj (x y z : Z) : Z :=
  Z.lxor (Z.lxor (Z.land x y) (Z.land x z)) (Z.land y z).
Definition Sigma0 (x : Z) : Z :=
  Z.lxor (Z.lxor (rotr 2 x) (rotr 13 x)) (rotr 22 x).
Definition Sigma1 (x : Z) : Z :=
  Z.lxor (Z.lxor (rotr 6 x) (rotr 11 x)) (rotr 25 x).
Definition sigma0 (x : Z) : Z :=
  Z.lxor (Z.lxor (rotr 7 x) (rotr 18 x)) (shr 3 x).
Definition sigma1 (x : Z) : Z :=
  Z.lxor (Z.lxor (rotr 17 x) (rotr 19 x)) (shr 10 x).

(** The constants are the first 32 bits of the fractional parts of the
    square roots (initial hash) and cube roots (round constants) of the
    first primes; they are computed here rather than tabulated. *)
Definition is_prime (n : nat) : bool :=
  forallb (fun d => negb (Nat.eqb (Nat.modulo n d) 0)) (seq 2 (n - 2)).

Definition primes (count : nat) : list Z :=
  List.map Z.of_nat (firstn count (List.filter is_prime (seq 2 400))).

(** The largest [r] below [2^41] with [r ^ k <= n]. *)
Definition iroot (k n : Z) : Z :=
  fold_left
    (fun r i => let r' := r + 2 ^ Z.of_nat i in if r' ^ k <=? n then r' else r)
    (rev (seq 0 41)) 0.

Definition frac_root (k p : Z) : Z := w32 (iroot k (p * 2 ^ (32 * k))).

Definition H0 : list Z :=
  Eval vm_compute in List.map (frac_root 2) (primes 8).

Definition K : list Z :=
  Eval vm_compute in List.map (frac_root 3) (primes 64).

Fixpoint be_bytes (n : nat) (x : Z) : list Z :=
  match n with
  | O => []
  | S n' => Z.shiftr x (8 * Z.of_nat n') mod 256 :: be_bytes n' x
  end.

(** Padding: the byte 0x80, zero bytes up to 56 modulo 64, and the length of
    the message in bits on eight bytes. *)
Definition pad (msg : list Z) : list Z :=
  let len := Z.of_nat (length msg) in
  msg ++ [128] ++ repeat 0 (Z.to_nat ((55 - len) mod 64)) ++ be_bytes 8 (8 * len).

Definition be_word (bs : list Z) : Z :=
  fold_left (fun acc b => acc * 256 + b) bs 0.

Fixpoint words (n : nat) (bs : list Z) : list Z :=
  match n with
  | O => []
  | S n' => be_word (firstn 4 bs) :: words n' (skipn 4 bs)
  end.

(** The message schedule is kept as a window of sixteen words. *)
Definition next_w (w : list Z) : Z :=
  add32 (add32 (sigma1 (nth 14 w 0)) (nth 9 w 0))
        (add32 (sigma0 (nth 1 w 0)) (nth 0 w 0)).

Definition round (st : list Z) (k w : Z) : list Z :=
  match st with
  | [a; b; c; d; e; f; g; h] =>
      let t1 := add32 (add32 (add32 h (Sigma1 e)) (add32 (Ch e f g) k)) w in
      let t2 := add32 (Sigma0 a) (Maj a b c) in
      [add32 t1 t2; a; b; c; add32 d t1; e; f; g]
  | _ => st
  end.

Fixpoint rounds (ks w st : list Z) : list Z :=
  match ks with
  | [] => st
  | k :: ks' => rounds ks' (tl w ++ [next_w w]) (round st k (hd 0 w))
  end.

Definition compress (h block : list Z) : list Z :=
  List.map (fun p => add32 (fst p) (snd p))
           (combine h (rounds K (words 16 block) h)).

Fixpoint blocks (n : nat) (h bs : list Z) : list Z :=
  match n with
  | O => h
  | S n' => blocks n' (compress h (firstn 64 bs)) (skipn 64 bs)
  end.

Definition digest (msg : list Z) : list Z :=
  let p := pad msg in blocks (Nat.div (length p) 64) H0 p.

Definition hex_digit (d : Z) : ascii :=
  ascii_of_N (Z.to_N (if d <? 10 then 48 + d else 87 + d)).

Fixpoint hex (n : nat) (x : Z) : string :=
  match n with
  | O => ""
  | S n' => String (hex_digit (Z.shiftr x (4 * Z.of_nat n') mod 16)) (hex n' x)
  end.

Definition bytes_of_string (s : string) : list Z :=
  List.map (fun c => Z.of_N (N_of_ascii c)) (list_ascii_of_string s).

(** [createHash("sha256").update(s).digest("hex")] *)
Definition sha256_hex (s : string) : string :=
  fold_right (fun w acc => hex 8 w +:+ acc) "" (digest (bytes_of_string s)).

End Sha256.

(** ** Text *)

Definition dquote : ascii := ascii_of_nat 34.
Definition newline : ascii := ascii_of_nat 10.

Definition code (c : ascii) : Z := Z.of_N (N_of_ascii c).
Definition char_of (n : Z) : ascii := ascii_of_N (Z.to_N n).

Definition is_digit (c : ascii) : bool := (48 <=? code c) && (code c <=? 57).

(** The decimal digits of a natural number. *)
Definition decN (n : N) : string := NilEmpty.string_of_uint (N.to_uint n).

(** The longest prefix of decimal digits. *)
Fixpoint digits (s : string) : string :=
  match s with
  | String c r => if is_digit c then String c (digits r) else ""
  | "" => ""
  end.

Fixpoint drop (n : nat) (s : string) : string :=
  match n, s with
  | S n', String _ r => drop n' r
  | _, _ => s
  end.

Fixpoint take (n : nat) (s : string) : string :=
  match n, s with
  | S n', String c r => String c (take n' r)
  | _, _ => ""
  end.

Fixpoint zeros (n : nat) : string :=
  match n with
  | O => ""
  | S n' => String "0" (zeros n')
  end.

(** The number that a string of decimal digits denotes. *)
Definition digits_value (ds : string) : Z :=
  match NilEmpty.uint_of_string ds with
  | Some u => Z.of_N (N.of_uint u)
  | None => 0
  end.

(** [Array.prototype.join] *)
Fixpoint join (sep : string) (parts : list string) : string :=
  match parts with
  | [] => ""
  | [p] => p
  | p :: ps => p +:+ sep +:+ join sep ps
  end.

(** ** JavaScript numbers: IEEE 754 doubles *)

Module Number.

(** A Number is NaN, an infinity, a zero with its sign, or
    [± m × 2^e] with [m] odd.  It is a double when [m < 2^53],
    [-1074 <= e] and [m × 2^e < 2^1024]; every function below returns
    doubles. *)
Inductive t : Type :=
| NaN
| Infinity (negative : bool)
| Zero (negative : bool)
| Finite (negative : bool) (m : positive) (e : Z).

#[global] Instance eq_dec : EqDecision t.
Proof. solve_decision. Defined.

(** [p = m × 2^i] with [m] odd *)
Fixpoint odd_part (p : positive) : positive * Z :=
  match p with
  | xO q => let (m, i) := odd_part q in (m, i + 1)
  | _ => (p, 0)
  end.

(** The double nearest to [a / b], for [a] and [b] positive: round to
    nearest, ties to even (IEEE 754 roundTiesToEven), with gradual underflow
    and overflow to infinity.  [E] is the binary order of [a / b] and [2^q]
    the unit in the last place of the doubles of that order. *)
Definition round_ratio (negative : bool) (a b : Z) : t :=
  let E0 := Z.log2 a - Z.log2 b in
  let above := if 0 <=? E0 then b * 2 ^ E0 <=? a else b <=? a * 2 ^ (- E0) in
  let E := if above then E0 else E0 - 1 in
  let q := Z.max (E - 52) (-1074) in
  let num := if q <? 0 then a * 2 ^ (- q) else a in
  let den := if q <? 0 then b else b * 2 ^ q in
  let k := num / den in
  let r := num mod den in
  let k' := if (den <? 2 * r) || ((den =? 2 * r) && Z.odd k) then k + 1 else k in
  match k' with
  | Zpos p =>
      if 1024 <=? Z.log2 k' + q then Infinity negative
      else let (m, i) := odd_part p in Finite negative m (q + i)
  | _ => Zero negative
  end.

(** The Number for a mathematical integer *)
Definition of_Z (z : Z) : t :=
  match z with
  | Z0 => Zero false
  | Zpos _ => round_ratio false z 1
  | Zneg _ => round_ratio true (- z) 1
  end.

(** The Number for [± s × 10^p], [s] a natural number.  Beyond [10^309]
    every value rounds to infinity and below [10^-324] to zero, whatever
    its digits are. *)
Definition of_decimal (negative : bool) (s p : Z) : t :=
  if s <=? 0 then Zero negative
  else if 309 <? p then Infinity negative
  else if p + Z.log2 s / 3 + 1 <? -324 then Zero negative
  else if 0 <=? p then round_ratio negative (s * 10 ^ p) 1
  else round_ratio negative s (10 ^ (- p)).

(** The value of a JSON number literal
    ([-]? (0 | [1-9][0-9]* ) ([.][0-9]+)? ([eE][+-]?[0-9]+)?), or [None]
    when the text is no such literal. *)
Definition of_literal (text : string) : option t :=
  let '(negative, s1) :=
    match text with
    | String c r => if code c =? 45 then (true, r) else (false, text)
    | "" => (false, text)
    end in
  let int := digits s1 in
  let s2 := drop (String.length int) s1 in
  let leading_zero :=
    match int with
    | String c (String _ _) => code c =? 48
    | _ => false
    end in
  let '(frac, s3) :=
    match s2 with
    | String c r =>
        if code c =? 46 then (Some (digits r), drop (String.length (digits r)) r)
        else (None, s2)
    | "" => (None, s2)
    end in
  let '(exp, s4) :=
    match s3 with
    | String c r =>
        if (code c =? 101) || (code c =? 69) then
          let '(minus, r1) :=
            match r with
            | String c1 r' =>
                if code c1 =? 45 then (true, r')
                else if code c1 =? 43 then (false, r')
                else (false, r)
            | "" => (false, r)
            end in
          (Some (minus, digits r1), drop (String.length (digits r1)) r1)
        else (None, s3)
    | "" => (None, s3)
    end in
  if (String.length int =? 0)%nat || leading_zero then None
  else if bool_decide (frac = Some "") then None
  else if bool_decide (∃ minus, exp = Some (minus, "")) then None
  else if negb (String.eqb s4 "") then None
  else
    let f := match frac with Some f => f | None => "" end in
    let x := match exp with
             | Some (minus, ds) => if minus then - digits_value ds else digits_value ds
             | None => 0
             end in
    Some (of_decimal negative (digits_value (int +:+ f)) (x - Z.of_nat (String.length f))).

(** *** [Number::toString] *)

(** [floor ((a / b) / 10^p)] *)
Definition scaled_floor (a b p : Z) : Z :=
  if 0 <=? p then a / (b * 10 ^ p) else (a * 10 ^ (- p)) / b.

(** The decimal order of [a / b]: the [n] with [10^(n-1) <= a / b < 10^n],
    reached from an estimate. *)
Fixpoint order_from (fuel : nat) (a b n : Z) : Z :=
  match fuel with
  | O => n
  | S fuel' =>
      let d := scaled_floor a b (n - 1) in
      if d =? 0 then order_from fuel' a b (n - 1)
      else if 10 <=? d then order_from fuel' a b (n + 1)
      else n
  end.

Definition order (a b : Z) : Z :=
  order_from 8 a b ((Z.log2 a - Z.log2 b) * 30103 / 100000 + 1).

(** The text for the digits [ds] of [s] and the order [n], that is for
    [s × 10^(n-k)] with [k] the number of digits. *)
Definition format (ds : string) (n : Z) : string :=
  let k := Z.of_nat (String.length ds) in
  if (k <=? n) && (n <=? 21) then ds +:+ zeros (Z.to_nat (n - k))
  else if (0 <? n) && (n <=? 21) then
    take (Z.to_nat n) ds +:+ "." +:+ drop (Z.to_nat n) ds
  else if (-6 <? n) && (n <=? 0) then "0." +:+ zeros (Z.to_nat (- n)) +:+ ds
  else
    let e := n - 1 in
    let exponent := (if e <? 0 then "e-" else "e+") +:+ decN (Z.to_N (Z.abs e)) in
    match ds with
    | String d "" => String d exponent
    | String d more => String d ("." +:+ more +:+ exponent)
    | "" => ""
    end.

Definition signed (negative : bool) (text : string) : string :=
  if negative then String "-" text else text.

(** The text with [k] digits for [x = ± a / b] of order [n], if there is
    one that reads back as [x]: of the two [k]-digit decimals around [x] the
    nearer one that does, and of two equally near the even one. *)
Definition with_digits (x : t) (negative : bool) (a b n k : Z) : option string :=
  let p := n - k in
  let lo := scaled_floor a b p in
  let hi := lo + 1 in
  let text (s : Z) :=
    signed negative
      (if s =? 10 ^ k then format (decN (Z.to_N (10 ^ (k - 1)))) (n + 1)
       else format (decN (Z.to_N s)) n) in
  let reads_back (s : Z) := bool_decide (of_literal (text s) = Some x) in
  let nearer :=
    if 0 <=? p then 2 * a ?= (lo + hi) * 10 ^ p * b
    else 2 * a * 10 ^ (- p) ?= (lo + hi) * b in
  let first :=
    match nearer with
    | Lt => lo
    | Gt => hi
    | Eq => if Z.even lo then lo else hi
    end in
  let second := if first =? lo then hi else lo in
  if reads_back first then Some (text first)
  else if reads_back second then Some (text second)
  else None.

Fixpoint shortest (x : t) (negative : bool) (a b n : Z) (ks : list Z) : option string :=
  match ks with
  | [] => None
  | k :: ks' =>
      match with_digits x negative a b n k with
      | Some text => Some text
      | None => shortest x negative a b n ks'
      end
  end.

(** The exact decimal expansion of [m × 2^e]. *)
Definition exact_text (m : positive) (e : Z) : string :=
  if 0 <=? e then decN (Z.to_N (Zpos m * 2 ^ e))
  else
    let ds := decN (Z.to_N (Zpos m * 5 ^ (- e))) in
    let padded := zeros (Z.to_nat (- e) + 1 - String.length ds) +:+ ds in
    let point := (String.length padded - Z.to_nat (- e))%nat in
    take point padded +:+ "." +:+ drop point padded.

(** [Number::toString(x, 10)]: the shortest decimal that reads back as [x].
    Seventeen digits are enough for every double. *)
Definition to_string (x : t) : string :=
  match x with
  | NaN => "NaN"
  | Infinity negative => signed negative "Infinity"
  | Zero _ => "0"
  | Finite negative m e =>
      let a := if 0 <=? e then Zpos m * 2 ^ e else Zpos m in
      let b := if 0 <=? e then 1 else 2 ^ (- e) in
      match shortest x negative a b (order a b)
              [1; 2; 3; 4; 5; 6; 7; 8; 9; 10; 11; 12; 13; 14; 15; 16; 17] with
      | Some text => text
      | None => signed negative (exact_text m e)
      end
  end.

(** *** Arithmetic *)

(** The integer [n] and the exponent [e] of a finite [n × 2^e] *)
Definition exact (x : t) : option (Z * Z) :=
  match x with
  | Zero _ => Some (0, 0)
  | Finite negative m e => Some (if negative then Zneg m else Zpos m, e)
  | _ => None
  end.

(** The Number for [n × 2^e] *)
Definition of_dyadic (n e : Z) : t :=
  if 0 <=? e then of_Z (n * 2 ^ e)
  else match n with
       | Z0 => Zero false
       | Zpos _ => round_ratio false n (2 ^ (- e))
       | Zneg _ => round_ratio true (- n) (2 ^ (- e))
       end.

(** [x - y]: the exact difference, rounded *)
Definition sub (x y : t) : t :=
  match x, y with
  | NaN, _ | _, NaN => NaN
  | Infinity a, Infinity b => if Bool.eqb a b then NaN else Infinity a
  | Infinity a, _ => Infinity a
  | _, Infinity b => Infinity (negb b)
  | Zero a, Zero b => Zero (a && negb b)
  | _, _ =>
      match exact x, exact y with
      | Some (n1, e1), Some (n2, e2) =>
          let e := Z.min e1 e2 in
          let n := n1 * 2 ^ (e1 - e) - n2 * 2 ^ (e2 - e) in
          if n =? 0 then Zero false else of_dyadic n e
      | _, _ => NaN
      end
  end.

(** [x > y] *)
Definition gt (x y : t) : bool :=
  match x, y with
  | NaN, _ | _, NaN => false
  | Infinity a, Infinity b => negb a && b
  | Infinity a, _ => negb a
  | _, Infinity b => b
  | _, _ =>
      match exact x, exact y with
      | Some (n1, e1), Some (n2, e2) =>
          let e := Z.min e1 e2 in
          n2 * 2 ^ (e2 - e) <? n1 * 2 ^ (e1 - e)
      | _, _ => false
      end
  end.

(** ToBoolean: every Number but NaN and the zeros is truthy. *)
Definition truthy (x : t) : bool :=
  match x with
  | NaN | Zero _ => false
  | _ => true
  end.

(** A Number that JSON can hold: it reads back from its own text.  These
    are the finite doubles but [-0], which prints as [0]. *)
Definition serializable (x : t) : Prop := of_literal (to_string x) = Some x.

End Number.

Abbreviation number := Number.t.
Abbreviation num := Number.of_Z.

(** [Number.prototype.toString] on an integer *)
Definition dec (n : Z) : string := Number.to_string (num n).

(** ** JSON values and JavaScript objects *)

Inductive json : Type :=
| JNull
| JBool (b : bool)
| JNum (n : number)
| JStr (s : string)
| JArr (items : list json)
| JObj (members : list (string * json)).

(** A JavaScript value as the cache meets it: [undefined], or a JSON value
    ([J JNull] is [null]). *)
Inductive value : Type :=
| undefined
| J (j : json).

Abbreviation null := (J JNull).

(** An own property key is an array index when it is the canonical decimal
    form of an integer below [2^32 - 1]. *)
Definition array_index (k : string) : option N :=
  match NilEmpty.uint_of_string k with
  | Some u =>
      let n := N.of_uint u in
      if String.eqb (decN n) k && (n <? 2 ^ 32 - 1)%N then Some n else None
  | None => None
  end.

Definition has_key (k : string) (o : list (string * json)) : bool :=
  existsb (fun m => String.eqb (fst m) k) o.

Fixpoint replace_value (k : string) (v : json) (o : list (string * json))
  : list (string * json) :=
  match o with
  | [] => []
  | (k', v') :: o' =>
      if String.eqb k' k then (k', v) :: o' else (k', v') :: replace_value k v o'
  end.

Fixpoint insert_index (i : N) (k : string) (v : json) (o : list (string * json))
  : list (string * json) :=
  match o with
  | [] => [(k, v)]
  | (k', v') :: o' =>
      match array_index k' with
      | Some j =>
          if (j <? i)%N then (k', v') :: insert_index i k v o' else (k, v) :: o
      | None => (k, v) :: o
      end
  end.

(** [o[k] = v] on an ordinary object.  Own properties are enumerated with the
    array indices first, in ascending order, and then the other keys in the
    order of their creation; assigning an existing key keeps its place. *)
Definition define_property (o : list (string * json)) (m : string * json)
  : list (string * json) :=
  let (k, v) := m in
  if has_key k o then replace_value k v o
  else match array_index k with
       | Some i => insert_index i k v o
       | None => o ++ [(k, v)]
       end.

(** The object obtained by assigning the given properties in turn to the
    empty object: an object literal, or a mapping filled key by key. *)
Definition object_of (ms : list (string * json)) : list (string * json) :=
  fold_left define_property ms [].

(** The JSON values that stand for a JavaScript value which JSON can hold:
    the members of every object are the enumeration of the properties of a
    JavaScript object, and every number is one that JSON can hold (finite,
    and not [-0]). *)
Fixpoint wf_json (v : json) : Prop :=
  match v with
  | JNum n => Number.serializable n
  | JArr items => fold_right (fun x P => wf_json x /\ P) True items
  | JObj ms => object_of ms = ms /\ fold_right (fun m P => wf_json (snd m) /\ P) True ms
  | _ => True
  end.

(** ** [JSON.stringify] *)

Module JSON.

Definition hex_digit (d : Z) : ascii :=
  char_of (if d <? 10 then 48 + d else 87 + d).

(** QuoteJSONString, character by character. *)
Definition escape_char (c : ascii) : string :=
  let n := code c in
  if n =? 8 then "\b"
  else if n =? 9 then "\t"
  else if n =? 10 then "\n"
  else if n =? 12 then "\f"
  else if n =? 13 then "\r"
  else if n =? 34 then String "\" (String dquote "")
  else if n =? 92 then "\\"
  else if n <? 32 then "\u00" +:+ String (hex_digit (n / 16)) (String (hex_digit (n mod 16)) "")
  else String c "".

Fixpoint escape (s : string) : string :=
  match s with
  | "" => ""
  | String c r => escape_char c +:+ escape r
  end.

Definition quote (s : string) : string :=
  String dquote (escape s +:+ String dquote "").

(** The text of an array or object from the texts of its parts
    (SerializeJSONArray and SerializeJSONObject): [indent] is the indentation
    of the enclosing line and [gap] one level more. *)
Definition enclose (opening closing gap indent : string) (parts : list string)
  : string :=
  match parts with
  | [] => opening +:+ closing
  | _ =>
      if String.eqb gap "" then opening +:+ join "," parts +:+ closing
      else
        let inner := String newline (indent +:+ gap) in
        opening +:+ inner +:+ join ("," +:+ inner) parts
                +:+ String newline indent +:+ closing
  end.

Definition colon (gap : string) : string :=
  if String.eqb gap "" then ":" else ": ".

Fixpoint serialize (gap indent : string) (v : json) : string :=
  match v with
  | JNull => "null"
  | JBool true => "true"
  | JBool false => "false"
  | JNum (Number.NaN | Number.Infinity _) => "null"
  | JNum n => Number.to_string n
  | JStr s => quote s
  | JArr items =>
      enclose "[" "]" gap indent
        (List.map (serialize gap (indent +:+ gap)) items)
  | JObj ms =>
      enclose "{" "}" gap indent
        (List.map
           (fun m : string * json => let (k, x) := m in
                     quote k +:+ colon gap +:+ serialize gap (indent +:+ gap) x)
           ms)
  end.

(** [JSON.stringify(v)] and [JSON.stringify(v, null, 2)] *)
Definition stringify (v : json) : string := serialize "" "" v.
Definition stringify2 (v : json) : string := serialize "  " "" v.

(** *** [JSON.parse]: the lexical grammar *)

Inductive token : Type :=
| TLBrace | TRBrace | TLBrack | TRBrack | TColon | TComma
| TNull | TTrue | TFalse
| TNum (n : number)
| TStr (s : string).

Definition is_ws (c : ascii) : bool :=
  (code c =? 9) || (code c =? 10) || (code c =? 13) || (code c =? 32).

Definition hex_value (c : ascii) : option Z :=
  let n := code c in
  if (48 <=? n) && (n <=? 57) then Some (n - 48)
  else if (97 <=? n) && (n <=? 102) then Some (n - 87)
  else if (65 <=? n) && (n <=? 70) then Some (n - 55)
  else None.

Definition hex4 (a b c d : ascii) : option Z :=
  x ← hex_value a; y ← hex_value b; z ← hex_value c; t ← hex_value d;
  Some (((x * 16 + y) * 16 + z) * 16 + t).

(** The UTF-8 bytes of a code point. *)
Definition utf8 (cp : Z) : string :=
  let cont (x : Z) := char_of (128 + x mod 64) in
  if cp <? 128 then String (char_of cp) ""
  else if cp <? 2048 then String (char_of (192 + cp / 64)) (String (cont cp) "")
  else if cp <? 65536 then
    String (char_of (224 + cp / 4096)) (String (cont (cp / 64)) (String (cont cp) ""))
  else
    String (char_of (240 + cp / 262144))
      (String (cont (cp / 4096)) (String (cont (cp / 64)) (String (cont cp) ""))).

Definition simple_escape (e : ascii) : option ascii :=
  let n := code e in
  if n =? 34 then Some dquote                       (* quotation mark *)
  else if n =? 92 then Some "\"%char                (* reverse solidus *)
  else if n =? 47 then Some "/"%char                (* solidus *)
  else if n =? 98 then Some (char_of 8)             (* b: backspace *)
  else if n =? 102 then Some (char_of 12)           (* f: form feed *)
  else if n =? 110 then Some (char_of 10)           (* n: line feed *)
  else if n =? 114 then Some (char_of 13)           (* r: carriage return *)
  else if n =? 116 then Some (char_of 9)            (* t: tab *)
  else None.

Definition is_high_surrogate (u : Z) : bool := (55296 <=? u) && (u <=? 56319).
Definition is_low_surrogate (u : Z) : bool := (56320 <=? u) && (u <=? 57343).

(** The characters of a string literal after its opening quote: the decoded
    string, and how many characters were read up to and including the closing
    quote. *)
Fixpoint lex_string (s : string) : option (string * nat) :=
  match s with
  | "" => None
  | String c r =>
      if code c =? 34 then Some ("", 1%nat)
      else if code c =? 92 then
        match r with
        | "" => None
        | String e r1 =>
            if code e =? 117 then
              match r1 with
              | String h1 (String h2 (String h3 (String h4 r2))) =>
                  u ← hex4 h1 h2 h3 h4;
                  if is_high_surrogate u then
                    match r2 with
                    | String b (String e' (String l1 (String l2 (String l3 (String l4 r3))))) =>
                        match (if (code b =? 92) && (code e' =? 117)
                               then hex4 l1 l2 l3 l4 else None) with
                        | Some lo =>
                            if is_low_surrogate lo then
                              '(str, n) ← lex_string r3;
                              Some (utf8 (65536 + (u - 55296) * 1024 + (lo - 56320)) +:+ str,
                                    (12 + n)%nat)
                            else
                              '(str, n) ← lex_string r2;
                              Some (utf8 u +:+ str, (6 + n)%nat)
                        | None =>
                            '(str, n) ← lex_string r2;
                            Some (utf8 u +:+ str, (6 + n)%nat)
                        end
                    | _ =>
                        '(str, n) ← lex_string r2;
                        Some (utf8 u +:+ str, (6 + n)%nat)
                    end
                  else
                    '(str, n) ← lex_string r2;
                    Some (utf8 u +:+ str, (6 + n)%nat)
              | _ => None
              end
            else
              ch ← simple_escape e;
              '(str, n) ← lex_string r1;
              Some (String ch str, (2 + n)%nat)
        end
      else if code c <? 32 then None
      else
        '(str, n) ← lex_string r;
        Some (String c str, S n)
  end.

(** A number: the longest run of the characters of number literals, which
    has to be a literal.  (In a JSON text a number is followed by white
    space, a comma, a bracket or a brace, or ends the text.) *)
Definition literal_char (c : ascii) : bool :=
  is_digit c || (code c =? 45) || (code c =? 43) || (code c =? 46)
  || (code c =? 101) || (code c =? 69).

Fixpoint span (s : string) : string :=
  match s with
  | String c r => if literal_char c then String c (span r) else ""
  | "" => ""
  end.

Definition lex_number (s : string) : option (number * nat) :=
  x ← Number.of_literal (span s); Some (x, String.length (span s)).

(** The token that starts a text, and its length in characters. *)
Definition token_at (s : string) : option (token * nat) :=
  match s with
  | "" => None
  | String c r =>
      let n := code c in
      if n =? 123 then Some (TLBrace, 1%nat)
      else if n =? 125 then Some (TRBrace, 1%nat)
      else if n =? 91 then Some (TLBrack, 1%nat)
      else if n =? 93 then Some (TRBrack, 1%nat)
      else if n =? 58 then Some (TColon, 1%nat)
      else if n =? 44 then Some (TComma, 1%nat)
      else if n =? 34 then '(str, k) ← lex_string r; Some (TStr str, S k)
      else if literal_char c then '(x, k) ← lex_number s; Some (TNum x, k)
      else if String.prefix "null" s then Some (TNull, 4%nat)
      else if String.prefix "true" s then Some (TTrue, 4%nat)
      else if String.prefix "false" s then Some (TFalse, 5%nat)
      else None
  end.

(** The tokens of a text.  [skip] characters of the token read last are
    still to be passed over. *)
Fixpoint lex (skip : nat) (s : string) : option (list token) :=
  match s with
  | "" => Some []
  | String c r =>
      match skip with
      | S k => lex k r
      | O =>
          if is_ws c then lex O r
          else '(t, n) ← token_at s; ts ← lex (Nat.pred n) r; Some (t :: ts)
      end
  end.

(** *** [JSON.parse]: the syntactic grammar *)

Fixpoint parse_value (fuel : nat) (ts : list token) : option (json * list token) :=
  match fuel with
  | O => None
  | S f =>
      match ts with
      | TNull :: r => Some (JNull, r)
      | TTrue :: r => Some (JBool true, r)
      | TFalse :: r => Some (JBool false, r)
      | TNum n :: r => Some (JNum n, r)
      | TStr s :: r => Some (JStr s, r)
      | TLBrack :: TRBrack :: r => Some (JArr [], r)
      | TLBrack :: r => '(items, r') ← parse_items f r; Some (JArr items, r')
      | TLBrace :: TRBrace :: r => Some (JObj [], r)
      | TLBrace :: r => '(ms, r') ← parse_members f r; Some (JObj (object_of ms), r')
      | _ => None
      end
  end
with parse_items (fuel : nat) (ts : list token) : option (list json * list token) :=
  match fuel with
  | O => None
  | S f =>
      '(v, r) ← parse_value f ts;
      match r with
      | TComma :: r' => '(vs, r'') ← parse_items f r'; Some (v :: vs, r'')
      | TRBrack :: r' => Some ([v], r')
      | _ => None
      end
  end
with parse_members (fuel : nat) (ts : list token)
  : option (list (string * json) * list token) :=
  match fuel with
  | O => None
  | S f =>
      match ts with
      | TStr k :: TColon :: r =>
          '(v, r') ← parse_value f r;
          match r' with
          | TComma :: r'' => '(ms, r3) ← parse_members f r''; Some ((k, v) :: ms, r3)
          | TRBrace :: r'' => Some ([(k, v)], r'')
          | _ => None
          end
      | _ => None
      end
  end.

(** [JSON.parse(text)]: [None] stands for the SyntaxError it throws.  Every
    value or member consumes a token, so the number of tokens is fuel
    enough. *)
Definition parse (text : string) : option json :=
  ts ← lex O text;
  match parse_value (S (length ts)) ts with
  | Some (v, []) => Some v
  | _ => None
  end.

End JSON.

(** ** The JavaScript operators the cache applies to a parsed entry *)

Module JS.

Fixpoint assoc (k : string) (o : list (string * json)) : value :=
  match o with
  | [] => undefined
  | (k', v) :: o' => if String.eqb k' k then J v else assoc k o'
  end.

(** [v.name], for the names the cache reads ([data], [timestamp], [ttl]):
    reading a property of [null] throws a TypeError ([None]); a primitive, an
    array or an object without the property gives [undefined]. *)
Definition get_property (v : json) (name : string) : option value :=
  match v with
  | JNull => None
  | JObj o => Some (assoc name o)
  | _ => Some undefined
  end.

(** ToString *)
Fixpoint to_string (v : json) : string :=
  match v with
  | JNull => "null"
  | JBool true => "true"
  | JBool false => "false"
  | JNum n => Number.to_string n
  | JStr s => s
  | JArr items =>
      join "," (List.map (fun x => match x with JNull => "" | _ => to_string x end) items)
  | JObj _ => "[object Object]"
  end.

(** *** StringToNumber *)

(** The text after a leading white space or line terminator
    (StrWhiteSpaceChar), in UTF-8: TAB, LF, VT, FF, CR, SP; U+00A0; U+1680;
    U+2000 to U+200A, U+2028, U+2029, U+202F; U+205F; U+3000; U+FEFF. *)
Definition after_space (s : string) : option string :=
  match s with
  | String c1 r1 =>
      let a := code c1 in
      if ((9 <=? a) && (a <=? 13)) || (a =? 32) then Some r1
      else
        match r1 with
        | String c2 r2 =>
            let b := code c2 in
            if (a =? 194) && (b =? 160) then Some r2
            else
              match r2 with
              | String c3 r3 =>
                  let c := code c3 in
                  if (a =? 225) && (b =? 154) && (c =? 128) then Some r3
                  else if (a =? 226) && (b =? 128)
                          && (((128 <=? c) && (c <=? 138)) || (c =? 168) || (c =? 169)
                              || (c =? 175)) then Some r3
                  else if (a =? 226) && (b =? 129) && (c =? 159) then Some r3
                  else if (a =? 227) && (b =? 128) && (c =? 128) then Some r3
                  else if (a =? 239) && (b =? 187) && (c =? 191) then Some r3
                  else None
              | "" => None
              end
        | "" => None
        end
  | "" => None
  end.

Fixpoint trim_start_from (fuel : nat) (s : string) : string :=
  match fuel with
  | O => s
  | S fuel' =>
      match after_space s with
      | Some r => trim_start_from fuel' r
      | None => s
      end
  end.

Definition trim_start (s : string) : string := trim_start_from (String.length s) s.

Definition all_space (s : string) : bool := String.eqb (trim_start s) "".

Fixpoint trim_end (s : string) : string :=
  match s with
  | "" => ""
  | String c r => if all_space s then "" else String c (trim_end r)
  end.

Definition trim (s : string) : string := trim_end (trim_start s).

(** The value of a string of digits in a radix, [None] when a character is
    not a digit of the radix or there is no digit. *)
Fixpoint radix_value (radix : Z) (acc : Z) (s : string) : option Z :=
  match s with
  | "" => Some acc
  | String c r =>
      match JSON.hex_value c with
      | Some d => if d <? radix then radix_value radix (acc * radix + d) r else None
      | None => None
      end
  end.

Definition radix_literal (radix : Z) (s : string) : number :=
  match s with
  | "" => Number.NaN
  | _ => match radix_value radix 0 s with
         | Some n => num n
         | None => Number.NaN
         end
  end.

(** StrDecimalLiteral: a sign, then [Infinity] or digits with an optional
    fraction and an optional exponent; the digits before or after the point
    can be missing, not both. *)
Definition decimal_literal (s : string) : number :=
  let '(negative, s1) :=
    match s with
    | String c r =>
        if code c =? 45 then (true, r) else if code c =? 43 then (false, r) else (false, s)
    | "" => (false, s)
    end in
  if String.eqb s1 "Infinity" then Number.Infinity negative
  else
    let int := digits s1 in
    let s2 := drop (String.length int) s1 in
    let '(frac, s3) :=
      match s2 with
      | String c r =>
          if code c =? 46 then (digits r, drop (String.length (digits r)) r)
          else ("", s2)
      | "" => ("", s2)
      end in
    let '(exp, s4) :=
      match s3 with
      | String c r =>
          if (code c =? 101) || (code c =? 69) then
            let '(minus, r1) :=
              match r with
              | String c1 r' =>
                  if code c1 =? 45 then (true, r')
                  else if code c1 =? 43 then (false, r')
                  else (false, r)
              | "" => (false, r)
              end in
            (Some (minus, digits r1), drop (String.length (digits r1)) r1)
          else (None, s3)
      | "" => (None, s3)
      end in
    if String.eqb (int +:+ frac) "" then Number.NaN
    else if bool_decide (∃ minus, exp = Some (minus, "")) then Number.NaN
    else if negb (String.eqb s4 "") then Number.NaN
    else
      let x := match exp with
               | Some (minus, ds) => if minus then - digits_value ds else digits_value ds
               | None => 0
               end in
      Number.of_decimal negative (digits_value (int +:+ frac))
        (x - Z.of_nat (String.length frac)).

(** StringToNumber: white space is trimmed; the empty string is [0]; then a
    binary, octal or hexadecimal integer, or a decimal literal; any other
    text is NaN. *)
Definition string_to_number (s : string) : number :=
  let t := trim s in
  match t with
  | "" => Number.Zero false
  | String z (String x r) =>
      if (code z =? 48) && ((code x =? 120) || (code x =? 88)) then radix_literal 16 r
      else if (code z =? 48) && ((code x =? 111) || (code x =? 79)) then radix_literal 8 r
      else if (code z =? 48) && ((code x =? 98) || (code x =? 66)) then radix_literal 2 r
      else decimal_literal t
  | _ => decimal_literal t
  end.

(** ToNumber *)
Definition to_number (v : value) : number :=
  match v with
  | undefined => Number.NaN
  | J JNull => Number.Zero false
  | J (JBool b) => num (if b then 1 else 0)
  | J (JNum n) => n
  | J (JStr s) => string_to_number s
  | J (JArr items) => string_to_number (to_string (JArr items))
  | J (JObj _) => Number.NaN
  end.

(** [a - b] and [a > b] on Numbers *)
Definition sub (a b : number) : number := Number.sub a b.

Definition gt (a b : number) : bool := Number.gt a b.

(** What a template literal prints for a Number and for a value. *)
Definition show_number (a : number) : string := Number.to_string a.

Definition show (v : value) : string :=
  match v with
  | undefined => "undefined"
  | J j => to_string j
  end.

(** [v !== null] *)
Definition is_null (v : value) : bool :=
  match v with
  | J JNull => true
  | _ => false
  end.

(** [file.endsWith(suffix)] *)
Definition endsWith (s suffix : string) : bool :=
  let n := String.length s in
  let m := String.length suffix in
  (m <=? n)%nat && String.eqb (String.substring (n - m) m s) suffix.

End JS.

(** ** [path.join] (POSIX) *)

Module Path.

(** The segments of a path, between its separators. *)
Fixpoint split (s : string) : list string :=
  match s with
  | "" => [""]
  | String c r =>
      if code c =? 47 then "" :: split r
      else match split r with
           | seg :: segs => String c seg :: segs
           | [] => [String c ""]
           end
  end.

(** One segment in [normalizeString]: an empty segment and [.] are dropped;
    [..] removes the segment before it, and stays when there is none to
    remove, unless the path is absolute. *)
Definition step (absolute : bool) (stack : list string) (seg : string) : list string :=
  if String.eqb seg "" || String.eqb seg "." then stack
  else if String.eqb seg ".." then
    match last stack with
    | Some top => if String.eqb top ".." then stack ++ [".."] else removelast stack
    | None => if absolute then stack else stack ++ [".."]
    end
  else stack ++ [seg].

Definition is_absolute (p : string) : bool :=
  match p with
  | String c _ => code c =? 47
  | "" => false
  end.

Definition segments (p : string) : list string :=
  fold_left (step (is_absolute p)) (split p) [].

Definition ends_with_separator (p : string) : bool :=
  match last (list_ascii_of_string p) with
  | Some c => code c =? 47
  | None => false
  end.

Definition normalize (p : string) : string :=
  match p with
  | "" => "."
  | _ =>
      let body := join "/" (segments p) in
      match body with
      | "" => if is_absolute p then "/" else if ends_with_separator p then "./" else "."
      | _ =>
          (if is_absolute p then "/" else "")
          +:+ body +:+ (if ends_with_separator p then "/" else "")
      end
  end.

(** [path.join(a, b)]: the arguments that are not empty, joined with a
    separator and normalized. *)
Definition join (a b : string) : string :=
  match a, b with
  | "", "" => "."
  | "", _ => normalize b
  | _, "" => normalize a
  | _, _ => normalize (a +:+ "/" +:+ b)
  end.

End Path.

(** ** The world: file system, clock, console, collaborator *)

Inductive exn : Type :=
| SystemError (errno : string)     (* thrown by [fs] *)
| SyntaxError                      (* thrown by [JSON.parse] *)
| TypeError                        (* a property of [null] was read, or a
                                      path with a NUL byte given to [fs] *)
| Error (message : string).        (* any other error value *)

Inductive outcome (A : Type) : Type :=
| Return (a : A)
| Throw (e : exn).
Arguments Return {A} a.
Arguments Throw {A} e.

(** A line written with [console.error]; an error line keeps the error whose
    message it prints. *)
Inductive log_line : Type :=
| Log (text : string)
| LogError (text : string) (e : exn).

(** Where a path leads, seen from the cache directory: to the file [name]
    of the directory ([name] holds a separator when the path leads below the
    directory, into a subdirectory), or elsewhere. *)
Inductive location : Type :=
| Inside (name : string)
| Outside (path : string).

#[global] Instance location_eq_dec : EqDecision location.
Proof. solve_decision. Defined.

Fixpoint strip_prefix (prefix l : list string) : option (list string) :=
  match prefix, l with
  | [], _ => Some l
  | a :: prefix', b :: l' => if String.eqb a b then strip_prefix prefix' l' else None
  | _ :: _, [] => None
  end.

(** Where the normalized path [p] leads, seen from the directory [dir]. *)
Definition resolve (dir p : string) : location :=
  if negb (Bool.eqb (Path.is_absolute dir) (Path.is_absolute p)) then Outside p
  else
    match strip_prefix (Path.segments dir) (Path.segments p) with
    | Some (seg :: rel) =>
        if String.eqb seg ".." then Outside p else Inside (join "/" (seg :: rel))
    | _ => Outside p
    end.

(** What is at a path outside the cache directory (the directory itself and
    those that hold it included): a regular file, a directory, or nothing
    yet in a directory that exists.  A path that the world does not record
    has no directory to hold it. *)
Inductive node : Type :=
| File (content : string)
| Directory
| Vacant.

(** [disk] is the content of the cache directory, [None] when the directory
    does not exist; [outside] is the rest of the file system, by normalized
    path; [read_only] says that the file system refuses every
    modification (no permission, read-only mount); [ext] is the state
    of the collaborator that owns the producers and [invoked] counts the
    invocations of producers. *)
Record world (E : Type) : Type := World {
  disk : option (gmap string string);
  outside : gmap string node;
  read_only : bool;
  clock : Z;
  console : list log_line;
  ext : E;
  invoked : nat
}.
Arguments World {E}.
Arguments disk {E}.
Arguments outside {E}.
Arguments read_only {E}.
Arguments clock {E}.
Arguments console {E}.
Arguments ext {E}.
Arguments invoked {E}.

Definition with_disk {E} (d : option (gmap string string)) (w : world E) : world E :=
  World d (outside w) (read_only w) (clock w) (console w) (ext w) (invoked w).

Definition with_outside {E} (o : gmap string node) (w : world E) : world E :=
  World (disk w) o (read_only w) (clock w) (console w) (ext w) (invoked w).

(** Time passes between two calls. *)
Definition elapse {E} (ms : N) (w : world E) : world E :=
  World (disk w) (outside w) (read_only w) (clock w + Z.of_N ms) (console w) (ext w)
        (invoked w).

Definition M (E A : Type) : Type := world E → outcome A * world E.

Definition ret {E A} (a : A) : M E A := fun w => (Return a, w).
Definition throw {E A} (e : exn) : M E A := fun w => (Throw e, w).
Definition bind {E A B} (m : M E A) (k : A → M E B) : M E B :=
  fun w =>
    match m w with
    | (Return a, w') => k a w'
    | (Throw e, w') => (Throw e, w')
    end.

(** [try { body } catch (error) { handler }] *)
Definition try_catch {E A} (body : M E A) (handler : exn → M E A) : M E A :=
  fun w =>
    match body w with
    | (Return a, w') => (Return a, w')
    | (Throw e, w') => handler e w'
    end.

Notation "x <- m ;; k" := (bind m (fun x => k))
  (at level 100, m at next level, right associativity).
Notation "m ;; k" := (bind m (fun _ => k))
  (at level 100, right associativity).

(** [for (const x of l) { s = body(s, x) }] *)
Fixpoint for_of {E A S} (l : list A) (s : S) (body : S → A → M E S) : M E S :=
  match l with
  | [] => ret s
  | x :: l' => s' <- body s x ;; for_of l' s' body
  end.

(** A name the file system accepts for a file of the directory: at most 255
    bytes, none of them a path separator or NUL.  A name with a separator
    would lie in a subdirectory, and the directory has none. *)
Fixpoint plain_chars (s : string) : bool :=
  match s with
  | String c r => negb (code c =? 47) && negb (code c =? 0) && plain_chars r
  | "" => true
  end.

Definition legal_name (name : string) : bool :=
  plain_chars name && (0 <? String.length name)%nat && (String.length name <=? 255)%nat.

Fixpoint has_nul (s : string) : bool :=
  match s with
  | String c r => (code c =? 0) || has_nul r
  | "" => false
  end.

(** The error for a name that is not there or not legal: [fs] refuses a
    path with a NUL byte before it asks the system; a name that is too long
    is refused by the system; a name with a separator leads below a file of
    the directory, or into a subdirectory, which is not there. *)
Definition no_directory_error (path : string) : exn :=
  if has_nul path then TypeError else SystemError "ENOENT".

Definition name_error (d : gmap string string) (name : string) : exn :=
  if has_nul name then TypeError
  else if plain_chars name then
    if (255 <? String.length name)%nat then SystemError "ENAMETOOLONG"
    else SystemError "ENOENT"
  else if bool_decide (is_Some (d !! hd "" (Path.split name))) then SystemError "ENOTDIR"
  else SystemError "ENOENT".

(** The file at a location, if there is a regular file. *)
Definition file_at {E} (w : world E) (l : location) : option string :=
  match l with
  | Inside name => disk w ≫= (.!! name)
  | Outside path =>
      if has_nul path then None
      else match outside w !! path with
           | Some (File content) => Some content
           | _ => None
           end
  end.

Definition existsSync {E} (l : location) : M E bool :=
  fun w =>
    match l with
    | Inside name =>
        match disk w with
        | Some d => (Return (bool_decide (is_Some (d !! name))), w)
        | None => (Return false, w)
        end
    | Outside path =>
        (Return (negb (has_nul path)
                 && match outside w !! path with
                    | Some (File _) | Some Directory => true
                    | _ => false
                    end), w)
    end.

Definition readFileSync {E} (l : location) : M E string :=
  fun w =>
    match l with
    | Inside name =>
        match disk w with
        | Some d =>
            match d !! name with
            | Some content => (Return content, w)
            | None => (Throw (name_error d name), w)
            end
        | None => (Throw (no_directory_error name), w)
        end
    | Outside path =>
        if has_nul path then (Throw TypeError, w)
        else match outside w !! path with
             | Some (File content) => (Return content, w)
             | Some Directory => (Throw (SystemError "EISDIR"), w)
             | _ => (Throw (SystemError "ENOENT"), w)
             end
    end.

Definition writeFileSync {E} (l : location) (content : string) : M E unit :=
  fun w =>
    match l with
    | Inside name =>
        match disk w with
        | Some d =>
            if negb (legal_name name) then (Throw (name_error d name), w)
            else if read_only w then (Throw (SystemError "EACCES"), w)
            else (Return tt, with_disk (Some (<[name := content]> d)) w)
        | None => (Throw (no_directory_error name), w)
        end
    | Outside path =>
        if has_nul path then (Throw TypeError, w)
        else match outside w !! path with
             | Some Directory => (Throw (SystemError "EISDIR"), w)
             | Some _ =>
                 if read_only w then (Throw (SystemError "EACCES"), w)
                 else (Return tt, with_outside (<[path := File content]> (outside w)) w)
             | None => (Throw (SystemError "ENOENT"), w)
             end
    end.

Definition unlinkSync {E} (l : location) : M E unit :=
  fun w =>
    match l with
    | Inside name =>
        match disk w with
        | Some d =>
            match d !! name with
            | Some _ =>
                if read_only w then (Throw (SystemError "EACCES"), w)
                else (Return tt, with_disk (Some (delete name d)) w)
            | None => (Throw (name_error d name), w)
            end
        | None => (Throw (no_directory_error name), w)
        end
    | Outside path =>
        if has_nul path then (Throw TypeError, w)
        else match outside w !! path with
             | Some (File _) =>
                 if read_only w then (Throw (SystemError "EACCES"), w)
                 else (Return tt, with_outside (<[path := Vacant]> (outside w)) w)
             | Some Directory => (Throw (SystemError "EISDIR"), w)
             | _ => (Throw (SystemError "ENOENT"), w)
             end
    end.

(** [fs.readdirSync(this.cacheDir)]: the names, in the order of the map. *)
Definition readdirSync {E} : M E (list string) :=
  fun w =>
    match disk w with
    | Some d => (Return (elements (dom d)), w)
    | None => (Throw (SystemError "ENOENT"), w)
    end.

(** [Date.now()]: the time of the clock, a Number *)
Definition Date_now {E} : M E number := fun w => (Return (num (clock w)), w).

Definition console_error {E} (l : log_line) : M E unit :=
  fun w =>
    (Return tt,
     World (disk w) (outside w) (read_only w) (clock w) (console w ++ [l]) (ext w)
           (invoked w)).

Definition JSON_parse {E} (text : string) : M E json :=
  match JSON.parse text with
  | Some v => ret v
  | None => throw SyntaxError
  end.

Definition read_property {E} (v : json) (name : string) : M E value :=
  match JS.get_property v name with
  | Some x => ret x
  | None => throw TypeError
  end.

(** A producer ([operation: () => Promise<T>]): run on the collaborator's
    state, it takes some time and then resolves with a JSON value or rejects
    with an error.  It does not touch the file system. *)
Definition producer (E : Type) : Type := E → outcome json * E * N.

(** [await operation()] *)
Definition await {E} (operation : producer E) : M E json :=
  fun w =>
    let '(r, e, ms) := operation (ext w) in
    (r, World (disk w) (outside w) (read_only w) (clock w + Z.of_N ms) (console w) e
              (S (invoked w))).

(** ** Class [CacheManager] *)

(** [interface CacheEntry] and the object literal [{ data, timestamp, ttl }] *)
Module CacheEntry.
Record t : Type := {
  data : json;
  timestamp : number;
  ttl : number
}.

Definition object (e : t) : json :=
  JObj (object_of [("data", data e); ("timestamp", JNum (timestamp e)); ("ttl", JNum (ttl e))]).
End CacheEntry.

(** [interface CacheMetadata] *)
Module CacheMetadata.
Record t : Type := {
  totalEntries : number;
  lastCleanup : number
}.

Definition object (m : t) : json :=
  JObj (object_of [("totalEntries", JNum (totalEntries m)); ("lastCleanup", JNum (lastCleanup m))]).
End CacheMetadata.

(** The object [getStats] returns *)
Module Stats.
Record t : Type := {
  totalEntries : Z;
  cacheDir : string;
  defaultTTL : number
}.
End Stats.

Module CacheManager.

(** The fields of the class.  [metadataPath] is [.metadata.json] in the cache
    directory.  Construction (creating the directory, starting the hourly
    [cleanup] timer) is not part of the model: a world whose [disk] is [Some _]
    is a constructed cache. *)
Record t : Type := {
  cacheDir : string;
  defaultTTL : number
}.

Definition metadataPath (this : t) : location := Inside ".metadata.json".

(** [file.endsWith(".json") && file !== ".metadata.json"] *)
Definition is_entry_file (file : string) : bool :=
  JS.endsWith file ".json" && negb (String.eqb file ".metadata.json").

(** [ttl || this.defaultTTL]: the default replaces a TTL that is missing,
    zero or NaN. *)
Definition ttl_or_default (this : t) (ttl : option number) : number :=
  match ttl with
  | Some t => if Number.truthy t then t else defaultTTL this
  | None => defaultTTL this
  end.

Definition generateCacheKey (namespace identifier : string)
  (params : option (list (string * json))) : string :=
  let dataToHash :=
    JSON.stringify
      (JObj (object_of
         [("namespace", JStr namespace);
          ("identifier", JStr identifier);
          ("params", JObj (match params with Some p => p | None => [] end))])) in
  let hash := Sha256.sha256_hex dataToHash in
  namespace +:+ "_" +:+ identifier +:+ "_" +:+ hash.

(** [path.join(this.cacheDir, `${key}.json`)], and where it leads *)
Definition getCacheFilePath (this : t) (key : string) : location :=
  resolve (cacheDir this) (Path.join (cacheDir this) (key +:+ ".json")).

Definition delete {E} (this : t) (key : string) : M E unit :=
  try_catch
    (let filePath := getCacheFilePath this key in
     present <- existsSync filePath ;;
     if present then
       unlinkSync filePath ;;
       console_error (Log ("[DEBUG] Cache deleted: " +:+ key))
     else ret tt)
    (fun error =>
       console_error (LogError ("[ERROR] Failed to delete cache for key " +:+ key) error)).

Definition get {E} (this : t) (key : string) : M E value :=
  try_catch
    (let filePath := getCacheFilePath this key in
     present <- existsSync filePath ;;
     if negb present then
       console_error (Log ("[DEBUG] Cache miss: " +:+ key)) ;;
       ret null
     else
       fileContent <- readFileSync filePath ;;
       entry <- JSON_parse fileContent ;;
       now <- Date_now ;;
       entry_timestamp <- read_property entry "timestamp" ;;
       let age := JS.sub now (JS.to_number entry_timestamp) in
       entry_ttl <- read_property entry "ttl" ;;
       if JS.gt age (JS.to_number entry_ttl) then
         console_error
           (Log ("[DEBUG] Cache expired: " +:+ key +:+ " (age: " +:+ JS.show_number age
                 +:+ "ms, ttl: " +:+ JS.show entry_ttl +:+ "ms)")) ;;
         delete this key ;;
         ret null
       else
         console_error
           (Log ("[DEBUG] Cache hit: " +:+ key +:+ " (age: " +:+ JS.show_number age
                 +:+ "ms, ttl: " +:+ JS.show entry_ttl +:+ "ms)")) ;;
         read_property entry "data")
    (fun error =>
       console_error (LogError ("[ERROR] Failed to read cache for key " +:+ key) error) ;;
       ret null).

Definition updateMetadata {E} (this : t) : M E unit :=
  try_catch
    (files <- readdirSync ;;
     let cacheFiles := List.filter is_entry_file files in
     now <- Date_now ;;
     let metadata :=
       {| CacheMetadata.totalEntries := num (Z.of_nat (length cacheFiles));
          CacheMetadata.lastCleanup := now |} in
     writeFileSync (metadataPath this) (JSON.stringify2 (CacheMetadata.object metadata)))
    (fun error => console_error (LogError "[ERROR] Failed to update metadata" error)).

Definition set {E} (this : t) (key : string) (data : json)
  (ttl : option number) : M E unit :=
  try_catch
    (now <- Date_now ;;
     let entry :=
       {| CacheEntry.data := data;
          CacheEntry.timestamp := now;
          CacheEntry.ttl := ttl_or_default this ttl |} in
     let filePath := getCacheFilePath this key in
     writeFileSync filePath (JSON.stringify2 (CacheEntry.object entry)) ;;
     console_error
       (Log ("[DEBUG] Cache set: " +:+ key +:+ " (ttl: "
             +:+ Number.to_string (CacheEntry.ttl entry) +:+ "ms)")) ;;
     updateMetadata this)
    (fun error =>
       console_error (LogError ("[ERROR] Failed to write cache for key " +:+ key) error)).

(** The body of the loop of [clear], on the running [deletedCount].
    [path.join(this.cacheDir, file)] is the file of that name in the
    directory. *)
Definition clear_file {E} (deletedCount : Z) (file : string) : M E Z :=
  if is_entry_file file then
    let filePath := Inside file in
    unlinkSync filePath ;;
    ret (deletedCount + 1)
  else ret deletedCount.

Definition clear {E} (this : t) : M E unit :=
  try_catch
    (files <- readdirSync ;;
     deletedCount <- for_of files 0 clear_file ;;
     console_error
       (Log ("[INFO] Cache cleared: " +:+ dec deletedCount +:+ " entries deleted")) ;;
     updateMetadata this)
    (fun error => console_error (LogError "[ERROR] Failed to clear cache" error)).

(** The body of the loop of [cleanup], on the running [deletedCount]. *)
Definition cleanup_file {E} (now : number) (deletedCount : Z) (file : string) : M E Z :=
  if is_entry_file file then
    let filePath := Inside file in
    try_catch
      (fileContent <- readFileSync filePath ;;
       entry <- JSON_parse fileContent ;;
       entry_timestamp <- read_property entry "timestamp" ;;
       let age := JS.sub now (JS.to_number entry_timestamp) in
       entry_ttl <- read_property entry "ttl" ;;
       if JS.gt age (JS.to_number entry_ttl) then
         unlinkSync filePath ;;
         ret (deletedCount + 1)
       else ret deletedCount)
      (fun error =>
         console_error
           (Log ("[WARN] Invalid cache file: " +:+ file +:+ ", deleting...")) ;;
         unlinkSync filePath ;;
         ret (deletedCount + 1))
  else ret deletedCount.

Definition cleanup {E} (this : t) : M E unit :=
  try_catch
    (files <- readdirSync ;;
     now <- Date_now ;;
     deletedCount <- for_of files 0 (cleanup_file now) ;;
     if 0 <? deletedCount then
       console_error
         (Log ("[INFO] Cache cleanup: " +:+ dec deletedCount +:+ " expired entries deleted")) ;;
       updateMetadata this
     else ret tt)
    (fun error => console_error (LogError "[ERROR] Failed to cleanup cache" error)).

Definition getStats {E} (this : t) : M E Stats.t :=
  try_catch
    (files <- readdirSync ;;
     let cacheFiles := List.filter is_entry_file files in
     ret {| Stats.totalEntries := Z.of_nat (length cacheFiles);
            Stats.cacheDir := cacheDir this;
            Stats.defaultTTL := defaultTTL this |})
    (fun error =>
       console_error (LogError "[ERROR] Failed to get cache stats" error) ;;
       ret {| Stats.totalEntries := 0;
              Stats.cacheDir := cacheDir this;
              Stats.defaultTTL := defaultTTL this |}).

Definition getOrSet {E} (this : t) (key : string)
  (operation : producer E) (ttl : option number) : M E value :=
  cached <- get this key ;;
  if negb (JS.is_null cached) then ret cached
  else
    console_error (Log ("[DEBUG] Executing operation for cache key: " +:+ key)) ;;
    result <- await operation ;;
    set this key result ttl ;;
    ret (J result).

End CacheManager.

(** ** The cache tools of the server ([registerCacheTools] in [server.ts]) *)

Module Server.

(** The text of the only content item of a tool result: a fixed or computed
    text, or a prefix followed by the message of the error caught. *)
Inductive tool_text : Type :=
| Text (text : string)
| ErrorText (prefix : string) (error : exn).

(** What a tool returns; a result without [isError] is a success. *)
Record tool_result : Type := {
  content : tool_text;
  isError : bool
}.

(** The object [getStats] returns, as [JSON.stringify] sees it *)
Definition stats_object (stats : Stats.t) : json :=
  JObj (object_of [("totalEntries", JNum (num (Stats.totalEntries stats)));
                   ("cacheDir", JStr (Stats.cacheDir stats));
                   ("defaultTTL", JNum (Stats.defaultTTL stats))]).

Definition getCacheStats {E} (cacheManager : CacheManager.t) : M E tool_result :=
  try_catch
    (stats <- CacheManager.getStats cacheManager ;;
     ret {| content := Text (JSON.stringify2 (stats_object stats)); isError := false |})
    (fun error =>
       ret {| content := ErrorText "Error getting cache stats: " error; isError := true |}).

Definition clearCache {E} (cacheManager : CacheManager.t) : M E tool_result :=
  try_catch
    (CacheManager.clear cacheManager ;;
     ret {| content := Text "Cache cleared successfully"; isError := false |})
    (fun error =>
       ret {| content := ErrorText "Error clearing cache: " error; isError := true |}).

Definition cleanupCache {E} (cacheManager : CacheManager.t) : M E tool_result :=
  try_catch
    (CacheManager.cleanup cacheManager ;;
     ret {| content := Text "Cache cleanup completed"; isError := false |})
    (fun error =>
       ret {| content := ErrorText "Error cleaning up cache: " error; isError := true |}).

End Server.

(** ** Notions used in the statements *)

(** What the cache makes of the file of a key at time [now]: no file; a file
    it cannot read as an entry (not JSON, or the JSON value [null]); an
    entry whose TTL has lapsed; a live entry and its [data]. *)
Inductive entry_state : Type :=
| Absent
| Unreadable (e : exn)
| Expired
| Live (data : value).

Definition entry_state_at (now : number) (file : option string) : entry_state :=
  match file with
  | None => Absent
  | Some content =>
      match JSON.parse content with
      | None => Unreadable SyntaxError
      | Some entry =>
          match JS.get_property entry "timestamp", JS.get_property entry "ttl",
                JS.get_property entry "data" with
          | Some entry_timestamp, Some entry_ttl, Some entry_data =>
              if JS.gt (JS.sub now (JS.to_number entry_timestamp))
                       (JS.to_number entry_ttl)
              then Expired else Live entry_data
          | _, _, _ => Unreadable TypeError
          end
      end
  end.

(** The text [updateMetadata] writes for a directory. *)
Definition metadata_text (d : gmap string string) (now : number) : string :=
  JSON.stringify2
    (CacheMetadata.object
       {| CacheMetadata.totalEntries :=
            num (Z.of_nat (length (List.filter CacheManager.is_entry_file
                                     (elements (dom d)))));
          CacheMetadata.lastCleanup := now |}).

(** The text [set] writes for an entry. *)
Definition entry_text (data : json) (now ttl : number) : string :=
  JSON.stringify2
    (CacheEntry.object
       {| CacheEntry.data := data; CacheEntry.timestamp := now; CacheEntry.ttl := ttl |}).

(** The cache directory exists and accepts modifications. *)
Definition operational {E} (w : world E) : Prop :=
  is_Some (disk w) ∧ read_only w = false.

(** A key that names an entry file of the directory: its path leads to a
    file directly in the cache directory, whose name is legal and is not the
    name of the metadata file. *)
Definition cache_key (this : CacheManager.t) (key : string) : Prop :=
  ∃ name, CacheManager.getCacheFilePath this key = Inside name ∧
          legal_name name = true ∧ CacheManager.is_entry_file name = true.

(** The time values of ECMAScript, which [Date.now()] returns: at most
    8.64e15 milliseconds from the epoch, and so exact as Numbers. *)
Definition time_value (t : Z) : Prop :=
  - 8640000000000000 <= t <= 8640000000000000.

(** [w'] is [w] with more lines on the console. *)
Definition logged {E} (w w' : world E) : Prop :=
  ∃ lines,
    w' = World (disk w) (outside w) (read_only w) (clock w) (console w ++ lines)
               (ext w) (invoked w).

(** The world without the file at a location. *)
Definition without_file {E} (l : location) (w : world E) : world E :=
  match l with
  | Inside name => with_disk (delete name <$> disk w) w
  | Outside path => with_outside (<[path := Vacant]> (outside w)) w
  end.

(** The world after [updateMetadata]: the metadata file is rewritten when
    the directory exists and accepts it. *)
Definition with_metadata {E} (w : world E) : world E :=
  match disk w with
  | Some d =>
      if read_only w then w
      else with_disk (Some (<[".metadata.json" := metadata_text d (num (clock w))]> d)) w
  | None => w
  end.

(** The world in which [getOrSet] calls [set], after a miss and a producer
    that resolved: the console has one more line, the producer has run. *)
Definition after_await {E} (w1 : world E) (key : string) (e : E) (ms : N) : world E :=
  World (disk w1) (outside w1) (read_only w1) (clock w1 + Z.of_N ms)
        (console w1 ++ [Log ("[DEBUG] Executing operation for cache key: " +:+ key)])
        e (S (invoked w1)).

(** The world after an expired entry has been purged by [get]: the file of
    the key is removed when its entry has expired and the file system accepts
    the removal. *)
Definition purged {E} (this : CacheManager.t) (key : string) (w : world E) : world E :=
  let file := CacheManager.getCacheFilePath this key in
  match entry_state_at (num (clock w)) (file_at w file) with
  | Expired => if read_only w then w else without_file file w
  | _ => w
  end.

(** [cleanup] removes an entry it cannot read and an entry that expired. *)
Definition stale (s : entry_state) : bool :=
  match s with
  | Unreadable _ | Expired => true
  | Absent | Live _ => false
  end.

(** The files of [d] that a [cleanup] at time [now] removes. *)
Definition swept (now : number) (d : gmap string string) (file : string) : bool :=
  CacheManager.is_entry_file file && stale (entry_state_at now (d !! file)).

(** The directory without the files [fs]. *)
Definition without (fs : list string) (d : gmap string string) : gmap string string :=
  foldr delete d fs.

(** [readdirSync] on the directory [d]. *)
Definition names (d : gmap string string) : list string := elements (dom d).

(** The number of entry files of a directory, which is what [getStats] and
    [updateMetadata] count. *)
Definition entry_count (d : gmap string string) : Z :=
  Z.of_nat (length (List.filter CacheManager.is_entry_file (names d))).

(** A segment without a separator. *)
Fixpoint no_separator (s : string) : bool :=
  match s with
  | String c r => negb (code c =? 47) && no_separator r
  | "" => true
  end.

(** A segment of a normalized path: not empty, not [.], without a
    separator. *)
Definition proper_segment (seg : string) : Prop :=
  seg ≠ "" ∧ seg ≠ "." ∧ no_separator seg = true.

(** The segments of a normalized path: proper segments, where [..] occurs
    only at the front of a relative path. *)
Definition normal (absolute : bool) (l : list string) : Prop :=
  Forall proper_segment l ∧
  ∃ n rest, l = (repeat ".." n ++ rest)%list ∧ (".." ∉ rest) ∧ (absolute = true → n = O).

(** The same file system. *)
Definition same_files {E} (w w' : world E) : Prop :=
  disk w' = disk w ∧ outside w' = outside w ∧ read_only w' = read_only w.

(** ** Notions used in the proof of the JSON round trip *)

(** A text made of the characters of number literals. *)
Fixpoint all_literal (s : string) : bool :=
  match s with
  | String c r => JSON.literal_char c && all_literal r
  | "" => true
  end.

(** What may follow a number in a JSON text without being read as part of
    it. *)
Definition ends_number (rest : string) : Prop :=
  match rest with
  | "" => True
  | String c _ => JSON.literal_char c = false
  end.

(** Structural induction on JSON values, through arrays and objects. *)
Section JsonInduction.
Variable P : json → Prop.
Hypothesis Hnull : P JNull.
Hypothesis Hbool : ∀ b, P (JBool b).
Hypothesis Hnum : ∀ n, P (JNum n).
Hypothesis Hstr : ∀ s, P (JStr s).
Hypothesis Harr : ∀ items, Forall P items → P (JArr items).
Hypothesis Hobj : ∀ ms, Forall (fun m => P (snd m)) ms → P (JObj ms).

Fixpoint json_induction (v : json) : P v :=
  match v with
  | JNull => Hnull
  | JBool b => Hbool b
  | JNum n => Hnum n
  | JStr s => Hstr s
  | JArr items =>
      Harr items
        ((fix all (l : list json) : Forall P l :=
            match l with
            | [] => @List.Forall_nil _ P
            | x :: l' => @List.Forall_cons _ P x l' (json_induction x) (all l')
            end) items)
  | JObj ms =>
      Hobj ms
        ((fix all (l : list (string * json)) : Forall (fun m => P (snd m)) l :=
            match l with
            | [] => List.Forall_nil _
            | (k, x) :: l' =>
                @List.Forall_cons _ (fun m => P (snd m)) (k, x) l' (json_induction x) (all l')
            end) ms)
  end.
End JsonInduction.

(** The tokens of a JSON value. *)
Fixpoint separated (parts : list (list JSON.token)) : list JSON.token :=
  match parts with
  | [] => []
  | [p] => p
  | p :: ps => p ++ JSON.TComma :: separated ps
  end.

Fixpoint tokens (v : json) : list JSON.token :=
  match v with
  | JNull => [JSON.TNull]
  | JBool true => [JSON.TTrue]
  | JBool false => [JSON.TFalse]
  | JNum n => [JSON.TNum n]
  | JStr s => [JSON.TStr s]
  | JArr items => JSON.TLBrack :: separated (List.map tokens items) ++ [JSON.TRBrack]
  | JObj ms =>
      JSON.TLBrace ::
      separated
        (List.map
           (fun m : string * json =>
              let (k, x) := m in JSON.TStr k :: JSON.TColon :: tokens x) ms)
      ++ [JSON.TRBrace]
  end.

Fixpoint all_ws (s : string) : bool :=
  match s with
  | String c r => JSON.is_ws c && all_ws r
  | "" => true
  end.

(** [text] reads as the tokens [ts], whatever follows it ([lexes_any]) or
    when what follows cannot continue a number ([lexes]). *)
Definition lexes_any (text : string) (ts : list JSON.token) : Prop :=
  ∀ rest, JSON.lex 0 (text +:+ rest) = app ts <$> JSON.lex 0 rest.

Definition lexes (text : string) (ts : list JSON.token) : Prop :=
  ∀ rest, ends_number rest → JSON.lex 0 (text +:+ rest) = app ts <$> JSON.lex 0 rest.

Definition safe_head (text : string) : Prop :=
  match text with
  | String c _ => JSON.literal_char c = false
  | "" => False
  end.

(** Fuel that [parse_value] needs on the tokens of a value. *)
Fixpoint size (v : json) : nat :=
  match v with
  | JArr items => S (fold_right (fun x n => S (size x) + n)%nat O items)
  | JObj ms => S (fold_right (fun (m : string * json) n => S (size (snd m)) + n)%nat O ms)
  | _ => 1%nat
  end.

Definition parses (v : json) : Prop :=
  ∀ fuel rest, (size v <= fuel)%nat →
    JSON.parse_value fuel (tokens v ++ rest) = Some (v, rest).

(** ** Sample data and the test script of the repository *)

Definition sample_cache : CacheManager.t :=
  {| CacheManager.cacheDir := "/home/user/.cache/ccxt-mcp";
     CacheManager.defaultTTL := num 300000 |}.

Definition sample_key : string := "tool_fetchTicker_9f2c".

(** The Number 64250.5, that is 128501 / 2. *)
Definition last_price : number := Number.Finite false 128501 (-1).

Definition sample_ticker : json :=
  JObj [("symbol", JStr "BTC/USDT"); ("last", JNum last_price);
        ("bids", JArr [JNum (num 1); JNull])].

(** A freshly constructed cache: an empty directory. *)
Definition fresh_world : world unit :=
  World (Some ∅) ∅ false 1700000000000 [] tt 0%nat.

(** The key of a resource, whose URI holds path separators. *)
Definition resource_key : string :=
  CacheManager.generateCacheKey "resource" "ccxt://binance/markets" None.

(** A directory holding one entry written at time 1700000000000 with a TTL
    of 50 ms, read 100 ms later. *)
Definition short_lived_dir : gmap string string :=
  {[ "tool_fetchTicker_9f2c.json" :=
       entry_text sample_ticker (num 1700000000000) (num 50) ]}.

Definition later_world : world unit :=
  World (Some short_lived_dir) ∅ false 1700000000100 [] tt 0%nat.

(** A directory whose entry file was truncated. *)
Definition corrupt_world : world unit :=
  World (Some {[ "tool_fetchTicker_9f2c.json" := "{ [truncated" ]}) ∅ false
        1700000000000 [] tt 0%nat.

Definition read_only_world : world unit :=
  World (Some ∅) ∅ true 1700000000000 [] tt 0%nat.

(** A collaborator that counts its calls; its producers resolve with [null]
    or with the number of the call. *)
Definition null_producer : producer nat := fun calls => (Return JNull, S calls, 0%N).
Definition counting_producer : producer nat :=
  fun calls => (Return (JNum (num (Z.of_nat calls))), S calls, 3%N).
Definition failing_producer : producer nat :=
  fun calls => (Throw (Error "exchange unavailable"), S calls, 7%N).

Definition counted_world : world nat :=
  World (Some ∅) ∅ false 1700000000000 [] 0%nat 0%nat.

(** A directory holding a live entry whose data is [null]. *)
Definition null_entry_world : world nat :=
  World (Some {[ "tool_fetchTicker_9f2c.json" :=
                   entry_text JNull (num 1700000000000) (num 5000) ]})
        ∅ false 1700000000001 [] 0%nat 0%nat.

(** A directory holding an entry that expired long ago. *)
Definition stale_world : world nat :=
  World (Some {[ "tool_fetchTicker_9f2c.json" :=
                   entry_text (JNum (num 7)) (num 1600000000000) (num 5000) ]})
        ∅ false 1700000000000 [] 0%nat 0%nat.

(** A directory holding a live entry whose data is 64250.5. *)
Definition live_entry_world : world nat :=
  World (Some {[ "tool_fetchTicker_9f2c.json" :=
                   entry_text (JNum last_price) (num 1700000000000) (num 5000) ]})
        ∅ false 1700000000001 [] 0%nat 0%nat.

(** Three entries whose TTL has lapsed and two live entries, as seen at time
    1700000010000, beside the metadata file. *)
Definition sweep_dir : gmap string string :=
  <["tool_fetchTicker_01.json" := entry_text (JNum (num 1)) (num 1700000000000) (num 5000)]>
  (<["tool_fetchTicker_02.json" := entry_text (JNum (num 2)) (num 1700000000000) (num 5000)]>
  (<["tool_fetchOHLCV_03.json" := entry_text (JNum (num 3)) (num 1700000001000) (num 30)]>
  (<["tool_fetchMarkets_04.json" := entry_text (JNum (num 4)) (num 1700000000000) (num 604800000)]>
  (<["tool_fetchTicker_05.json" := entry_text (JNum (num 5)) (num 1700000009000) (num 5000)]>
  (<[".metadata.json" := metadata_text ∅ (num 1700000009000)]> ∅))))).

Definition sweep_world : world unit :=
  World (Some sweep_dir) ∅ false 1700000010000 [] tt 0%nat.


Definition stats_of (n : Z) : Stats.t :=
  {| Stats.totalEntries := n;
     Stats.cacheDir := CacheManager.cacheDir sample_cache;
     Stats.defaultTTL := CacheManager.defaultTTL sample_cache |}.

(** The parameters of a [fetchTicker] call, filled in two orders. *)
Definition ticker_params : list (string * json) :=
  object_of [("exchangeId", JStr "binance"); ("symbol", JStr "BTC/USDT")].

Definition ticker_params_swapped : list (string * json) :=
  object_of [("symbol", JStr "BTC/USDT"); ("exchangeId", JStr "binance")].

(** Parameters whose keys are array indices, filled in two orders. *)
Definition indexed_params : list (string * json) :=
  object_of [("2", JStr "b"); ("1", JStr "a")].

Definition indexed_params_swapped : list (string * json) :=
  object_of [("1", JStr "a"); ("2", JStr "b")].






(** * Properties *)

(** ** [JSON.parse] reads back what [JSON.stringify] writes *)

Section JsonRoundTrip.

#[local] Arguments String.append : simpl nomatch.

(** *** Strings *)

Lemma append_assoc (a b c : string) : (a +:+ b) +:+ c = a +:+ (b +:+ c).
Proof. induction a as [|x a IH]; simpl; [reflexivity | now rewrite IH]. Qed.

Lemma append_nil_r (a : string) : a +:+ "" = a.
Proof. induction a as [|x a IH]; simpl; [reflexivity | now rewrite IH]. Qed.

Lemma length_append (a b : string) :
  String.length (a +:+ b) = (String.length a + String.length b)%nat.
Proof. induction a as [|x a IH]; simpl; [reflexivity | now rewrite IH]. Qed.

Lemma drop_append (a b : string) : drop (String.length a) (a +:+ b) = b.
Proof. induction a as [|x a IH]; simpl; [now destruct b | exact IH]. Qed.

(** *** Numbers: the integers that are doubles *)

Lemma odd_part_shift (j : nat) (p : positive) :
  ∃ p', Zpos p' = Zpos p * 2 ^ Z.of_nat j ∧
        Number.odd_part p'
        = (fst (Number.odd_part p), snd (Number.odd_part p) + Z.of_nat j).
Proof.
  induction j as [|j (p' & Hp' & Hodd)].
  - exists p. split; [cbn; lia |]. destruct (Number.odd_part p). cbn. f_equal. lia.
  - exists (p'~0)%positive. split.
    + rewrite Nat2Z.inj_succ, Z.pow_succ_r by lia. lia.
    + cbn [Number.odd_part]. rewrite Hodd. cbn [fst snd]. f_equal. lia.
Qed.

Lemma odd_part_spec (p : positive) :
  Zpos p = Zpos (fst (Number.odd_part p)) * 2 ^ snd (Number.odd_part p) ∧
  0 <= snd (Number.odd_part p).
Proof.
  induction p as [p IH | p IH |]; cbn [Number.odd_part]; try (cbn; lia).
  destruct (Number.odd_part p) as [m i]. cbn [fst snd] in *.
  destruct IH as [IH Hi]. split; [| lia].
  rewrite Z.pow_add_r, Z.pow_1_r by lia. lia.
Qed.

(** An integer below [2^53] in magnitude is a double: rounding keeps it. *)
Lemma round_ratio_small (negative : bool) (p : positive) :
  Zpos p < 2 ^ 53 →
  Number.round_ratio negative (Zpos p) 1
  = Number.Finite negative (fst (Number.odd_part p)) (snd (Number.odd_part p)).
Proof.
  intros Hp. unfold Number.round_ratio.
  change (Z.log2 1) with 0. rewrite Z.sub_0_r.
  set (E := Z.log2 (Zpos p)).
  assert (HE : 0 <= E <= 52).
  { split; [apply Z.log2_nonneg |]. apply Z.lt_succ_r, Z.log2_lt_pow2; lia. }
  assert (Hlow : 2 ^ E <= Zpos p) by (apply Z.log2_spec; lia).
  destruct (Z.leb_spec 0 E); [| lia].
  rewrite Z.mul_1_l. destruct (Z.leb_spec (2 ^ E) (Zpos p)); [| lia].
  rewrite Z.max_l by lia.
  destruct (odd_part_shift (Z.to_nat (52 - E)) p) as (p' & Hp' & Hodd).
  rewrite Z2Nat.id in Hp', Hodd by lia.
  assert (Hlog : Z.log2 (Zpos p') = 52).
  { rewrite Hp', Z.log2_mul_pow2 by lia. unfold E. lia. }
  destruct (Z.ltb_spec (E - 52) 0).
  - replace (- (E - 52)) with (52 - E) by lia. rewrite <- Hp'.
    rewrite Z.div_1_r, Z.mod_1_r, Z.mul_0_r.
    change (1 <? 0) with false. change (1 =? 0) with false. cbn [orb andb].
    rewrite Hlog. destruct (Z.leb_spec 1024 (52 + (E - 52))); [lia |].
    rewrite Hodd. cbn [fst snd]. f_equal; lia.
  - assert (E = 52) as HE52 by lia. rewrite HE52 in *.
    change (1 * 2 ^ (52 - 52)) with 1. change (2 ^ (52 - 52)) with 1 in Hp'.
    rewrite Z.mul_1_r in Hp'. injection Hp' as ->.
    rewrite Z.div_1_r, Z.mod_1_r, Z.mul_0_r.
    change (1 <? 0) with false. change (1 =? 0) with false. cbn [orb andb].
    rewrite Hlog. change (1024 <=? 52 + (52 - 52)) with false. cbv iota.
    rewrite Hodd. cbn [fst snd]. f_equal; lia.
Qed.

Lemma num_pos (p : positive) :
  Zpos p < 2 ^ 53 →
  num (Zpos p) = Number.Finite false (fst (Number.odd_part p)) (snd (Number.odd_part p)).
Proof. apply round_ratio_small. Qed.

Lemma num_neg (p : positive) :
  Zpos p < 2 ^ 53 →
  num (Zneg p) = Number.Finite true (fst (Number.odd_part p)) (snd (Number.odd_part p)).
Proof. apply round_ratio_small. Qed.

(** The Number of a safe integer is that integer, exactly. *)
Lemma exact_num (z : Z) :
  - 2 ^ 53 < z < 2 ^ 53 →
  ∃ n e, Number.exact (num z) = Some (n, e) ∧ 0 <= e ∧ n * 2 ^ e = z ∧
         (z = 0 → num z = Number.Zero false) ∧
         (z ≠ 0 → ∃ negative m, num z = Number.Finite negative m e).
Proof.
  intros Hz. destruct z as [|p|p].
  - exists 0, 0. repeat split; try reflexivity; try lia; congruence.
  - rewrite num_pos by lia. destruct (odd_part_spec p) as [Hp Hi].
    do 2 eexists. split; [reflexivity |]. repeat split; eauto; lia.
  - rewrite num_neg by lia. destruct (odd_part_spec p) as [Hp Hi].
    do 2 eexists. split; [reflexivity |]. repeat split; eauto; lia.
Qed.

(** On safe integers the subtraction of Numbers is the subtraction of
    integers, rounded: no bound on the difference is needed. *)
Lemma sub_num (a b : Z) :
  - 2 ^ 53 < a < 2 ^ 53 → - 2 ^ 53 < b < 2 ^ 53 →
  Number.sub (num a) (num b) = num (a - b).
Proof.
  intros Ha Hb.
  destruct (exact_num a Ha) as (n1 & e1 & Hx & He1 & Hn1 & Ha0 & Ha1).
  destruct (exact_num b Hb) as (n2 & e2 & Hy & He2 & Hn2 & Hb0 & Hb1).
  assert (Hgen :
    (if n1 * 2 ^ (e1 - Z.min e1 e2) - n2 * 2 ^ (e2 - Z.min e1 e2) =? 0
     then Number.Zero false
     else Number.of_dyadic (n1 * 2 ^ (e1 - Z.min e1 e2) - n2 * 2 ^ (e2 - Z.min e1 e2))
            (Z.min e1 e2)) = num (a - b)).
  { set (e := Z.min e1 e2).
    assert (He : 0 <= e <= e1 ∧ e <= e2) by (unfold e; lia).
    assert (Hd : (n1 * 2 ^ (e1 - e) - n2 * 2 ^ (e2 - e)) * 2 ^ e = a - b).
    { rewrite Z.mul_sub_distr_r, <- !Z.mul_assoc, <- !Z.pow_add_r by lia.
      replace (e1 - e + e) with e1 by lia. replace (e2 - e + e) with e2 by lia. lia. }
    destruct (Z.eqb_spec (n1 * 2 ^ (e1 - e) - n2 * 2 ^ (e2 - e)) 0) as [H0 | H0].
    - rewrite H0 in Hd. rewrite <- Hd. reflexivity.
    - unfold Number.of_dyadic. destruct (Z.leb_spec 0 e); [| lia]. now rewrite Hd. }
  destruct (Z.eq_dec a 0) as [-> | Hane], (Z.eq_dec b 0) as [-> | Hbne].
  - reflexivity.
  - destruct (Hb1 Hbne) as (s2 & m2 & Hnb). rewrite Hnb in *.
    rewrite (Ha0 eq_refl) in *. cbn [Number.sub]. rewrite Hx, Hy. exact Hgen.
  - destruct (Ha1 Hane) as (s1 & m1 & Hna). rewrite Hna in *.
    rewrite (Hb0 eq_refl) in *. cbn [Number.sub]. rewrite Hx, Hy. exact Hgen.
  - destruct (Ha1 Hane) as (s1 & m1 & Hna). rewrite Hna in *.
    destruct (Hb1 Hbne) as (s2 & m2 & Hnb). rewrite Hnb in *.
    cbn [Number.sub]. rewrite Hx, Hy. exact Hgen.
Qed.

(** *** Decimal numerals *)

Lemma digits_uint (d : Decimal.uint) :
  digits (NilEmpty.string_of_uint d) = NilEmpty.string_of_uint d.
Proof. induction d; simpl; try (now rewrite IHd); reflexivity. Qed.

Lemma drop_all (s : string) : drop (String.length s) s = "".
Proof. induction s as [|c s IH]; [reflexivity | exact IH]. Qed.

Lemma to_uint_normal (n : N) : Decimal.unorm (N.to_uint n) = N.to_uint n.
Proof.
  rewrite <- DecimalN.Unsigned.to_of. now rewrite DecimalN.Unsigned.of_to.
Qed.

Lemma nzhead_no_zero (d d' : Decimal.uint) : Decimal.nzhead d ≠ Decimal.D0 d'.
Proof. induction d; simpl; congruence. Qed.

Lemma unorm_head (d : Decimal.uint) :
  Decimal.unorm d = Decimal.D0 Decimal.Nil ∨
  ∃ c r, NilEmpty.string_of_uint (Decimal.unorm d) = String c r ∧
         is_digit c = true ∧ (code c =? 48) = false.
Proof.
  unfold Decimal.unorm. pose proof (nzhead_no_zero d) as Hz.
  destruct (Decimal.nzhead d) as [|u|u|u|u|u|u|u|u|u|u];
    try (now left); try (now destruct (Hz u));
    right; cbn [NilEmpty.string_of_uint]; do 2 eexists; repeat split.
Qed.

Lemma decN_head (n : N) :
  decN n = "0" ∨
  ∃ c r, decN n = String c r ∧ is_digit c = true ∧ (code c =? 48) = false.
Proof.
  unfold decN.
  destruct (unorm_head (N.to_uint n)) as [H0 | H]; rewrite to_uint_normal in *.
  - left. now rewrite H0.
  - now right.
Qed.

Lemma digits_value_decN (n : N) : digits_value (decN n) = Z.of_N n.
Proof.
  unfold digits_value, decN. rewrite NilEmpty.usu.
  now rewrite DecimalN.Unsigned.of_to.
Qed.

Lemma is_digit_code (c : ascii) : is_digit c = true → 48 <= code c <= 57.
Proof. unfold is_digit. lia. Qed.

(** The digits of a natural number are a literal, for that number. *)
Lemma of_literal_decN (negative : bool) (n : N) :
  Number.of_literal (Number.signed negative (decN n))
  = Some (Number.of_decimal negative (Z.of_N n) 0).
Proof.
  assert (Hbody : ∀ text, text = decN n →
    (let int := digits text in
     let s2 := drop (String.length int) text in
     let leading_zero :=
       match int with
       | String c (String _ _) => code c =? 48
       | _ => false
       end in
     (String.length int =? 0)%nat || leading_zero) = false ∧
    digits text = text).
  { intros text ->. unfold decN at 1 2 3. rewrite digits_uint. fold (decN n).
    split; [| reflexivity]. cbv zeta.
    destruct (decN_head n) as [-> | (c & r & -> & Hd & Hc)]; [reflexivity |].
    cbn [String.length Nat.eqb orb]. destruct r; [reflexivity | exact Hc]. }
  destruct (Hbody (decN n) eq_refl) as [Hlead Hdigits]. cbv zeta in Hlead.
  assert (Hsign : ∀ c r, decN n = String c r → (code c =? 45) = false).
  { intros c r Hs. destruct (decN_head n) as [H0 | (c' & r' & Hs' & Hd & _)].
    - rewrite H0 in Hs. injection Hs as <- <-. reflexivity.
    - rewrite Hs' in Hs. injection Hs as <- <-. apply is_digit_code in Hd. lia. }
  unfold Number.of_literal.
  assert (Hstart :
    match Number.signed negative (decN n) with
    | String c r => if code c =? 45 then (true, r) else (false, Number.signed negative (decN n))
    | "" => (false, Number.signed negative (decN n))
    end = (negative, decN n)).
  { destruct negative; [reflexivity |]. cbn [Number.signed].
    destruct (decN n) as [|c r] eqn:Hs; [reflexivity |]. now rewrite (Hsign c r eq_refl). }
  rewrite Hdigits in Hlead. rewrite Hstart. rewrite Hdigits, drop_all, Hlead.
  cbn. rewrite append_nil_r, digits_value_decN. reflexivity.
Qed.

(** *** A Number reads back from its text *)

Lemma with_digits_sound (x : number) (negative : bool) (a b n k : Z) (text : string) :
  Number.with_digits x negative a b n k = Some text → Number.of_literal text = Some x.
Proof.
  unfold Number.with_digits. cbv zeta. intros H.
  repeat case_bool_decide; congruence.
Qed.

Lemma shortest_sound (x : number) (negative : bool) (a b n : Z) (ks : list Z)
    (text : string) :
  Number.shortest x negative a b n ks = Some text → Number.of_literal text = Some x.
Proof.
  induction ks as [|k ks IH]; cbn [Number.shortest]; [discriminate |].
  destruct (Number.with_digits x negative a b n k) eqn:Hk; [| exact IH].
  intros [= <-]. exact (with_digits_sound _ _ _ _ _ _ _ Hk).
Qed.

Lemma of_decimal_integer (negative : bool) (p : positive) :
  Number.of_decimal negative (Zpos p) 0 = Number.round_ratio negative (Zpos p) 1.
Proof.
  unfold Number.of_decimal.
  change (Zpos p <=? 0) with false. change (309 <? 0) with false. cbv iota.
  assert (0 <= Z.log2 (Zpos p) / 3) by (apply Z.div_pos; [apply Z.log2_nonneg | lia]).
  destruct (Z.ltb_spec (0 + Z.log2 (Zpos p) / 3 + 1) (-324)); [lia |].
  change (0 <=? 0) with true. cbv iota. now rewrite Z.pow_0_r, Z.mul_1_r.
Qed.

(** The Number of a safe integer is one that JSON can hold. *)
Lemma serializable_num (z : Z) : - 2 ^ 53 < z < 2 ^ 53 → Number.serializable (num z).
Proof.
  intros Hz. unfold Number.serializable.
  assert (Hcase : ∀ negative p, Zpos p < 2 ^ 53 →
    let x := Number.Finite negative (fst (Number.odd_part p)) (snd (Number.odd_part p)) in
    Number.of_literal (Number.to_string x) = Some x).
  { intros negative p Hp x. destruct (odd_part_spec p) as [Hval He].
    unfold x at 1. cbn [Number.to_string].
    match goal with
    | |- context [Number.shortest ?x ?s ?a ?b ?n ?ks] =>
        destruct (Number.shortest x s a b n ks) as [text|] eqn:Hs
    end.
    - exact (shortest_sound _ _ _ _ _ _ _ Hs).
    - unfold Number.exact_text. destruct (Z.leb_spec 0 (snd (Number.odd_part p))); [| lia].
      rewrite <- Hval. change (Z.to_N (Zpos p)) with (Npos p).
      rewrite of_literal_decN. change (Z.of_N (Npos p)) with (Zpos p).
      rewrite of_decimal_integer, round_ratio_small by exact Hp. reflexivity. }
  destruct z as [|p|p].
  - reflexivity.
  - rewrite num_pos by lia. apply Hcase. lia.
  - rewrite num_neg by lia. apply Hcase. lia.
Qed.

(** *** The characters of the text of a Number *)

Lemma all_literal_app (a b : string) :
  all_literal (a +:+ b) = all_literal a && all_literal b.
Proof.
  induction a as [|c a IH]; [reflexivity |].
  change (String c a +:+ b) with (String c (a +:+ b)). cbn [all_literal].
  now rewrite IH, andb_assoc.
Qed.

Lemma all_literal_uint (d : Decimal.uint) : all_literal (NilEmpty.string_of_uint d) = true.
Proof. induction d; cbn [NilEmpty.string_of_uint all_literal]; try rewrite IHd; reflexivity. Qed.

Lemma all_literal_decN (n : N) : all_literal (decN n) = true.
Proof. apply all_literal_uint. Qed.

Lemma all_literal_zeros (n : nat) : all_literal (zeros n) = true.
Proof. induction n as [|n IH]; [reflexivity | exact IH]. Qed.

Lemma all_literal_take (n : nat) (s : string) :
  all_literal s = true → all_literal (take n s) = true.
Proof.
  revert s. induction n as [|n IH]; intros [|c s]; try reflexivity.
  cbn [take all_literal]. intros [Hc Hs]%andb_true_iff. now rewrite Hc, IH.
Qed.

Lemma all_literal_drop (n : nat) (s : string) :
  all_literal s = true → all_literal (drop n s) = true.
Proof.
  revert s. induction n as [|n IH]; intros [|c s]; try (intros; assumption).
  cbn [drop all_literal]. intros [_ Hs]%andb_true_iff. now apply IH.
Qed.

Lemma all_literal_exponent (d : ascii) (more exponent : string) :
  all_literal (String d more) = true → all_literal exponent = true →
  all_literal match more with
              | "" => String d exponent
              | _ => String d ("." +:+ more +:+ exponent)
              end = true.
Proof.
  intros Hd He. destruct more as [|d' more].
  - cbn [all_literal] in Hd |- *. apply andb_true_iff in Hd as [-> _]. exact He.
  - change (all_literal (String d (String "." (String d' more +:+ exponent))) = true).
    cbn [all_literal] in Hd. apply andb_true_iff in Hd as [Hd Hmore].
    cbn [all_literal]. rewrite Hd. cbn [andb JSON.literal_char].
    change (all_literal (String d' more +:+ exponent) = true).
    rewrite all_literal_app, He, andb_true_r. exact Hmore.
Qed.

Lemma all_literal_format (ds : string) (n : Z) :
  all_literal ds = true → all_literal (Number.format ds n) = true.
Proof.
  intros Hds. unfold Number.format. cbv zeta.
  destruct (_ && _).
  { now rewrite all_literal_app, Hds, all_literal_zeros. }
  destruct (_ && _).
  { rewrite !all_literal_app, all_literal_take, all_literal_drop by exact Hds.
    reflexivity. }
  destruct (_ && _).
  { now rewrite !all_literal_app, Hds, all_literal_zeros. }
  destruct ds as [|d more]; [reflexivity |].
  apply all_literal_exponent; [exact Hds |].
  rewrite all_literal_app, all_literal_decN. now destruct (_ <? _).
Qed.

Lemma all_literal_signed (negative : bool) (text : string) :
  all_literal text = true → all_literal (Number.signed negative text) = true.
Proof. now destruct negative. Qed.

Lemma with_digits_literal (x : number) (negative : bool) (a b n k : Z) (text : string) :
  Number.with_digits x negative a b n k = Some text → all_literal text = true.
Proof.
  unfold Number.with_digits. cbv zeta.
  assert (Htext : ∀ s,
    all_literal (Number.signed negative
      (if s =? 10 ^ k then Number.format (decN (Z.to_N (10 ^ (k - 1)))) (n + 1)
       else Number.format (decN (Z.to_N s)) n)) = true).
  { intros s. apply all_literal_signed. destruct (_ =? _);
      apply all_literal_format, all_literal_decN. }
  intros H.
  destruct (bool_decide _) in H; [injection H as <-; apply Htext |].
  destruct (bool_decide _) in H; [injection H as <-; apply Htext |].
  discriminate.
Qed.

Lemma shortest_literal (x : number) (negative : bool) (a b n : Z) (ks : list Z)
    (text : string) :
  Number.shortest x negative a b n ks = Some text → all_literal text = true.
Proof.
  induction ks as [|k ks IH]; cbn [Number.shortest]; [discriminate |].
  destruct (Number.with_digits x negative a b n k) eqn:Hk; [| exact IH].
  intros [= <-]. exact (with_digits_literal _ _ _ _ _ _ _ Hk).
Qed.

Lemma all_literal_exact_text (m : positive) (e : Z) :
  all_literal (Number.exact_text m e) = true.
Proof.
  unfold Number.exact_text. destruct (0 <=? e); [apply all_literal_decN |].
  cbv zeta. rewrite !all_literal_app.
  rewrite all_literal_take, all_literal_drop;
    try (rewrite all_literal_app, all_literal_zeros, all_literal_decN); reflexivity.
Qed.

(** The text of a Number that JSON can hold is made of the characters of
    literals, and is not empty. *)
Lemma to_string_literal (x : number) :
  Number.serializable x →
  all_literal (Number.to_string x) = true ∧ Number.to_string x ≠ "".
Proof.
  intros Hx. assert (Hne : Number.to_string x ≠ "").
  { intros H. unfold Number.serializable in Hx. rewrite H in Hx. discriminate. }
  split; [| exact Hne]. destruct x as [| s | s | s m e].
  - discriminate.
  - destruct s; discriminate.
  - reflexivity.
  - cbn [Number.to_string].
    match goal with
    | |- context [Number.shortest ?x ?s ?a ?b ?n ?ks] =>
        destruct (Number.shortest x s a b n ks) as [text|] eqn:Hs
    end.
    + exact (shortest_literal _ _ _ _ _ _ _ Hs).
    + apply all_literal_signed, all_literal_exact_text.
Qed.

(** A Number that JSON can hold is finite. *)
Lemma serializable_finite (x : number) :
  Number.serializable x →
  match x with Number.NaN | Number.Infinity _ => False | _ => True end.
Proof. destruct x as [| [] | |]; try discriminate; intros; exact I. Qed.

(** *** Number tokens *)

Lemma span_literal (a rest : string) :
  all_literal a = true → ends_number rest → JSON.span (a +:+ rest) = a.
Proof.
  intros Ha Hrest. induction a as [|c a IH].
  - destruct rest as [|c r]; [reflexivity |]. cbn in Hrest |- *. now rewrite Hrest.
  - cbn [all_literal] in Ha. apply andb_true_iff in Ha as [Hc Ha].
    change (JSON.span (String c (a +:+ rest)) = String c a).
    cbn [JSON.span]. now rewrite Hc, IH.
Qed.

Lemma literal_char_code (c : ascii) :
  JSON.literal_char c = true →
  48 <= code c <= 57 ∨ code c = 45 ∨ code c = 43 ∨ code c = 46 ∨ code c = 101
  ∨ code c = 69.
Proof. unfold JSON.literal_char, is_digit. lia. Qed.

Lemma literal_char_not_ws (c : ascii) :
  JSON.literal_char c = true → JSON.is_ws c = false.
Proof. intros H%literal_char_code. unfold JSON.is_ws. lia. Qed.

Lemma token_at_number (x : number) (rest : string) :
  Number.serializable x → ends_number rest →
  JSON.token_at (Number.to_string x +:+ rest)
  = Some (JSON.TNum x, String.length (Number.to_string x)).
Proof.
  intros Hx Hrest. destruct (to_string_literal x Hx) as [Hlit Hne].
  pose proof (span_literal _ _ Hlit Hrest) as Hspan.
  unfold Number.serializable in Hx.
  destruct (Number.to_string x) as [|c a]; [congruence |].
  cbn [all_literal] in Hlit. apply andb_true_iff in Hlit as [Hc _].
  change (String c a +:+ rest) with (String c (a +:+ rest)) in *.
  unfold JSON.token_at. pose proof (literal_char_code c Hc) as Hcode.
  repeat match goal with
         | |- context [code c =? ?k] =>
             destruct (Z.eqb_spec (code c) k); [lia |]
         end.
  rewrite Hc. unfold JSON.lex_number. rewrite Hspan, Hx. reflexivity.
Qed.

(** *** String literals *)

Lemma lex_string_escape_char (c : ascii) (tail : string) :
  JSON.lex_string (JSON.escape_char c +:+ tail) =
  match JSON.lex_string tail with
  | Some (str, n) => Some (String c str, (String.length (JSON.escape_char c) + n)%nat)
  | None => None
  end.
Proof.
  destruct c as [[] [] [] [] [] [] [] []]; reflexivity.
Qed.

Lemma lex_string_escape (s rest : string) :
  JSON.lex_string (JSON.escape s +:+ String dquote rest) =
  Some (s, S (String.length (JSON.escape s))).
Proof.
  induction s as [|c s IH]; [reflexivity |].
  cbn [JSON.escape]. rewrite append_assoc, lex_string_escape_char, IH.
  rewrite length_append. do 2 f_equal. lia.
Qed.

Lemma token_at_quote (s rest : string) :
  JSON.token_at (JSON.quote s +:+ rest) =
  Some (JSON.TStr s, String.length (JSON.quote s)).
Proof.
  unfold JSON.quote. cbn [String.append JSON.token_at].
  change (code dquote) with 34. cbn [Z.eqb Pos.eqb].
  rewrite append_assoc. cbn [String.append].
  rewrite lex_string_escape. cbn.
  rewrite length_append. cbn. do 3 f_equal. lia.
Qed.

(** *** The tokens of a serialized value *)

Lemma lex_skip (a b : string) : JSON.lex (String.length a) (a +:+ b) = JSON.lex 0 b.
Proof. induction a as [|c a IH]; simpl; [reflexivity | exact IH]. Qed.

Lemma lex_token (c : ascii) (a b : string) (t : JSON.token) :
  JSON.is_ws c = false →
  JSON.token_at (String c a +:+ b) = Some (t, String.length (String c a)) →
  JSON.lex 0 (String c a +:+ b) = cons t <$> JSON.lex 0 b.
Proof.
  intros Hc Ht. cbn [String.append JSON.lex] in *. rewrite Hc, Ht.
  cbn. rewrite lex_skip. now destruct (JSON.lex 0 b).
Qed.

Lemma fmap_app_app (ta tb : list JSON.token) (o : option (list JSON.token)) :
  app ta <$> (app tb <$> o) = app (ta ++ tb) <$> o.
Proof. destruct o; cbn; [now rewrite app_assoc | reflexivity]. Qed.

Lemma lexes_any_lexes text ts : lexes_any text ts → lexes text ts.
Proof. intros H rest _. apply H. Qed.

Lemma safe_head_ends (a rest : string) : safe_head a → ends_number (a +:+ rest).
Proof. destruct a; [intros [] | exact (fun H => H)]. Qed.

Lemma lexes_any_app a b ta tb :
  lexes_any a ta → lexes_any b tb → lexes_any (a +:+ b) (ta ++ tb).
Proof.
  intros Ha Hb rest. now rewrite append_assoc, Ha, Hb, fmap_app_app.
Qed.

Lemma lexes_any_lexes_app a b ta tb :
  lexes_any a ta → lexes b tb → lexes (a +:+ b) (ta ++ tb).
Proof.
  intros Ha Hb rest Hr. now rewrite append_assoc, Ha, (Hb _ Hr), fmap_app_app.
Qed.

Lemma lexes_lexes_any_app a b ta tb :
  lexes a ta → lexes_any b tb → safe_head b → lexes_any (a +:+ b) (ta ++ tb).
Proof.
  intros Ha Hb Hs rest.
  rewrite append_assoc, (Ha _ (safe_head_ends _ _ Hs)), Hb. apply fmap_app_app.
Qed.

Lemma lexes_any_nil : lexes_any "" [].
Proof. intros rest. cbn. now destruct (JSON.lex 0 rest). Qed.

Lemma lexes_any_ws (a : string) : all_ws a = true → lexes_any a [].
Proof.
  intros Ha rest. induction a as [|c a IH]; [apply lexes_any_nil |].
  cbn in Ha. apply andb_prop in Ha as [Hc Ha].
  cbn [String.append JSON.lex]. rewrite Hc. now apply IH.
Qed.

Lemma lexes_any_token (c : ascii) (a : string) (t : JSON.token) :
  JSON.is_ws c = false →
  (∀ b, JSON.token_at (String c a +:+ b) = Some (t, String.length (String c a))) →
  lexes_any (String c a) [t].
Proof. intros Hc Ht rest. now apply lex_token. Qed.

Lemma dquote_not_ws : JSON.is_ws dquote = false.
Proof. reflexivity. Qed.

Lemma lexes_any_quote (s : string) : lexes_any (JSON.quote s) [JSON.TStr s].
Proof.
  apply lexes_any_token; [reflexivity |]. intros b. apply (token_at_quote s b).
Qed.

Lemma lexes_number (x : number) :
  Number.serializable x → lexes (Number.to_string x) [JSON.TNum x].
Proof.
  intros Hx rest Hr. pose proof (token_at_number x rest Hx Hr) as Ht.
  destruct (to_string_literal x Hx) as [Hlit Hne].
  destruct (Number.to_string x) as [|c a]; [congruence |].
  cbn [all_literal] in Hlit. apply andb_true_iff in Hlit as [Hc _].
  apply lex_token; [now apply literal_char_not_ws | exact Ht].
Qed.

Lemma all_ws_append (a b : string) :
  all_ws a = true → all_ws b = true → all_ws (a +:+ b) = true.
Proof.
  intros Ha Hb. induction a as [|c a IH]; [exact Hb |].
  cbn in *. apply andb_prop in Ha as [Hc Ha]. now rewrite Hc, IH.
Qed.

Lemma lexes_join (sep : string) (parts : list string) (toks : list (list JSON.token)) :
  lexes_any sep [JSON.TComma] → safe_head sep →
  Forall2 lexes parts toks → parts ≠ [] →
  lexes (join sep parts) (separated toks).
Proof.
  intros Hsep Hsafe Hall. induction Hall as [|p t ps ts Hp Hps IH]; [congruence |].
  intros _. destruct Hps as [|p2 t2 ps ts Hp2 Hps].
  - exact Hp.
  - change (lexes (p +:+ sep +:+ join sep (p2 :: ps))
                  (t ++ JSON.TComma :: separated (t2 :: ts))).
    intros rest Hr. rewrite !append_assoc.
    rewrite (Hp _ (safe_head_ends _ _ Hsafe)), Hsep, (IH ltac:(congruence) _ Hr).
    rewrite !fmap_app_app. now rewrite <- app_assoc.
Qed.

Lemma lexes_enclose (o c : ascii) (to tc : JSON.token) (gap indent : string)
    (parts : list string) (toks : list (list JSON.token)) :
  lexes_any (String o "") [to] → lexes_any (String c "") [tc] →
  safe_head (String c "") →
  all_ws gap = true → all_ws indent = true →
  Forall2 lexes parts toks →
  lexes_any (JSON.enclose (String o "") (String c "") gap indent parts)
            (to :: separated toks ++ [tc]).
Proof.
  intros Ho Hc Hsafe Hgap Hindent Hall.
  assert (Hcomma : lexes_any "," [JSON.TComma]).
  { apply lexes_any_token; [reflexivity | intros b; reflexivity]. }
  destruct Hall as [|p t ps ts Hp Hps].
  - exact (lexes_any_app _ _ _ _ Ho Hc).
  - assert (Hne : p :: ps ≠ []) by congruence.
    assert (Hall : Forall2 lexes (p :: ps) (t :: ts)) by now constructor.
    unfold JSON.enclose. generalize dependent (p :: ps). intros parts Hne Hall.
    generalize dependent (t :: ts). intros toks Hall.
    replace (match parts with [] => String o "" +:+ String c "" | _ :: _ =>
               if String.eqb gap "" then String o "" +:+ join "," parts +:+ String c ""
               else String o "" +:+ String newline (indent +:+ gap) +:+
                    join ("," +:+ String newline (indent +:+ gap)) parts +:+
                    String newline indent +:+ String c "" end)
      with (if String.eqb gap "" then String o "" +:+ join "," parts +:+ String c ""
            else String o "" +:+ String newline (indent +:+ gap) +:+
                 join ("," +:+ String newline (indent +:+ gap)) parts +:+
                 String newline indent +:+ String c "")
      by (destruct parts; congruence).
    change (to :: separated toks ++ [tc]) with ([to] ++ separated toks ++ [tc])%list.
    destruct (String.eqb gap "").
    + apply lexes_any_app; [exact Ho |].
      apply lexes_lexes_any_app; [| exact Hc | exact Hsafe].
      apply lexes_join; [exact Hcomma | reflexivity | exact Hall | exact Hne].
    + assert (Hinner : lexes_any (String newline (indent +:+ gap)) []).
      { apply lexes_any_ws. cbn. now apply all_ws_append. }
      apply lexes_any_app; [exact Ho |].
      apply (lexes_any_app _ _ [] _ Hinner).
      apply lexes_lexes_any_app.
      * apply lexes_join; [| reflexivity | exact Hall | exact Hne].
        exact (lexes_any_app _ _ [_] [] Hcomma Hinner).
      * apply (lexes_any_app (String newline indent) _ [] [tc]); [| exact Hc].
        apply lexes_any_ws. cbn. exact Hindent.
      * reflexivity.
Qed.

Lemma wf_json_arr (items : list json) :
  wf_json (JArr items) ↔ Forall wf_json items.
Proof.
  cbn [wf_json]. induction items as [|x items IH]; cbn [fold_right].
  - split; [constructor | exact (fun _ => I)].
  - rewrite Forall_cons. now rewrite IH.
Qed.

Lemma wf_json_obj (ms : list (string * json)) :
  wf_json (JObj ms) ↔ object_of ms = ms ∧ Forall (fun m => wf_json (snd m)) ms.
Proof.
  cbn [wf_json]. apply and_iff_compat_l.
  induction ms as [|m ms IH]; cbn [fold_right].
  - split; [constructor | exact (fun _ => I)].
  - rewrite Forall_cons. now rewrite IH.
Qed.

Lemma lexes_serialize (gap : string) :
  all_ws gap = true →
  ∀ v, wf_json v →
  ∀ indent, all_ws indent = true → lexes (JSON.serialize gap indent v) (tokens v).
Proof.
  intros Hgap v. induction v as [| b | n | s | items IH | ms IH] using json_induction;
    intros Hwf indent Hindent.
  - apply lexes_any_lexes, lexes_any_token; [reflexivity | intros [|? ?]; reflexivity].
  - apply lexes_any_lexes.
    destruct b; (apply lexes_any_token; [reflexivity | intros [|? ?]; reflexivity]).
  - cbn [wf_json] in Hwf. pose proof (serializable_finite n Hwf) as Hfin.
    pose proof (lexes_number n Hwf) as Hlex.
    destruct n as [| neg | neg | neg m e]; try contradiction; exact Hlex.
  - apply lexes_any_lexes, lexes_any_quote.
  - apply lexes_any_lexes. cbn [JSON.serialize tokens].
    apply wf_json_arr in Hwf.
    apply (lexes_enclose "[" "]" JSON.TLBrack JSON.TRBrack).
    + apply lexes_any_token; [reflexivity | intros b; reflexivity].
    + apply lexes_any_token; [reflexivity | intros b; reflexivity].
    + reflexivity.
    + exact Hgap.
    + exact Hindent.
    + induction IH as [|x items Hx _ IHitems]; constructor;
        [| apply IHitems; now inversion Hwf].
      apply Hx; [now inversion Hwf | now apply all_ws_append].
  - apply lexes_any_lexes. cbn [JSON.serialize tokens].
    apply wf_json_obj in Hwf as [_ Hwf].
    apply (lexes_enclose "{" "}" JSON.TLBrace JSON.TRBrace).
    + apply lexes_any_token; [reflexivity | intros b; reflexivity].
    + apply lexes_any_token; [reflexivity | intros b; reflexivity].
    + reflexivity.
    + exact Hgap.
    + exact Hindent.
    + induction IH as [|[k x] ms Hx _ IHms]; constructor;
        [| apply IHms; now inversion Hwf].
      change (JSON.TStr k :: JSON.TColon :: tokens x)
        with ([JSON.TStr k] ++ [JSON.TColon] ++ tokens x)%list.
      apply lexes_any_lexes_app; [apply lexes_any_quote |].
      apply lexes_any_lexes_app;
        [| apply Hx; [now inversion Hwf | now apply all_ws_append]].
      unfold JSON.colon. destruct (String.eqb gap "").
      * apply lexes_any_token; [reflexivity | intros b; reflexivity].
      * apply (lexes_any_app ":" " " [_] []).
        -- apply lexes_any_token; [reflexivity | intros b; reflexivity].
        -- now apply lexes_any_ws.
Qed.

(** *** The value of its tokens *)

Lemma tokens_head (v : json) :
  ∃ t ts, tokens v = t :: ts ∧ t ≠ JSON.TRBrack ∧ t ≠ JSON.TRBrace.
Proof.
  destruct v as [| [] | | | |]; cbn [tokens]; do 2 eexists; (split; [reflexivity |]);
    split; discriminate.
Qed.

Lemma parse_items_tokens (items : list json) :
  items ≠ [] → Forall parses items →
  ∀ fuel rest,
    (fold_right (fun x n => S (size x) + n)%nat O items <= fuel)%nat →
    JSON.parse_items fuel (separated (List.map tokens items) ++ JSON.TRBrack :: rest)
    = Some (items, rest).
Proof.
  intros Hne Hall. induction Hall as [|x items Hx Hitems IH]; [congruence |].
  intros fuel rest Hfuel. cbn [fold_right] in Hfuel.
  destruct fuel as [|fuel]; [lia |]. cbn [JSON.parse_items].
  destruct items as [|x2 items].
  - cbn [List.map separated]. rewrite Hx by (cbn in Hfuel; lia). reflexivity.
  - change (separated (List.map tokens (x :: x2 :: items)))
      with (tokens x ++ JSON.TComma :: separated (List.map tokens (x2 :: items)))%list.
    rewrite <- app_assoc. rewrite Hx by lia. cbn [mbind option_bind].
    rewrite <- app_comm_cons. rewrite IH; [reflexivity | congruence | lia].
Qed.

Lemma parse_members_tokens (ms : list (string * json)) :
  ms ≠ [] → Forall (fun m => parses (snd m)) ms →
  ∀ fuel rest,
    (fold_right (fun (m : string * json) n => S (size (snd m)) + n)%nat O ms <= fuel)%nat →
    JSON.parse_members fuel
      (separated
         (List.map (fun m : string * json =>
                      let (k, x) := m in JSON.TStr k :: JSON.TColon :: tokens x) ms)
       ++ JSON.TRBrace :: rest)
    = Some (ms, rest).
Proof.
  intros Hne Hall. induction Hall as [|[k x] ms Hx Hms IH]; [congruence |].
  intros fuel rest Hfuel. cbn [fold_right snd] in Hfuel.
  destruct fuel as [|fuel]; [lia |].
  destruct ms as [|m2 ms].
  - cbn [List.map separated JSON.parse_members app].
    cbn [snd] in Hx. rewrite Hx by (cbn in Hfuel; lia). reflexivity.
  - change (separated (List.map _ ((k, x) :: m2 :: ms)))
      with ((JSON.TStr k :: JSON.TColon :: tokens x) ++ JSON.TComma ::
            separated (List.map (fun m : string * json =>
                      let (k, x) := m in JSON.TStr k :: JSON.TColon :: tokens x) (m2 :: ms)))%list.
    rewrite <- app_assoc. cbn [JSON.parse_members app].
    cbn [snd] in Hx. rewrite Hx by lia. cbn [mbind option_bind].
    rewrite IH; [reflexivity | congruence | lia].
Qed.

Lemma parse_tokens (v : json) : wf_json v → parses v.
Proof.
  induction v as [| b | n | s | items IH | ms IH] using json_induction;
    intros Hwf fuel rest Hfuel;
    (destruct fuel as [|fuel]; [cbn in Hfuel; lia |]).
  - reflexivity.
  - now destruct b.
  - reflexivity.
  - reflexivity.
  - apply wf_json_arr in Hwf.
    assert (Hall : Forall parses items).
    { clear Hfuel. induction IH; inversion Hwf; subst; constructor; auto. }
    destruct items as [|x items]; [reflexivity |].
    cbn [tokens]. rewrite <- app_comm_cons, <- app_assoc. cbn [app].
    cbn [size] in Hfuel.
    pose proof (parse_items_tokens (x :: items) ltac:(congruence) Hall fuel rest
                  ltac:(lia)) as Hp.
    destruct (tokens_head x) as (t & ts & Ht & Hb & _).
    cbn [List.map separated] in *.
    destruct items as [|x2 items]; rewrite Ht in *; cbn [app] in *;
      destruct t; try congruence; cbn [JSON.parse_value]; now rewrite Hp.
  - apply wf_json_obj in Hwf as [Hobj Hwf].
    assert (Hall : Forall (fun m => parses (snd m)) ms).
    { clear Hfuel Hobj. induction IH; inversion Hwf; subst; constructor; auto. }
    destruct ms as [|[k x] ms]; [reflexivity |].
    cbn [tokens]. rewrite <- app_comm_cons, <- app_assoc. cbn [app].
    cbn [size] in Hfuel.
    pose proof (parse_members_tokens ((k, x) :: ms) ltac:(congruence) Hall fuel rest
                  ltac:(lia)) as Hp.
    cbn [List.map separated] in *.
    destruct ms as [|m2 ms]; cbn [app] in *; cbn [JSON.parse_value];
      rewrite Hp; cbn [mbind option_bind]; now rewrite Hobj.
Qed.

Lemma size_tokens (v : json) : (size v <= length (tokens v))%nat.
Proof.
  induction v as [| b | n | s | items IH | ms IH] using json_induction;
    try (cbn; lia).
  - now destruct b.
  - cbn [size tokens length]. rewrite length_app. cbn [length].
    enough (fold_right (fun x n => S (size x) + n)%nat O items
            <= S (length (separated (List.map tokens items))))%nat by lia.
    induction IH as [|x items Hx _ IHitems]; [cbn; lia |].
    destruct items as [|x2 items]; [cbn in *; lia |].
    change (separated (List.map tokens (x :: x2 :: items)))
      with (tokens x ++ JSON.TComma :: separated (List.map tokens (x2 :: items)))%list.
    rewrite length_app. cbn [fold_right length] in *. lia.
  - cbn [size tokens length]. rewrite length_app. cbn [length].
    enough (fold_right (fun (m : string * json) n => S (size (snd m)) + n)%nat O ms
            <= S (length (separated (List.map (fun m : string * json =>
                      let (k, x) := m in JSON.TStr k :: JSON.TColon :: tokens x) ms))))%nat
      by lia.
    induction IH as [|[k x] ms Hx _ IHms]; [cbn; lia |].
    destruct ms as [|m2 ms]; [cbn in *; lia |].
    change (separated (List.map _ ((k, x) :: m2 :: ms)))
      with ((JSON.TStr k :: JSON.TColon :: tokens x) ++ JSON.TComma ::
            separated (List.map (fun m : string * json =>
                      let (k, x) := m in JSON.TStr k :: JSON.TColon :: tokens x) (m2 :: ms)))%list.
    rewrite length_app. cbn [fold_right length snd] in *. lia.
Qed.

(** [JSON.parse] reads back what [JSON.stringify] wrote, with or without
    indentation. *)
Lemma parse_serialize (gap : string) (v : json) :
  all_ws gap = true → wf_json v → JSON.parse (JSON.serialize gap "" v) = Some v.
Proof.
  intros Hgap Hwf. unfold JSON.parse.
  pose proof (lexes_serialize gap Hgap v Hwf "" eq_refl "" I) as Hlex.
  rewrite append_nil_r in Hlex. rewrite Hlex. cbn [JSON.lex fmap option_fmap option_map mbind option_bind].
  rewrite app_nil_r.
  pose proof (parse_tokens v Hwf (S (length (tokens v))) []) as Hp.
  rewrite app_nil_r in Hp. rewrite Hp; [reflexivity |].
  pose proof (size_tokens v). lia.
Qed.

Lemma parse_stringify2 (v : json) : wf_json v → JSON.parse (JSON.stringify2 v) = Some v.
Proof. now apply parse_serialize. Qed.

Lemma parse_stringify (v : json) : wf_json v → JSON.parse (JSON.stringify v) = Some v.
Proof. now apply parse_serialize. Qed.

End JsonRoundTrip.

(** ** The cache *)

#[local] Opaque JSON.parse JSON.stringify2 dec legal_name Number.to_string
  Number.of_literal Number.of_Z has_nul.

(** *** [get], [updateMetadata] and [set] *)

#[local] Opaque JSON.parse JSON.stringify2 dec legal_name Number.to_string
  Number.of_literal Number.of_Z has_nul.

Lemma logged_refl {E} (w : world E) : logged w w.
Proof. exists []. destruct w; cbn. now rewrite app_nil_r. Qed.

Lemma logged_trans {E} (w1 w2 w3 : world E) : logged w1 w2 → logged w2 w3 → logged w1 w3.
Proof.
  intros [l1 ->] [l2 ->]. exists (l1 ++ l2)%list. cbn. now rewrite app_assoc.
Qed.

Lemma logged_fields {E} (w w' : world E) :
  logged w w' →
  disk w' = disk w ∧ outside w' = outside w ∧ read_only w' = read_only w ∧
  clock w' = clock w ∧ ext w' = ext w ∧ invoked w' = invoked w.
Proof. intros [lines ->]. repeat split. Qed.

Lemma time_value_safe (t : Z) : time_value t → - 2 ^ 53 < t < 2 ^ 53.
Proof. unfold time_value. change (2 ^ 53) with 9007199254740992. lia. Qed.

Ltac run :=
  repeat first
    [ progress cbn [disk outside read_only clock console ext invoked ret throw fst snd
                    negb andb mbind option_bind fmap option_fmap option_map with_disk
                    with_outside file_at]
    | progress unfold bind, try_catch, console_error, existsSync, readFileSync,
        unlinkSync, writeFileSync, readdirSync, Date_now, JSON_parse, read_property,
        with_disk, with_outside
    | match goal with
      | H : ?d !! ?f = _ |- context [?d !! ?f] => rewrite H
      | H : JSON.parse ?c = _ |- context [JSON.parse ?c] => rewrite H
      | H : legal_name ?f = _ |- context [legal_name ?f] => rewrite H
      | H : has_nul ?f = _ |- context [has_nul ?f] => rewrite H
      | |- context [bool_decide (is_Some (Some ?x))] =>
          rewrite (bool_decide_eq_true_2 (is_Some (Some x))) by eauto
      | |- context [bool_decide (is_Some None)] =>
          rewrite (bool_decide_eq_false_2 (is_Some None)) by (intros [? ?]; congruence)
      end ].

Ltac done_logged :=
  (split; [reflexivity |]); eexists; rewrite <- ?app_assoc; reflexivity.

Lemma get_spec {E} (this : CacheManager.t) (key : string) (w : world E) :
  let file := CacheManager.getCacheFilePath this key in
  let state := entry_state_at (num (clock w)) (file_at w file) in
  fst (CacheManager.get this key w) =
    Return (match state with Live data => data | _ => null end) ∧
  logged
    (match state with
     | Expired => if read_only w then w else without_file file w
     | _ => w
     end)
    (snd (CacheManager.get this key w)).
Proof.
  destruct w as [d o ro now con e inv]. unfold CacheManager.get, CacheManager.delete.
  destruct (CacheManager.getCacheFilePath this key) as [name | path]; cbv zeta.
  - destruct d as [d|]; run; [| done_logged].
    unfold entry_state_at.
    destruct (d !! name) as [content|] eqn:Hfile; run; [| done_logged].
    destruct (JSON.parse content) as [entry|] eqn:Hparse; run; [| done_logged].
    destruct entry as [| b | n | s | items | ms]; cbn [JS.get_property]; run;
      [done_logged | ..].
    all: match goal with
         | |- context [JS.gt ?a ?b] => destruct (JS.gt a b) eqn:Hgt
         end; run; [| done_logged].
    all: unfold without_file; destruct ro; run; done_logged.
  - run. destruct (has_nul path) eqn:Hnul; run; [done_logged |].
    unfold entry_state_at.
    destruct (o !! path) as [[content | |]|] eqn:Hfile; run; try done_logged.
    destruct (JSON.parse content) as [entry|] eqn:Hparse; run; [| done_logged].
    destruct entry as [| b | n | s | items | ms]; cbn [JS.get_property]; run;
      [done_logged | ..].
    all: match goal with
         | |- context [JS.gt ?a ?b] => destruct (JS.gt a b) eqn:Hgt
         end; run; [| done_logged].
    all: unfold without_file; destruct ro; run; done_logged.
Qed.

Lemma legal_metadata : legal_name ".metadata.json" = true.
Proof. vm_compute. reflexivity. Qed.

Lemma updateMetadata_spec {E} (this : CacheManager.t) (w : world E) :
  fst (CacheManager.updateMetadata this w) = Return tt ∧
  logged (with_metadata w) (snd (CacheManager.updateMetadata this w)).
Proof.
  destruct w as [[d|] o ro now con e inv];
    unfold CacheManager.updateMetadata, CacheManager.metadataPath, with_metadata;
    run; [| done_logged].
  rewrite legal_metadata. run. destruct ro; run; [done_logged |].
  split; [reflexivity |]. exists []. now rewrite app_nil_r.
Qed.

Lemma updateMetadata_ok {E} (this : CacheManager.t) (d : gmap string string)
    (o : gmap string node) (now : Z) (con : list log_line) (e : E) (inv : nat) :
  CacheManager.updateMetadata this (World (Some d) o false now con e inv) =
  (Return tt,
   World (Some (<[".metadata.json" := metadata_text d (num now)]> d)) o false now con e inv).
Proof.
  unfold CacheManager.updateMetadata, CacheManager.metadataPath. run.
  rewrite legal_metadata. run. reflexivity.
Qed.

(** A write that throws leaves the world as it was; one that returns leaves
    the clock, the console and the collaborator as they were. *)
Lemma writeFileSync_spec {E} (l : location) (text : string) (w : world E) :
  match fst (writeFileSync l text w) with
  | Throw _ => snd (writeFileSync l text w) = w
  | Return _ =>
      read_only w = false ∧
      snd (writeFileSync l text w)
      = match l with
        | Inside name => with_disk (<[name := text]> <$> disk w) w
        | Outside path => with_outside (<[path := File text]> (outside w)) w
        end
  end.
Proof.
  destruct w as [d o ro now con e inv], l as [name | path]; unfold writeFileSync; run.
  - destruct d as [d|]; [| reflexivity]. destruct (legal_name name); run; [| reflexivity].
    destruct ro; run; [reflexivity | now split].
  - destruct (has_nul path); [reflexivity |].
    destruct (o !! path) as [[content | |]|]; run; try reflexivity;
      destruct ro; run; try reflexivity; now split.
Qed.

Lemma with_metadata_logged {E} (w w' : world E) :
  logged w w' → logged (with_metadata w) (with_metadata w').
Proof.
  intros [lines ->]. destruct w as [[d|] o ro now con e inv]; unfold with_metadata;
    cbn [disk read_only clock outside console ext invoked]; [| now exists lines].
  destruct ro; now exists lines.
Qed.

(** [set], step by step. *)
Lemma set_unfold {E} (this : CacheManager.t) (key : string) (data : json)
    (ttl : option number) (w : world E) :
  let file := CacheManager.getCacheFilePath this key in
  let T := CacheManager.ttl_or_default this ttl in
  CacheManager.set this key data ttl w =
  match writeFileSync file (entry_text data (num (clock w)) T) w with
  | (Return _, w1) =>
      (Return tt,
       snd (CacheManager.updateMetadata this
              (snd (console_error
                      (Log ("[DEBUG] Cache set: " +:+ key +:+ " (ttl: "
                            +:+ Number.to_string T +:+ "ms)")) w1))))
  | (Throw error, w1) =>
      console_error (LogError ("[ERROR] Failed to write cache for key " +:+ key) error) w1
  end.
Proof.
  cbv zeta. unfold CacheManager.set, try_catch, bind, Date_now, entry_text.
  cbn [CacheEntry.ttl].
  destruct (writeFileSync _ _ w) as [[[]|err] w1]; [| reflexivity].
  unfold console_error at 1 3. cbn [snd].
  match goal with
  | |- context [CacheManager.updateMetadata this ?w2] =>
      destruct (updateMetadata_spec this w2) as [Hr _];
      destruct (CacheManager.updateMetadata this w2) as [r w3]
  end.
  cbn [fst snd] in *. now subst r.
Qed.

(** [set] never throws: when the write of the entry succeeds it goes on to
    rewrite the metadata, and when the write throws it leaves the world as
    it was, console apart. *)
Lemma set_spec {E} (this : CacheManager.t) (key : string) (data : json)
    (ttl : option number) (w : world E) :
  let file := CacheManager.getCacheFilePath this key in
  let text := entry_text data (num (clock w)) (CacheManager.ttl_or_default this ttl) in
  fst (CacheManager.set this key data ttl w) = Return tt ∧
  logged
    (match writeFileSync file text w with
     | (Return _, w1) => with_metadata w1
     | (Throw _, _) => w
     end)
    (snd (CacheManager.set this key data ttl w)).
Proof.
  cbv zeta. rewrite set_unfold.
  match goal with
  | |- context [writeFileSync ?l ?text w] =>
      pose proof (writeFileSync_spec l text w) as Hw;
      destruct (writeFileSync l text w) as [[[]|err] w1]
  end; cbn [fst snd] in Hw.
  - cbn [fst snd]. split; [reflexivity |].
    match goal with
    | |- context [CacheManager.updateMetadata this ?w2] =>
        destruct (updateMetadata_spec this w2) as [_ Hm];
        assert (Hl : logged w1 w2) by (eexists; reflexivity)
    end.
    exact (logged_trans _ _ _ (with_metadata_logged _ _ Hl) Hm).
  - subst w1. unfold console_error. cbn [fst snd]. split; [reflexivity |].
    eexists. reflexivity.
Qed.

Lemma object_of_entry (data : json) (now ttl : number) :
  CacheEntry.object
    {| CacheEntry.data := data; CacheEntry.timestamp := now; CacheEntry.ttl := ttl |}
  = JObj [("data", data); ("timestamp", JNum now); ("ttl", JNum ttl)].
Proof. reflexivity. Qed.

Lemma parse_entry_text (data : json) (now ttl : number) :
  wf_json data → Number.serializable now → Number.serializable ttl →
  JSON.parse (entry_text data now ttl)
  = Some (JObj [("data", data); ("timestamp", JNum now); ("ttl", JNum ttl)]).
Proof.
  intros Hwf Hnow Httl. unfold entry_text. rewrite object_of_entry.
  apply parse_stringify2. cbn. auto.
Qed.

(** An entry written at [now] with a TTL of [ttl] is live as long as its age
    does not exceed [ttl], and expired afterwards. *)
Lemma entry_state_written (data : json) (now ttl now' : number) :
  wf_json data → Number.serializable now → Number.serializable ttl →
  entry_state_at now' (Some (entry_text data now ttl))
  = if JS.gt (JS.sub now' now) ttl then Expired else Live (J data).
Proof.
  intros Hwf Hnow Httl. unfold entry_state_at.
  rewrite (parse_entry_text _ _ _ Hwf Hnow Httl). reflexivity.
Qed.

Lemma entry_file_not_metadata (file : string) :
  CacheManager.is_entry_file file = true → ".metadata.json" ≠ file.
Proof.
  unfold CacheManager.is_entry_file. intros H <-. vm_compute in H. discriminate.
Qed.

(** The age, at a later time value, of what was stamped at a time value. *)
Lemma age_of_time_values (now elapsed : Z) :
  time_value now → time_value (now + elapsed) →
  JS.sub (num (now + elapsed)) (num now) = num elapsed.
Proof.
  intros H1%time_value_safe H2%time_value_safe. unfold JS.sub.
  rewrite sub_num by assumption. f_equal. lia.
Qed.

(** What [set] does for a key that names an entry file, on an operational
    cache. *)
Lemma set_entry {E} (this : CacheManager.t) (key name : string) (data : json)
    (ttl : option number) (w : world E) (d : gmap string string) :
  disk w = Some d → read_only w = false →
  CacheManager.getCacheFilePath this key = Inside name → legal_name name = true →
  let d1 := <[name := entry_text data (num (clock w))
                        (CacheManager.ttl_or_default this ttl)]> d in
  logged
    (with_disk (Some (<[".metadata.json" := metadata_text d1 (num (clock w))]> d1)) w)
    (snd (CacheManager.set this key data ttl w)).
Proof.
  intros Hd Hro Hloc Hlegal d1.
  destruct (set_spec this key data ttl w) as [_ Hw]. rewrite Hloc in Hw.
  unfold writeFileSync in Hw. rewrite Hd, Hlegal, Hro in Hw. cbn [negb] in Hw.
  unfold with_metadata in Hw. cbn [with_disk disk read_only clock] in Hw.
  rewrite Hro in Hw. exact Hw.
Qed.

(** What [get] finds after a successful [set]. *)
Lemma set_get {E} (this : CacheManager.t) (key : string) (data : json)
    (ttl : option number) (elapsed : N) (w : world E) :
  operational w → cache_key this key → wf_json data →
  Number.serializable (CacheManager.ttl_or_default this ttl) →
  time_value (clock w) → time_value (clock w + Z.of_N elapsed) →
  let w1 := snd (CacheManager.set this key data ttl w) in
  fst (CacheManager.get this key (elapse elapsed w1))
  = Return (if JS.gt (num (Z.of_N elapsed)) (CacheManager.ttl_or_default this ttl)
            then null else J data).
Proof.
  intros [[d Hd] Hro] (name & Hloc & Hlegal & Hentry) Hwf Httl Hnow Hlater w1.
  destruct (set_entry this key name data ttl w d Hd Hro Hloc Hlegal) as [lines Hw1].
  fold w1 in Hw1.
  destruct (get_spec this key (elapse elapsed w1)) as [Hget _]. rewrite Hget.
  rewrite Hw1, Hloc. cbn [elapse disk clock with_disk file_at mbind option_bind].
  rewrite lookup_insert_ne by now apply entry_file_not_metadata.
  rewrite lookup_insert_eq, entry_state_written;
    [| exact Hwf | apply serializable_num, time_value_safe, Hnow | exact Httl].
  rewrite age_of_time_values by assumption.
  now destruct (JS.gt _ _).
Qed.

(** *** Round trip, expiry on read, absorbed failures, default TTL *)

Lemma positive_truthy (T : number) : Number.gt T (num 0) = true → Number.truthy T = true.
Proof. change (num 0) with (Number.Zero false). now destruct T as [| [] | [] |]. Qed.

Lemma positive_not_below_zero (T : number) :
  Number.gt T (num 0) = true → Number.gt (num 0) T = false.
Proof.
  change (num 0) with (Number.Zero false).
  destruct T as [| [] | [] | neg m e]; try reflexivity; try discriminate.
  unfold Number.gt. cbn [Number.exact]. cbv zeta.
  assert (0 < 2 ^ (e - Z.min e 0)) by (apply Z.pow_pos_nonneg; lia).
  destruct neg; intros Hgt; apply Z.ltb_lt in Hgt; apply Z.ltb_ge; nia.
Qed.

Lemma elapse_zero {E} (w : world E) : elapse 0 w = w.
Proof. destruct w. unfold elapse. cbn. now rewrite Z.add_0_r. Qed.

Lemma sample_key_is_cache_key : cache_key sample_cache sample_key.
Proof. exists "tool_fetchTicker_9f2c.json". vm_compute. repeat split. Qed.

Lemma sample_ticker_wf : wf_json sample_ticker.
Proof. vm_compute. repeat split. Qed.

Lemma fresh_world_operational : operational fresh_world.
Proof. split; [eexists |]; reflexivity. Qed.

(** C1, as stated, fails for keys that do not name an entry file: after
    [set(".metadata", V, T)] the metadata overwrites the entry and [get]
    returns [undefined]; for the key of a resource URI, which holds path
    separators, the write fails and [get] returns [null]. *)
Lemma round_trip_fails_off_entry_files :
  fst (CacheManager.get sample_cache ".metadata"
         (snd (CacheManager.set sample_cache ".metadata" sample_ticker (Some (num 5000))
                 fresh_world)))
  = Return undefined ∧
  CacheManager.getCacheFilePath sample_cache resource_key
  = Inside "resource_ccxt:/binance/markets_2788f9348ae0a3c556f90b34f3a06845ca7814e97e80cbef22e414f6cf96937a.json" ∧
  fst (CacheManager.get sample_cache resource_key
         (snd (CacheManager.set sample_cache resource_key sample_ticker (Some (num 5000))
                 fresh_world)))
  = Return null.
Proof. vm_compute. repeat split. Qed.

(** C1, amended.  On an operational cache directory, for every key that
    names an entry file, every JSON value [V] and every finite TTL [T > 0]:
    [set(k, V, T)] returns normally, and a [get(k)] issued at once, or at any
    time at which the age of the entry does not exceed [T], returns exactly
    [V]. *)
Theorem set_then_get_round_trip {E} (this : CacheManager.t) (w : world E)
    (k : string) (V : json) (T : number) (elapsed : N) :
  operational w → cache_key this k → wf_json V →
  Number.serializable T → Number.gt T (num 0) = true →
  time_value (clock w) → time_value (clock w + Z.of_N elapsed) →
  Number.gt (num (Z.of_N elapsed)) T = false →
  let w1 := snd (CacheManager.set this k V (Some T) w) in
  fst (CacheManager.set this k V (Some T) w) = Return tt ∧
  fst (CacheManager.get this k w1) = Return (J V) ∧
  fst (CacheManager.get this k (elapse elapsed w1)) = Return (J V).
Proof.
  intros Hop Hkey Hwf HT Hpos Hnow Hlater Hel w1.
  assert (HT' : CacheManager.ttl_or_default this (Some T) = T).
  { cbn [CacheManager.ttl_or_default]. now rewrite positive_truthy. }
  split; [apply set_spec |]. split.
  - rewrite <- (elapse_zero w1). unfold w1.
    rewrite (set_get this k V (Some T) 0 w Hop Hkey Hwf); rewrite ?HT', ?Z.add_0_r;
      try assumption.
    change (Z.of_N 0) with 0. unfold JS.gt. now rewrite positive_not_below_zero.
  - unfold w1. rewrite (set_get this k V (Some T) elapsed w Hop Hkey Hwf);
      rewrite ?HT'; try assumption.
    unfold JS.gt. now rewrite Hel.
Qed.

Lemma set_then_get_round_trip_witness :
  operational fresh_world ∧ cache_key sample_cache sample_key ∧
  wf_json sample_ticker ∧
  fst (CacheManager.get sample_cache sample_key
         (elapse 5000 (snd (CacheManager.set sample_cache sample_key sample_ticker
                              (Some (num 5000)) fresh_world))))
  = Return (J sample_ticker).
Proof.
  split; [exact fresh_world_operational |].
  split; [exact sample_key_is_cache_key |].
  split; [exact sample_ticker_wf |].
  refine (proj2 (proj2 (set_then_get_round_trip sample_cache fresh_world sample_key
                          sample_ticker (num 5000) 5000 fresh_world_operational
                          sample_key_is_cache_key sample_ticker_wf _ _ _ _ _)));
    vm_compute; try reflexivity; split; discriminate.
Defined.

Lemma get_entry {E} (this : CacheManager.t) (w : world E)
    (k content : string) (entry : json) (ts t data : value) :
  let file := CacheManager.getCacheFilePath this k in
  file_at w file = Some content →
  JSON.parse content = Some entry →
  JS.get_property entry "timestamp" = Some ts →
  JS.get_property entry "ttl" = Some t →
  JS.get_property entry "data" = Some data →
  let r := CacheManager.get this k w in
  if JS.gt (JS.sub (num (clock w)) (JS.to_number ts)) (JS.to_number t) then
    fst r = Return null ∧
    logged (if read_only w then w else without_file file w) (snd r)
  else
    fst r = Return data ∧ logged w (snd r).
Proof.
  intros file Hfile Hparse Hts Httl Hdata r.
  destruct (get_spec this k w) as [Hr Hw]. fold r file in Hr, Hw.
  rewrite Hfile in Hr, Hw. unfold entry_state_at in Hr, Hw.
  rewrite Hparse, Hts, Httl, Hdata in Hr, Hw.
  now destruct (JS.gt _ _).
Qed.

Lemma file_at_without {E} (l : location) (w : world E) : file_at (without_file l w) l = None.
Proof.
  destruct l as [name | path], w as [[d|] o ro now con e inv];
    cbn [without_file file_at with_disk with_outside disk outside fmap option_fmap
         option_map mbind option_bind];
    rewrite ?lookup_delete_eq, ?lookup_insert_eq; try reflexivity;
    now destruct (has_nul path).
Qed.

Lemma file_at_logged {E} (l : location) (w w' : world E) :
  logged w w' → file_at w' l = file_at w l.
Proof. intros [lines ->]. reflexivity. Qed.

(** C2. For every key whose file exists and parses to a value with
    properties (any JSON value but [null]): if [now - timestamp > ttl] then
    [get] returns [null] and the world afterwards is the one before without
    the file (and with lines on the console), so the file no longer exists;
    if not, then [get] returns the stored [data] and leaves the world as it
    was, console apart. *)
Theorem get_purges_expired_entry {E} (this : CacheManager.t) (w : world E)
    (k content : string) (entry : json) (ts t data : value) :
  let file := CacheManager.getCacheFilePath this k in
  file_at w file = Some content →
  JSON.parse content = Some entry →
  JS.get_property entry "timestamp" = Some ts →
  JS.get_property entry "ttl" = Some t →
  JS.get_property entry "data" = Some data →
  let age := JS.sub (num (clock w)) (JS.to_number ts) in
  let r := CacheManager.get this k w in
  (JS.gt age (JS.to_number t) = true → read_only w = false →
     fst r = Return null ∧
     logged (without_file file w) (snd r) ∧
     file_at (snd r) file = None) ∧
  (JS.gt age (JS.to_number t) = false →
     fst r = Return data ∧ logged w (snd r)).
Proof.
  intros file Hfile Hparse Hts Httl Hdata age r.
  pose proof (get_entry this w k content entry ts t data Hfile Hparse Hts Httl Hdata) as H.
  cbv zeta in H. fold file age r in H. split.
  - intros Hexp Hro. rewrite Hexp, Hro in H. destruct H as [Hr Hw].
    repeat split; [exact Hr | exact Hw |].
    rewrite (file_at_logged _ _ _ Hw). apply file_at_without.
  - intros Hlive. now rewrite Hlive in H.
Qed.

Lemma get_purges_expired_entry_witness :
  fst (CacheManager.get sample_cache sample_key later_world) = Return null ∧
  logged (without_file (Inside "tool_fetchTicker_9f2c.json") later_world)
         (snd (CacheManager.get sample_cache sample_key later_world)) ∧
  file_at (snd (CacheManager.get sample_cache sample_key later_world))
          (Inside "tool_fetchTicker_9f2c.json") = None.
Proof.
  refine (proj1 (get_purges_expired_entry sample_cache later_world sample_key
           (entry_text sample_ticker (num 1700000000000) (num 50))
           (JObj [("data", sample_ticker); ("timestamp", JNum (num 1700000000000));
                  ("ttl", JNum (num 50))])
           (J (JNum (num 1700000000000))) (J (JNum (num 50))) (J sample_ticker)
           _ _ _ _ _) _ _); vm_compute; reflexivity.
Defined.

(** C5. Failures inside the cache never reach the caller: on a file that
    does not parse, [get] returns [null] and leaves the world as it is,
    console apart; [set] returns normally in every world; and when the write
    of the entry throws, [set] does nothing but report the error on the
    console. *)
Theorem internal_failures_are_absorbed {E} (this : CacheManager.t) (w : world E)
    (k : string) :
  let file := CacheManager.getCacheFilePath this k in
  (∀ content,
     file_at w file = Some content → JSON.parse content = None →
     fst (CacheManager.get this k w) = Return null ∧
     logged w (snd (CacheManager.get this k w))) ∧
  (∀ data ttl, fst (CacheManager.set this k data ttl w) = Return tt) ∧
  (∀ data ttl error,
     fst (writeFileSync file
            (entry_text data (num (clock w)) (CacheManager.ttl_or_default this ttl)) w)
     = Throw error →
     CacheManager.set this k data ttl w
     = console_error (LogError ("[ERROR] Failed to write cache for key " +:+ k) error) w).
Proof.
  intros file. split; [| split].
  - intros content Hfile Hparse.
    destruct (get_spec this k w) as [Hr Hw]. fold file in Hr, Hw.
    rewrite Hfile in Hr, Hw. unfold entry_state_at in Hr, Hw.
    rewrite Hparse in Hr, Hw. now split.
  - intros data ttl. apply set_spec.
  - intros data ttl error Hthrow. rewrite set_unfold. fold file.
    pose proof (writeFileSync_spec file
                  (entry_text data (num (clock w)) (CacheManager.ttl_or_default this ttl)) w)
      as Hw.
    destruct (writeFileSync file _ w) as [[[]|err] w1]; cbn [fst snd] in *;
      [discriminate |].
    injection Hthrow as ->. now subst w1.
Qed.

Lemma internal_failures_are_absorbed_witness :
  (fst (CacheManager.get sample_cache sample_key corrupt_world) = Return null ∧
   logged corrupt_world (snd (CacheManager.get sample_cache sample_key corrupt_world))) ∧
  fst (CacheManager.set sample_cache sample_key sample_ticker (Some (num 5000))
         read_only_world)
  = Return tt ∧
  CacheManager.set sample_cache sample_key sample_ticker (Some (num 5000)) read_only_world
  = console_error
      (LogError ("[ERROR] Failed to write cache for key " +:+ sample_key)
         (SystemError "EACCES")) read_only_world.
Proof.
  split; [| split].
  - refine (proj1 (internal_failures_are_absorbed sample_cache corrupt_world sample_key)
              "{ [truncated" _ _); vm_compute; reflexivity.
  - exact (proj1 (proj2 (internal_failures_are_absorbed sample_cache read_only_world
                           sample_key)) sample_ticker (Some (num 5000))).
  - refine (proj2 (proj2 (internal_failures_are_absorbed sample_cache read_only_world
                            sample_key)) sample_ticker (Some (num 5000))
              (SystemError "EACCES") _).
    vm_compute. reflexivity.
Defined.

(** C10, as stated, fails for keys that do not name an entry file: for the
    key of a resource URI [set(k, d, 0)] stores nothing, and for [.metadata]
    the metadata, which has no [ttl], overwrites what was stored. *)
Lemma zero_ttl_stores_no_entry_off_entry_files :
  disk (snd (CacheManager.set sample_cache resource_key sample_ticker (Some (num 0))
               fresh_world))
  = Some ∅ ∧
  file_at (snd (CacheManager.set sample_cache ".metadata" sample_ticker (Some (num 0))
                  fresh_world))
          (CacheManager.getCacheFilePath sample_cache ".metadata")
    ≫= JSON.parse
  = Some (JObj [("totalEntries", JNum (num 0));
                ("lastCleanup", JNum (num 1700000000000))]).
Proof. vm_compute. repeat split. Qed.

(** C10, amended.  On an operational cache directory, for a key that names
    an entry file: [set(k, d, ttl)] with a falsy TTL (zero, NaN, or omitted)
    stores the entry whose [ttl] is the default TTL of the store; the entry is
    live as long as its age does not exceed the default TTL, and expired
    afterwards. *)
Theorem set_zero_ttl_uses_default {E} (this : CacheManager.t) (w : world E)
    (k : string) (d : json) (ttl : option number) :
  operational w → cache_key this k →
  match ttl with Some t => Number.truthy t = false | None => True end →
  let w1 := snd (CacheManager.set this k d ttl w) in
  file_at w1 (CacheManager.getCacheFilePath this k)
  = Some (JSON.stringify2
            (CacheEntry.object
               {| CacheEntry.data := d;
                  CacheEntry.timestamp := num (clock w);
                  CacheEntry.ttl := CacheManager.defaultTTL this |})) ∧
  (wf_json d → Number.serializable (CacheManager.defaultTTL this) →
   time_value (clock w) →
   ∀ elapsed : N, time_value (clock w + Z.of_N elapsed) →
     fst (CacheManager.get this k (elapse elapsed w1))
     = Return (if JS.gt (num (Z.of_N elapsed)) (CacheManager.defaultTTL this)
               then null else J d)).
Proof.
  intros Hop Hkey Httl w1.
  assert (Hdef : CacheManager.ttl_or_default this ttl = CacheManager.defaultTTL this).
  { destruct ttl as [t|]; [| reflexivity]. cbn [CacheManager.ttl_or_default].
    now rewrite Httl. }
  split.
  - destruct Hop as [[dir Hdir] Hro], Hkey as (name & Hloc & Hlegal & Hentry).
    destruct (set_entry this k name d ttl w dir Hdir Hro Hloc Hlegal) as [lines Hw1].
    fold w1 in Hw1. rewrite Hw1, Hloc, Hdef.
    cbn [file_at with_disk disk mbind option_bind].
    rewrite lookup_insert_ne by now apply entry_file_not_metadata.
    now rewrite lookup_insert_eq.
  - intros Hwf Hser Hnow elapsed Hlater. unfold w1.
    rewrite (set_get this k d ttl elapsed w Hop Hkey Hwf); rewrite ?Hdef; auto.
Qed.

Lemma set_zero_ttl_uses_default_witness :
  file_at (snd (CacheManager.set sample_cache sample_key sample_ticker (Some (num 0))
                  fresh_world))
          (CacheManager.getCacheFilePath sample_cache sample_key)
  = Some (JSON.stringify2
            (CacheEntry.object
               {| CacheEntry.data := sample_ticker;
                  CacheEntry.timestamp := num 1700000000000;
                  CacheEntry.ttl := num 300000 |})) ∧
  fst (CacheManager.get sample_cache sample_key
         (elapse 299999
            (snd (CacheManager.set sample_cache sample_key sample_ticker (Some (num 0))
                    fresh_world))))
  = Return (J sample_ticker).
Proof.
  destruct (set_zero_ttl_uses_default sample_cache fresh_world sample_key sample_ticker
              (Some (num 0)) fresh_world_operational sample_key_is_cache_key eq_refl)
    as [Hfile Hlive].
  split; [exact Hfile |].
  refine (Hlive sample_ticker_wf _ _ 299999%N _); vm_compute; try reflexivity;
    split; discriminate.
Defined.

(** *** [getOrSet] *)

Lemma get_returns {E} (this : CacheManager.t) (key : string) (w : world E) :
  ∃ v, fst (CacheManager.get this key w) = Return v.
Proof. destruct (get_spec this key w) as [H _]. eauto. Qed.

Lemma get_purged {E} (this : CacheManager.t) (key : string) (w : world E) :
  logged (purged this key w) (snd (CacheManager.get this key w)).
Proof. apply get_spec. Qed.

Lemma getOrSet_hit {E} (this : CacheManager.t) (key : string) (p : producer E)
    (ttl : option number) (w : world E) (v : value) :
  fst (CacheManager.get this key w) = Return v → JS.is_null v = false →
  CacheManager.getOrSet this key p ttl w = (Return v, snd (CacheManager.get this key w)).
Proof.
  intros Hget Hv. unfold CacheManager.getOrSet, bind.
  destruct (CacheManager.get this key w) as [r w1]. cbn [fst snd] in *. subst r.
  now rewrite Hv.
Qed.

Lemma getOrSet_miss {E} (this : CacheManager.t) (key : string) (p : producer E)
    (ttl : option number) (w : world E) (r : outcome json) (e : E) (ms : N) :
  fst (CacheManager.get this key w) = Return null → p (ext w) = (r, e, ms) →
  let w2 := after_await (snd (CacheManager.get this key w)) key e ms in
  CacheManager.getOrSet this key p ttl w =
  match r with
  | Return result => (Return (J result), snd (CacheManager.set this key result ttl w2))
  | Throw error => (Throw error, w2)
  end.
Proof.
  intros Hget Hp w2. unfold CacheManager.getOrSet, bind.
  destruct (get_purged this key w) as (lines & Hw1).
  destruct (CacheManager.get this key w) as [r0 w1]. cbn [fst snd] in *. subst r0.
  cbn [JS.is_null negb]. unfold console_error, await.
  assert (Hext : ext w1 = ext (purged this key w)) by now rewrite Hw1.
  assert (Hext' : ext (purged this key w) = ext w).
  { unfold purged. destruct (entry_state_at _ _); try reflexivity.
    destruct (read_only w); [reflexivity |].
    now destruct (CacheManager.getCacheFilePath this key). }
  cbn [disk outside read_only clock console ext invoked]. rewrite Hext, Hext', Hp.
  subst w2. unfold after_await. cbn [disk outside read_only clock console ext invoked].
  destruct r as [result | error]; [| reflexivity].
  match goal with
  | |- context [CacheManager.set this key result ttl ?w3] =>
      pose proof (proj1 (set_spec this key result ttl w3)) as Hs;
      destruct (CacheManager.set this key result ttl w3) as [rs ws]
  end.
  cbn [fst snd] in *. now subst rs.
Qed.

Lemma purged_fields {E} (this : CacheManager.t) (key : string) (w : world E) :
  read_only (purged this key w) = read_only w ∧ clock (purged this key w) = clock w ∧
  ext (purged this key w) = ext w ∧ invoked (purged this key w) = invoked w ∧
  console (purged this key w) = console w ∧
  (is_Some (disk w) → is_Some (disk (purged this key w))).
Proof.
  unfold purged. destruct (entry_state_at _ _); try (repeat split; auto; fail).
  destruct (read_only w) eqn:Hro; [repeat split; auto |].
  destruct (CacheManager.getCacheFilePath this key); cbn; repeat split; auto.
  intros [d ->]. cbn. eauto.
Qed.

Lemma get_fields {E} (this : CacheManager.t) (key : string) (w : world E) :
  let w' := snd (CacheManager.get this key w) in
  read_only w' = read_only w ∧ clock w' = clock w ∧ ext w' = ext w ∧
  invoked w' = invoked w.
Proof.
  cbv zeta. destruct (logged_fields _ _ (get_purged this key w))
    as (_ & _ & -> & -> & -> & ->).
  destruct (purged_fields this key w) as (? & ? & ? & ? & _). auto.
Qed.

Lemma get_keeps_operational {E} (this : CacheManager.t) (key : string) (w : world E) :
  operational w → operational (snd (CacheManager.get this key w)).
Proof.
  intros [Hd Hro]. destruct (logged_fields _ _ (get_purged this key w))
    as (Hd' & _ & Hro' & _).
  destruct (purged_fields this key w) as (Hro2 & _ & _ & _ & _ & Hd2).
  split; [rewrite Hd'; auto | congruence].
Qed.

Lemma set_fields {E} (this : CacheManager.t) (key : string) (data : json)
    (ttl : option number) (w : world E) :
  let w' := snd (CacheManager.set this key data ttl w) in
  clock w' = clock w ∧ ext w' = ext w ∧ invoked w' = invoked w.
Proof.
  cbv zeta. destruct (set_spec this key data ttl w) as [_ Hw].
  apply logged_fields in Hw as (_ & _ & _ & -> & -> & ->).
  pose proof (writeFileSync_spec (CacheManager.getCacheFilePath this key)
                (entry_text data (num (clock w)) (CacheManager.ttl_or_default this ttl)) w)
    as Hwrite.
  destruct (writeFileSync _ _ w) as [[[]|err] w1]; cbn [fst snd] in Hwrite; [| auto].
  destruct Hwrite as [_ ->]. unfold with_metadata.
  destruct (CacheManager.getCacheFilePath this key), w as [[d|] o ro now con e inv];
    cbn; try destruct ro; cbn; auto.
Qed.

(** C3, as stated, fails for a producer that resolves with [null]: the cached
    [null] reads as a miss, and the second call invokes the producer again.
    It also fails for the key of a resource URI, which holds path
    separators: nothing is stored, and the second call invokes the producer
    again. *)
Lemma getOrSet_null_producer_runs_twice :
  fst (CacheManager.getOrSet sample_cache sample_key null_producer (Some (num 5000))
         counted_world)
  = Return null ∧
  fst (CacheManager.getOrSet sample_cache sample_key null_producer (Some (num 5000))
         (snd (CacheManager.getOrSet sample_cache sample_key null_producer
                 (Some (num 5000)) counted_world)))
  = Return null ∧
  invoked
    (snd (CacheManager.getOrSet sample_cache sample_key null_producer (Some (num 5000))
            (snd (CacheManager.getOrSet sample_cache sample_key null_producer
                    (Some (num 5000)) counted_world))))
  = 2%nat ∧
  invoked
    (snd (CacheManager.getOrSet sample_cache resource_key counting_producer
            (Some (num 5000))
            (snd (CacheManager.getOrSet sample_cache resource_key counting_producer
                    (Some (num 5000)) counted_world))))
  = 2%nat.
Proof. vm_compute. repeat split. Qed.

(** C3, amended.  On an operational cache, for a key that names an entry
    file, a finite TTL [T > 0] and a producer that resolves with a value
    other than [null]: a first [getOrSet] that misses invokes the producer
    once and has cached its result when it returns it; a second [getOrSet]
    at a time at which the age of the entry does not exceed [T] returns the
    same value and does not invoke the producer. *)
Theorem getOrSet_twice_invokes_once {E} (this : CacheManager.t) (w : world E)
    (k : string) (p : producer E) (T : number) (v : json) (e1 : E) (ms elapsed : N) :
  operational w → cache_key this k →
  Number.serializable T → Number.gt T (num 0) = true →
  fst (CacheManager.get this k w) = Return null →
  p (ext w) = (Return v, e1, ms) → wf_json v → v ≠ JNull →
  time_value (clock w + Z.of_N ms) →
  time_value (clock w + Z.of_N ms + Z.of_N elapsed) →
  Number.gt (num (Z.of_N elapsed)) T = false →
  let r1 := CacheManager.getOrSet this k p (Some T) w in
  let r2 := CacheManager.getOrSet this k p (Some T) (elapse elapsed (snd r1)) in
  (fst r1 = Return (J v) ∧ invoked (snd r1) = S (invoked w) ∧ ext (snd r1) = e1 ∧
   fst (CacheManager.get this k (snd r1)) = Return (J v)) ∧
  (fst r2 = Return (J v) ∧ invoked (snd r2) = S (invoked w) ∧ ext (snd r2) = e1).
Proof.
  intros Hop Hkey HT Hpos Hmiss Hp Hwf Hv Hnow Hlater Hel r1 r2.
  assert (HT' : CacheManager.ttl_or_default this (Some T) = T).
  { cbn [CacheManager.ttl_or_default]. now rewrite positive_truthy. }
  set (w2 := after_await (snd (CacheManager.get this k w)) k e1 ms).
  assert (Hr1 : r1 = (Return (J v), snd (CacheManager.set this k v (Some T) w2))).
  { exact (getOrSet_miss this k p (Some T) w _ e1 ms Hmiss Hp). }
  destruct (get_fields this k w) as (Hro1 & Hclock1 & _ & Hinv1).
  assert (Hop2 : operational w2).
  { destruct (get_keeps_operational this k w Hop) as [Hd Hro]. now split. }
  assert (Hclock2 : clock w2 = clock w + Z.of_N ms).
  { unfold w2. cbn [after_await clock]. now rewrite Hclock1. }
  destruct (set_fields this k v (Some T) w2) as (_ & Hext & Hinv).
  assert (Hcached : ∀ n : N,
            time_value (clock w + Z.of_N ms + Z.of_N n) →
            Number.gt (num (Z.of_N n)) T = false →
            fst (CacheManager.get this k (elapse n (snd r1))) = Return (J v)).
  { intros n Htime Hn. rewrite Hr1. cbn [snd].
    rewrite (set_get this k v (Some T) n w2 Hop2 Hkey Hwf); rewrite ?HT', ?Hclock2;
      try assumption.
    unfold JS.gt. now rewrite Hn. }
  split.
  - rewrite Hr1. cbn [fst snd]. rewrite Hinv, Hext. unfold w2 at 1 2.
    cbn [after_await invoked ext]. repeat split; [congruence |].
    specialize (Hcached 0%N). rewrite elapse_zero, Hr1 in Hcached. apply Hcached.
    + now rewrite Z.add_0_r.
    + now apply positive_not_below_zero.
  - assert (Hr2 : r2 = (Return (J v),
                        snd (CacheManager.get this k (elapse elapsed (snd r1))))).
    { apply getOrSet_hit; [now apply Hcached |]. now destruct v. }
    rewrite Hr2. cbn [fst snd].
    destruct (get_fields this k (elapse elapsed (snd r1))) as (_ & _ & Hext2 & Hinv2).
    rewrite Hinv2, Hext2, Hr1. cbn [elapse snd invoked ext].
    rewrite Hinv, Hext. unfold w2. cbn [after_await invoked ext]. repeat split. congruence.
Qed.

Lemma getOrSet_twice_invokes_once_witness :
  fst (CacheManager.getOrSet sample_cache sample_key counting_producer (Some (num 5000))
         counted_world)
  = Return (J (JNum (num 0))) ∧
  fst (CacheManager.getOrSet sample_cache sample_key counting_producer (Some (num 5000))
         (elapse 4000
            (snd (CacheManager.getOrSet sample_cache sample_key counting_producer
                    (Some (num 5000)) counted_world))))
  = Return (J (JNum (num 0))) ∧
  ext (snd (CacheManager.getOrSet sample_cache sample_key counting_producer
              (Some (num 5000))
         (elapse 4000
            (snd (CacheManager.getOrSet sample_cache sample_key counting_producer
                    (Some (num 5000)) counted_world)))))
  = 1%nat.
Proof.
  assert (Hop : operational counted_world) by (split; [eexists |]; reflexivity).
  assert (Hmiss : fst (CacheManager.get sample_cache sample_key counted_world) = Return null)
    by (vm_compute; reflexivity).
  assert (H0 : wf_json (JNum (num 0))) by (vm_compute; reflexivity).
  assert (HT : Number.serializable (num 5000)) by (vm_compute; reflexivity).
  assert (Hnow : time_value (1700000000000 + 3)) by (vm_compute; split; discriminate).
  assert (Hlater : time_value (1700000000000 + 3 + 4000))
    by (vm_compute; split; discriminate).
  destruct (getOrSet_twice_invokes_once sample_cache counted_world sample_key
              counting_producer (num 5000) (JNum (num 0)) 1%nat 3 4000 Hop
              sample_key_is_cache_key HT eq_refl Hmiss eq_refl H0 ltac:(discriminate)
              Hnow Hlater eq_refl)
    as [(H1 & _) (H2 & _ & H3)].
  repeat split; assumption.
Defined.

Lemma get_depends {E} (this : CacheManager.t) (key : string) (w w' : world E) :
  clock w' = clock w →
  file_at w' (CacheManager.getCacheFilePath this key)
  = file_at w (CacheManager.getCacheFilePath this key) →
  fst (CacheManager.get this key w') = fst (CacheManager.get this key w).
Proof.
  intros Hclock Hfile. destruct (get_spec this key w') as [-> _].
  destruct (get_spec this key w) as [-> _]. now rewrite Hclock, Hfile.
Qed.

Lemma file_at_without_ne {E} (l l' : location) (w : world E) :
  l' ≠ l → file_at (without_file l w) l' = file_at w l'.
Proof.
  intros Hne. destruct l as [name | path], l' as [name' | path'];
    destruct w as [[d|] o ro now con e inv];
    cbn [without_file file_at with_disk with_outside disk outside fmap option_fmap
         option_map mbind option_bind]; try reflexivity.
  - rewrite lookup_delete_ne by congruence. reflexivity.
  - rewrite lookup_insert_ne by congruence. reflexivity.
  - rewrite lookup_insert_ne by congruence. reflexivity.
Qed.

(** C4. When [getOrSet] misses and the producer rejects, the call throws
    that very error and writes nothing.  The world afterwards is the world
    before, with the time the producer took, its effect on the collaborator
    and lines on the console, and without the file of the key if that held
    an expired entry, which the initial [get] purges: every other file is as
    it was, and the file of the key is as it was or was an expired entry and
    is gone, so that the key reads as a miss afterwards as it did before.
    Every key reads afterwards as it would have read at that time had the
    call not been made, the purged key apart, which reads as a miss. *)
Theorem getOrSet_producer_failure {E} (this : CacheManager.t) (w : world E)
    (k : string) (p : producer E) (ttl : option number) (error : exn) (e1 : E) (ms : N) :
  fst (CacheManager.get this k w) = Return null →
  p (ext w) = (Throw error, e1, ms) →
  let file := CacheManager.getCacheFilePath this k in
  let r := CacheManager.getOrSet this k p ttl w in
  fst r = Throw error ∧
  (∃ lines,
     snd r = World (disk (purged this k w)) (outside (purged this k w)) (read_only w)
                   (clock w + Z.of_N ms) (console w ++ lines) e1 (S (invoked w))) ∧
  (∀ l, l ≠ file → file_at (snd r) l = file_at w l) ∧
  (file_at (snd r) file = file_at w file ∨
   entry_state_at (num (clock w)) (file_at w file) = Expired ∧
   file_at (snd r) file = None) ∧
  (∀ k',
     fst (CacheManager.get this k' (snd r))
     = fst (CacheManager.get this k' (elapse ms w)) ∨
     CacheManager.getCacheFilePath this k' = file ∧
     entry_state_at (num (clock w)) (file_at w file) = Expired ∧
     fst (CacheManager.get this k' (snd r)) = Return null).
Proof.
  intros Hmiss Hp file r.
  assert (Hr : r = (Throw error, after_await (snd (CacheManager.get this k w)) k e1 ms)).
  { exact (getOrSet_miss this k p ttl w _ e1 ms Hmiss Hp). }
  destruct (get_purged this k w) as [lines Hw1].
  destruct (purged_fields this k w) as (Hro & Hclock & Hext & Hinv & Hcon & _).
  rewrite Hr, Hw1. unfold after_await.
  cbn [fst snd disk outside read_only clock console ext invoked].
  rewrite Hro, Hclock, Hinv, Hcon.
  assert (Hfiles : ∀ l, file_at
             (World (disk (purged this k w)) (outside (purged this k w)) (read_only w)
                (clock w + Z.of_N ms)
                ((console w ++ lines) ++
                   [Log ("[DEBUG] Executing operation for cache key: " +:+ k)])
                e1 (S (invoked w))) l
           = file_at (purged this k w) l) by (intros [?|?]; reflexivity).
  split; [reflexivity |]. split; [eexists; now rewrite <- app_assoc |].
  unfold purged in *. fold file in Hfiles |- *.
  destruct (entry_state_at (num (clock w)) (file_at w file)) eqn:Hstate;
    try (split; [intros l _; apply Hfiles |];
         split; [left; apply Hfiles |];
         intros k'; left; apply get_depends; [reflexivity | apply Hfiles]).
  destruct (read_only w);
    try (split; [intros l _; apply Hfiles |];
         split; [left; apply Hfiles |];
         intros k'; left; apply get_depends; [reflexivity | apply Hfiles]).
  split; [| split].
  - intros l Hl. rewrite Hfiles. now apply file_at_without_ne.
  - right. split; [reflexivity |]. rewrite Hfiles. apply file_at_without.
  - intros k'.
    destruct (decide (CacheManager.getCacheFilePath this k' = file)) as [Heq | Hne].
    + right. split; [exact Heq |]. split; [reflexivity |].
      match goal with
      | |- fst (CacheManager.get this k' ?w') = _ =>
          destruct (get_spec this k' w') as [-> _]
      end.
      now rewrite Hfiles, Heq, file_at_without.
    + left. apply get_depends; [reflexivity |].
      rewrite Hfiles, file_at_without_ne by exact Hne.
      now destruct (CacheManager.getCacheFilePath this k').
Qed.

Lemma getOrSet_producer_failure_witness :
  fst (CacheManager.getOrSet sample_cache sample_key failing_producer (Some (num 5000))
         stale_world)
  = Throw (Error "exchange unavailable") ∧
  file_at (snd (CacheManager.getOrSet sample_cache sample_key failing_producer
                  (Some (num 5000)) stale_world))
          (Inside "tool_fetchTicker_9f2c.json")
  = None.
Proof.
  destruct (getOrSet_producer_failure sample_cache stale_world sample_key failing_producer
              (Some (num 5000)) (Error "exchange unavailable") 1%nat 7)
    as (Hthrow & _ & _ & Hfile & _).
  - vm_compute. reflexivity.
  - reflexivity.
  - split; [exact Hthrow |]. destruct Hfile as [Hsame | [_ Hgone]]; [| exact Hgone].
    exfalso. revert Hsame. vm_compute. discriminate.
Defined.

(** C9, as stated, fails: a live entry whose data is [null] reads exactly as
    a key with no entry, and [getOrSet] invokes the producer for it. *)
Lemma null_entry_reads_as_miss :
  fst (CacheManager.get sample_cache sample_key null_entry_world) = Return null ∧
  fst (CacheManager.get sample_cache "tool_fetchTicker_0000" null_entry_world) = Return null ∧
  invoked (snd (CacheManager.getOrSet sample_cache sample_key counting_producer
                  (Some (num 5000)) null_entry_world)) = 1%nat.
Proof. vm_compute. repeat split. Qed.

(** C9, amended.  A miss is a normal return: for a key with no file, and
    for a key whose entry has expired, [get] returns [null].  For a key
    holding a live entry [get] returns its data; when the data is not
    [null], [getOrSet] returns it without invoking the producer and leaves
    the world as [get] does; when the data is [null], [get] returns [null] as
    on a miss and [getOrSet] invokes the producer. *)
Theorem live_entry_is_a_hit_unless_null {E} (this : CacheManager.t) (w : world E)
    (k : string) (p : producer E) (ttl : option number) :
  let file := CacheManager.getCacheFilePath this k in
  (file_at w file = None → fst (CacheManager.get this k w) = Return null) ∧
  (∀ content entry ts t data,
     file_at w file = Some content →
     JSON.parse content = Some entry →
     JS.get_property entry "timestamp" = Some ts →
     JS.get_property entry "ttl" = Some t →
     JS.get_property entry "data" = Some data →
     let expired := JS.gt (JS.sub (num (clock w)) (JS.to_number ts)) (JS.to_number t) in
     (expired = true → fst (CacheManager.get this k w) = Return null) ∧
     (expired = false →
        fst (CacheManager.get this k w) = Return data ∧
        (data ≠ null →
           CacheManager.getOrSet this k p ttl w
           = (Return data, snd (CacheManager.get this k w)) ∧
           invoked (snd (CacheManager.getOrSet this k p ttl w)) = invoked w) ∧
        (data = null →
           invoked (snd (CacheManager.getOrSet this k p ttl w)) = S (invoked w)))).
Proof.
  intros file. split.
  - intros Hnone. destruct (get_spec this k w) as [Hr _]. fold file in Hr.
    now rewrite Hnone in Hr.
  - intros content entry ts t data Hfile Hparse Hts Httl Hdata expired.
    pose proof (get_entry this w k content entry ts t data Hfile Hparse Hts Httl Hdata)
      as H.
    cbv zeta in H. fold expired in H. split.
    + intros Hexp. rewrite Hexp in H. apply H.
    + intros Hlive. rewrite Hlive in H. destruct H as [Hget Hw].
      split; [exact Hget |].
      destruct (get_fields this k w) as (_ & _ & _ & Hinv). split.
      * intros Hnot.
        assert (Hhit : CacheManager.getOrSet this k p ttl w
                       = (Return data, snd (CacheManager.get this k w))).
        { apply getOrSet_hit; [exact Hget |].
          destruct data as [|[]]; try reflexivity. congruence. }
        split; [exact Hhit |]. rewrite Hhit. exact Hinv.
      * intros Hnull. rewrite Hnull in Hget.
        destruct (p (ext w)) as [[r e1] ms] eqn:Hp.
        rewrite (getOrSet_miss this k p ttl w r e1 ms Hget Hp).
        destruct r as [result | error]; cbn [snd].
        -- destruct (set_fields this k result ttl
                       (after_await (snd (CacheManager.get this k w)) k e1 ms))
             as (_ & _ & ->).
           cbn [after_await invoked]. now rewrite Hinv.
        -- cbn [after_await invoked]. now rewrite Hinv.
Qed.

Lemma live_entry_is_a_hit_unless_null_witness :
  fst (CacheManager.get sample_cache "tool_fetchTicker_0000" live_entry_world)
  = Return null ∧
  fst (CacheManager.get sample_cache sample_key live_entry_world)
  = Return (J (JNum last_price)) ∧
  invoked (snd (CacheManager.getOrSet sample_cache sample_key counting_producer
                  (Some (num 5000)) live_entry_world)) = 0%nat.
Proof.
  split.
  - refine (proj1 (live_entry_is_a_hit_unless_null sample_cache live_entry_world
                     "tool_fetchTicker_0000" counting_producer (Some (num 5000))) _).
    vm_compute. reflexivity.
  - destruct (proj2 (live_entry_is_a_hit_unless_null sample_cache live_entry_world
                       sample_key counting_producer (Some (num 5000)))
                (entry_text (JNum last_price) (num 1700000000000) (num 5000))
                (JObj [("data", JNum last_price); ("timestamp", JNum (num 1700000000000));
                       ("ttl", JNum (num 5000))])
                (J (JNum (num 1700000000000))) (J (JNum (num 5000))) (J (JNum last_price)))
      as [_ Hlive]; try (vm_compute; reflexivity).
    destruct Hlive as (Hget & Hhit & _); [vm_compute; reflexivity |].
    split; [exact Hget |]. apply Hhit. discriminate.
Defined.

(** *** [cleanup], [clear] and [getStats] *)

Lemma lookup_without (fs : list string) (d : gmap string string) (f : string) :
  without fs d !! f = if bool_decide (f ∈ fs) then None else d !! f.
Proof.
  induction fs as [|x fs IH]; cbn [without foldr].
  - rewrite bool_decide_eq_false_2 by apply not_elem_of_nil. reflexivity.
  - fold (without fs d). destruct (decide (x = f)) as [-> | Hne].
    + rewrite lookup_delete_eq, bool_decide_eq_true_2 by left. reflexivity.
    + rewrite lookup_delete_ne, IH by exact Hne.
      destruct (decide (f ∈ fs)) as [Hin | Hnin].
      * rewrite !bool_decide_eq_true_2 by (try right; assumption). reflexivity.
      * rewrite !bool_decide_eq_false_2; [reflexivity | | exact Hnin].
        rewrite elem_of_cons. intros [-> | ?]; [congruence | contradiction].
Qed.

Lemma without_delete (fs : list string) (d : gmap string string) (f : string) :
  without fs (delete f d) = delete f (without fs d).
Proof.
  induction fs as [|x fs IH]; cbn [without foldr]; [reflexivity |].
  fold (without fs (delete f d)) (without fs d). rewrite IH. apply delete_delete.
Qed.

Lemma filter_ext_elem {A} (f g : A → bool) (l : list A) :
  (∀ x, x ∈ l → f x = g x) → List.filter f l = List.filter g l.
Proof.
  intros H. apply List.filter_ext_in. intros x Hx. apply H. now apply list_elem_of_In.
Qed.

(** One turn of the loop of [cleanup] on a file that exists. *)
Lemma cleanup_file_step {E} (now : number) (cnt : Z) (f content : string)
    (d : gmap string string) (o : gmap string node) (clk : Z) (con : list log_line)
    (e : E) (inv : nat) :
  d !! f = Some content →
  ∃ lines,
    CacheManager.cleanup_file now cnt f (World (Some d) o false clk con e inv) =
    (Return (if swept now d f then cnt + 1 else cnt),
     World (Some (if swept now d f then delete f d else d)) o false clk
           (con ++ lines) e inv).
Proof.
  intros Hf. unfold swept, CacheManager.cleanup_file. rewrite Hf.
  destruct (CacheManager.is_entry_file f); cbn [andb].
  2: { exists []. now rewrite app_nil_r. }
  unfold entry_state_at. run.
  destruct (JSON.parse content) as [entry|] eqn:Hparse; run.
  2: { eexists. reflexivity. }
  destruct entry as [| b | n | s | items | ms]; cbn [JS.get_property]; run.
  1: { eexists. reflexivity. }
  all: match goal with
       | |- context [JS.gt ?a ?b] => destruct (JS.gt a b) eqn:Hgt
       end; run; cbn [stale]; exists []; now rewrite app_nil_r.
Qed.

Lemma cleanup_loop {E} (now : number) (o : gmap string node) (l : list string) :
  NoDup l →
  ∀ (d : gmap string string) (cnt clk : Z) (con : list log_line) (e : E) (inv : nat),
    (∀ f, f ∈ l → is_Some (d !! f)) →
    ∃ lines,
      for_of l cnt (CacheManager.cleanup_file now) (World (Some d) o false clk con e inv) =
      (Return (cnt + Z.of_nat (length (List.filter (swept now d) l))),
       World (Some (without (List.filter (swept now d) l) d)) o false clk
             (con ++ lines) e inv).
Proof.
  induction 1 as [|f l Hf Hl IH]; intros d cnt clk con e inv Hall.
  - exists []. cbn. now rewrite Z.add_0_r, app_nil_r.
  - destruct (Hall f ltac:(left)) as [content Hcontent].
    destruct (cleanup_file_step now cnt f content d o clk con e inv Hcontent)
      as [lines1 Hstep].
    cbn [for_of]. unfold bind at 1. rewrite Hstep.
    set (d1 := if swept now d f then delete f d else d).
    assert (Hd1 : ∀ f', f' ∈ l → d1 !! f' = d !! f').
    { intros f' Hin. unfold d1. destruct (swept now d f); [| reflexivity].
      apply lookup_delete_ne. intros ->. contradiction. }
    destruct (IH d1 (if swept now d f then cnt + 1 else cnt) clk (con ++ lines1)%list e inv)
      as [lines2 Hrest].
    { intros f' Hin. rewrite (Hd1 f' Hin). apply Hall. now right. }
    rewrite Hrest.
    assert (Hsame : List.filter (swept now d1) l = List.filter (swept now d) l).
    { apply filter_ext_elem. intros f' Hin. unfold swept. now rewrite (Hd1 f' Hin). }
    rewrite Hsame. exists (lines1 ++ lines2)%list. cbn [List.filter].
    unfold d1. destruct (swept now d f); cbn [length without foldr];
      rewrite <- app_assoc, ?without_delete;
      f_equal; first [reflexivity | f_equal; lia].
Qed.

Lemma clear_loop {E} (o : gmap string node) (l : list string) :
  NoDup l →
  ∀ (d : gmap string string) (cnt clk : Z) (con : list log_line) (e : E) (inv : nat),
    (∀ f, f ∈ l → is_Some (d !! f)) →
    for_of l cnt CacheManager.clear_file (World (Some d) o false clk con e inv) =
    (Return (cnt + Z.of_nat (length (List.filter CacheManager.is_entry_file l))),
     World (Some (without (List.filter CacheManager.is_entry_file l) d)) o false clk con e inv).
Proof.
  induction 1 as [|f l Hf Hl IH]; intros d cnt clk con e inv Hall.
  - cbn. now rewrite Z.add_0_r.
  - destruct (Hall f ltac:(left)) as [content Hcontent].
    cbn [for_of List.filter]. unfold bind at 1, CacheManager.clear_file at 1.
    destruct (CacheManager.is_entry_file f); run.
    + rewrite IH.
      * cbn [length without foldr]. fold (without (List.filter CacheManager.is_entry_file l) d).
        rewrite without_delete. f_equal. f_equal. lia.
      * intros f' Hin. rewrite lookup_delete_ne by (intros ->; contradiction).
        apply Hall. now right.
    + apply IH. intros f' Hin. apply Hall. now right.
Qed.

Lemma names_spec (d : gmap string string) (f : string) :
  f ∈ names d ↔ is_Some (d !! f).
Proof. unfold names. now rewrite elem_of_elements, elem_of_dom. Qed.

Lemma names_NoDup (d : gmap string string) : NoDup (names d).
Proof. unfold names. apply NoDup_elements. Qed.

Lemma lookup_swept (now : number) (d : gmap string string) (file : string) :
  without (List.filter (swept now d) (names d)) d !! file
  = if swept now d file then None else d !! file.
Proof.
  rewrite lookup_without. destruct (swept now d file) eqn:Hs.
  - destruct (d !! file) eqn:Hf.
    + rewrite bool_decide_eq_true_2; [reflexivity |].
      apply list_elem_of_In, List.filter_In. split; [| exact Hs].
      apply list_elem_of_In, names_spec. eauto.
    + now destruct (bool_decide _).
  - rewrite bool_decide_eq_false_2; [reflexivity |].
    rewrite list_elem_of_In, List.filter_In. intros [_ ?]. congruence.
Qed.

Lemma lookup_cleared (d : gmap string string) (file : string) :
  without (List.filter CacheManager.is_entry_file (names d)) d !! file
  = if CacheManager.is_entry_file file then None else d !! file.
Proof.
  rewrite lookup_without. destruct (CacheManager.is_entry_file file) eqn:Hs.
  - destruct (d !! file) eqn:Hf.
    + rewrite bool_decide_eq_true_2; [reflexivity |].
      apply list_elem_of_In, List.filter_In. split; [| exact Hs].
      apply list_elem_of_In, names_spec. eauto.
    + now destruct (bool_decide _).
  - rewrite bool_decide_eq_false_2; [reflexivity |].
    rewrite list_elem_of_In, List.filter_In. intros [_ ?]. congruence.
Qed.

Lemma cleanup_spec {E} (this : CacheManager.t) (w : world E) (d : gmap string string) :
  disk w = Some d → read_only w = false →
  let removed := List.filter (swept (num (clock w)) d) (names d) in
  let n := Z.of_nat (length removed) in
  let d1 := without removed d in
  ∃ warnings,
    CacheManager.cleanup this w =
    (Return tt,
     World (Some (if 0 <? n
                  then <[".metadata.json" := metadata_text d1 (num (clock w))]> d1
                  else d1))
           (outside w) false (clock w)
           (console w ++ warnings ++
              (if 0 <? n
               then [Log ("[INFO] Cache cleanup: " +:+ dec n +:+ " expired entries deleted")]
               else []))
           (ext w) (invoked w)).
Proof.
  intros Hd Hro removed n d1.
  destruct w as [d0 o ro now con e inv].
  cbn [disk outside read_only clock console ext invoked] in *.
  subst d0 ro. unfold CacheManager.cleanup. run. fold (names d).
  destruct (cleanup_loop (num now) o (names d) (names_NoDup d) d 0 now con e inv)
    as [warnings Hloop].
  { intros f. apply names_spec. }
  rewrite Hloop. fold removed d1. rewrite Z.add_0_l. fold n.
  exists warnings. destruct (0 <? n); run; [| now rewrite app_nil_r].
  rewrite updateMetadata_ok. now rewrite <- app_assoc.
Qed.

Lemma clear_spec {E} (this : CacheManager.t) (w : world E) (d : gmap string string) :
  disk w = Some d → read_only w = false →
  let removed := List.filter CacheManager.is_entry_file (names d) in
  let n := Z.of_nat (length removed) in
  let d1 := without removed d in
  CacheManager.clear this w =
  (Return tt,
   World (Some (<[".metadata.json" := metadata_text d1 (num (clock w))]> d1))
         (outside w) false (clock w)
         (console w ++ [Log ("[INFO] Cache cleared: " +:+ dec n +:+ " entries deleted")])
         (ext w) (invoked w)).
Proof.
  intros Hd Hro removed n d1.
  destruct w as [d0 o ro now con e inv].
  cbn [disk outside read_only clock console ext invoked] in *.
  subst d0 ro. unfold CacheManager.clear. run. fold (names d).
  rewrite (clear_loop o (names d) (names_NoDup d) d 0 now con e inv)
    by (intros f; apply names_spec).
  fold removed d1. rewrite Z.add_0_l. fold n. run.
  now rewrite updateMetadata_ok.
Qed.

Lemma filter_none {A} (f : A → bool) (l : list A) :
  (∀ x, x ∈ l → f x = false) → List.filter f l = [].
Proof.
  induction l as [|x l IH]; intros H; [reflexivity |]. cbn.
  rewrite (H x) by left. apply IH. intros y Hy. apply H. now right.
Qed.

Lemma getStats_spec {E} (this : CacheManager.t) (w : world E) (d : gmap string string) :
  disk w = Some d →
  CacheManager.getStats this w =
  (Return {| Stats.totalEntries :=
               Z.of_nat (length (List.filter CacheManager.is_entry_file (names d)));
             Stats.cacheDir := CacheManager.cacheDir this;
             Stats.defaultTTL := CacheManager.defaultTTL this |}, w).
Proof.
  destruct w as [d0 o ro now con e inv]. cbn [disk]. intros ->.
  unfold CacheManager.getStats. run. reflexivity.
Qed.

Lemma no_entry_after_clear (d : gmap string string) (text : string) :
  List.filter CacheManager.is_entry_file
    (names (<[".metadata.json" := text]>
              (without (List.filter CacheManager.is_entry_file (names d)) d))) = [].
Proof.
  apply filter_none. intros f Hf. apply names_spec in Hf.
  destruct (decide (".metadata.json" = f)) as [<- | Hne]; [reflexivity |].
  rewrite lookup_insert_ne, lookup_cleared in Hf by exact Hne.
  destruct (CacheManager.is_entry_file f); [| reflexivity]. now destruct Hf.
Qed.




(** C8, as stated, fails: [clear] returns nothing.  On a directory with two
    entries left it removes both and returns no count. *)
Lemma clear_returns_no_count :
  fst (CacheManager.getStats sample_cache (snd (CacheManager.cleanup sample_cache sweep_world)))
  = Return (stats_of 2) ∧
  fst (CacheManager.clear sample_cache (snd (CacheManager.cleanup sample_cache sweep_world)))
  = Return tt ∧
  fst (CacheManager.getStats sample_cache
         (snd (CacheManager.clear sample_cache (snd (CacheManager.cleanup sample_cache sweep_world)))))
  = Return (stats_of 0).
Proof. vm_compute. repeat split. Qed.

(** C8, amended.  On an operational cache directory [clear] returns no
    value; it removes every entry file (every file whose name ends in
    [.json], the metadata file apart), leaves the other files untouched,
    rewrites the metadata file, and reports the number of entries removed on
    the console; [getStats().totalEntries] is 0 afterwards. *)
Theorem clear_removes_every_entry {E} (this : CacheManager.t) (w : world E)
    (d : gmap string string) :
  disk w = Some d → read_only w = false →
  let r := CacheManager.clear this w in
  let n := Z.of_nat (length (List.filter CacheManager.is_entry_file (names d))) in
  fst r = Return tt ∧
  (∃ d', disk (snd r) = Some d' ∧
     ∀ file, file ≠ ".metadata.json" →
       d' !! file = if CacheManager.is_entry_file file then None else d !! file) ∧
  console (snd r)
  = (console w ++ [Log ("[INFO] Cache cleared: " +:+ dec n +:+ " entries deleted")])%list ∧
  fst (CacheManager.getStats this (snd r))
  = Return {| Stats.totalEntries := 0;
              Stats.cacheDir := CacheManager.cacheDir this;
              Stats.defaultTTL := CacheManager.defaultTTL this |}.
Proof.
  intros Hd Hro r n. unfold r. rewrite (clear_spec this w d Hd Hro).
  cbn [fst snd disk console]. repeat split.
  - eexists. split; [reflexivity |]. intros file Hfile.
    rewrite lookup_insert_ne by congruence. apply lookup_cleared.
  - erewrite getStats_spec by reflexivity. now rewrite no_entry_after_clear.
Qed.

Lemma clear_removes_every_entry_witness :
  fst (CacheManager.clear sample_cache sweep_world) = Return tt ∧
  console (snd (CacheManager.clear sample_cache sweep_world))
  = [Log ("[INFO] Cache cleared: " +:+ dec 5 +:+ " entries deleted")] ∧
  fst (CacheManager.getStats sample_cache (snd (CacheManager.clear sample_cache sweep_world)))
  = Return (stats_of 0).
Proof.
  destruct (clear_removes_every_entry sample_cache sweep_world sweep_dir eq_refl eq_refl)
    as (Hr & _ & Hlog & Hstats).
  split; [exact Hr |]. split; [| exact Hstats].
  etransitivity; [exact Hlog |]. vm_compute. reflexivity.
Defined.

(** *** The test script, and [generateCacheKey] *)


(** C6, as stated, fails: the two mappings hold the same pairs, and the keys
    differ with the order in which [exchangeId] and [symbol] were inserted. *)
Lemma generateCacheKey_insertion_order :
  (∀ name, JS.assoc name ticker_params = JS.assoc name ticker_params_swapped) ∧
  CacheManager.generateCacheKey "tool" "fetchTicker" (Some ticker_params)
  = "tool_fetchTicker_1c0b573227fdc4288d6c2dd81a85802651a4eaf996fb63e0a8b9ccc488e305f5" ∧
  CacheManager.generateCacheKey "tool" "fetchTicker" (Some ticker_params_swapped)
  = "tool_fetchTicker_20f84d991caca3dd1b9e82c1f0449d707c946ba90402e5eeef5822d669274e20".
Proof.
  split; [| split; vm_compute; reflexivity].
  intros name. change ticker_params with
    [("exchangeId", JStr "binance"); ("symbol", JStr "BTC/USDT")].
  change ticker_params_swapped with
    [("symbol", JStr "BTC/USDT"); ("exchangeId", JStr "binance")].
  cbn [JS.assoc].
  destruct (String.eqb_spec "exchangeId" name) as [<- | _]; [reflexivity |].
  reflexivity.
Qed.

Lemma dataToHash_params (namespace identifier : string) (params : list (string * json)) :
  JSON.stringify
    (JObj (object_of
       [("namespace", JStr namespace);
        ("identifier", JStr identifier);
        ("params", JObj params)]))
  = JSON.enclose "{" "}" "" ""
      [JSON.quote "namespace" +:+ ":" +:+ JSON.quote namespace;
       JSON.quote "identifier" +:+ ":" +:+ JSON.quote identifier;
       JSON.quote "params" +:+ ":" +:+ JSON.stringify (JObj params)].
Proof. reflexivity. Qed.

(** C6, amended.  The key is determined by the namespace, the identifier
    and the serialized form of the parameters: two mappings with the same
    [JSON.stringify] text (the same pairs enumerated in the same order) get
    the same key.  Mappings that differ in the insertion order of keys that
    are not array indices serialize differently. *)
Theorem generateCacheKey_by_serialized_params (namespace identifier : string)
    (params1 params2 : list (string * json)) :
  JSON.stringify (JObj params1) = JSON.stringify (JObj params2) →
  CacheManager.generateCacheKey namespace identifier (Some params1)
  = CacheManager.generateCacheKey namespace identifier (Some params2).
Proof.
  intros Hsame. unfold CacheManager.generateCacheKey.
  now rewrite !dataToHash_params, Hsame.
Qed.

Lemma generateCacheKey_by_serialized_params_witness :
  JSON.stringify (JObj indexed_params) = JSON.stringify (JObj indexed_params_swapped) ∧
  CacheManager.generateCacheKey "tool" "fetchOHLCV" (Some indexed_params)
  = CacheManager.generateCacheKey "tool" "fetchOHLCV" (Some indexed_params_swapped).
Proof.
  assert (H : JSON.stringify (JObj indexed_params)
              = JSON.stringify (JObj indexed_params_swapped))
    by (vm_compute; reflexivity).
  split; [exact H |].
  exact (generateCacheKey_by_serialized_params "tool" "fetchOHLCV" _ _ H).
Defined.

(** *** [delete], and what an operation on one key does to the others *)

Lemma delete_spec {E} (this : CacheManager.t) (key : string) (w : world E) :
  let file := CacheManager.getCacheFilePath this key in
  fst (CacheManager.delete this key w) = Return tt ∧
  logged
    (match file_at w file with
     | Some _ => if read_only w then w else without_file file w
     | None => w
     end)
    (snd (CacheManager.delete this key w)).
Proof.
  assert (Hsame : ∀ w0 : world E, logged w0 w0) by apply logged_refl.
  destruct w as [d o ro now con e inv]. unfold CacheManager.delete.
  destruct (CacheManager.getCacheFilePath this key) as [name | path]; cbv zeta.
  - destruct d as [d|]; run; [| now split].
    destruct (d !! name) as [content|] eqn:Hfile; run; [| now split].
    unfold without_file. destruct ro; run; done_logged.
  - run. destruct (has_nul path) eqn:Hnul; run; [now split |].
    destruct (o !! path) as [[content | |]|] eqn:Hfile; run;
      try (now split); try done_logged.
    unfold without_file. destruct ro; run; done_logged.
Qed.

Lemma file_at_with_metadata {E} (l : location) (w : world E) :
  l ≠ Inside ".metadata.json" → file_at (with_metadata w) l = file_at w l.
Proof.
  intros Hl. unfold with_metadata. destruct w as [[d|] o ro now con e inv];
    cbn [disk read_only]; [| reflexivity].
  destruct ro; [reflexivity |]. destruct l as [name | path]; [| reflexivity].
  cbn [file_at with_disk disk mbind option_bind].
  rewrite lookup_insert_ne by congruence. reflexivity.
Qed.

Lemma file_at_written {E} (l l' : location) (text : string) (w : world E) :
  l' ≠ l → file_at (snd (writeFileSync l text w)) l' = file_at w l'.
Proof.
  intros Hne. pose proof (writeFileSync_spec l text w) as H.
  destruct (fst (writeFileSync l text w)); [| now rewrite H].
  destruct H as [_ ->].
  destruct l as [name | path], l' as [name' | path'], w as [[d|] o ro now con e inv];
    cbn [file_at with_disk with_outside disk outside fmap option_fmap option_map
         mbind option_bind]; try reflexivity;
    rewrite lookup_insert_ne by congruence; reflexivity.
Qed.

Lemma set_frame {E} (this : CacheManager.t) (key : string) (data : json)
    (ttl : option number) (w : world E) (l : location) :
  l ≠ CacheManager.getCacheFilePath this key → l ≠ Inside ".metadata.json" →
  file_at (snd (CacheManager.set this key data ttl w)) l = file_at w l.
Proof.
  intros Hfile Hmeta. destruct (set_spec this key data ttl w) as [_ Hw].
  rewrite (file_at_logged _ _ _ Hw).
  pose proof (file_at_written (CacheManager.getCacheFilePath this key) l
                (entry_text data (num (clock w)) (CacheManager.ttl_or_default this ttl))
                w Hfile) as Hwrite.
  destruct (writeFileSync _ _ w) as [[[]|err] w1]; cbn [snd] in Hwrite; [| reflexivity].
  now rewrite file_at_with_metadata.
Qed.

(** [delete] leaves every other file as it was. *)
Lemma delete_frame {E} (this : CacheManager.t) (key : string) (w : world E) (l : location) :
  l ≠ CacheManager.getCacheFilePath this key →
  file_at (snd (CacheManager.delete this key w)) l = file_at w l.
Proof.
  intros Hl. destruct (delete_spec this key w) as [_ Hw].
  rewrite (file_at_logged _ _ _ Hw).
  destruct (file_at w (CacheManager.getCacheFilePath this key)); [| reflexivity].
  destruct (read_only w); [reflexivity |]. now apply file_at_without_ne.
Qed.

(** After [delete] the key has no file, when the file system accepts the
    removal. *)
Lemma delete_gone {E} (this : CacheManager.t) (key : string) (w : world E) :
  read_only w = false →
  file_at (snd (CacheManager.delete this key w)) (CacheManager.getCacheFilePath this key)
  = None.
Proof.
  intros Hro. destruct (delete_spec this key w) as [_ Hw].
  rewrite (file_at_logged _ _ _ Hw), Hro.
  destruct (file_at w (CacheManager.getCacheFilePath this key)) eqn:Hfile;
    [apply file_at_without | exact Hfile].
Qed.

(** [delete] changes neither the clock nor the collaborator. *)
Lemma delete_fields {E} (this : CacheManager.t) (key : string) (w : world E) :
  let w' := snd (CacheManager.delete this key w) in
  clock w' = clock w ∧ ext w' = ext w ∧ invoked w' = invoked w.
Proof.
  cbv zeta. destruct (delete_spec this key w) as [_ Hw].
  apply logged_fields in Hw as (_ & _ & _ & -> & -> & ->).
  destruct (file_at w _); [| auto]. destruct (read_only w); [auto |].
  now destruct (CacheManager.getCacheFilePath this key).
Qed.

(** X1. [delete] returns normally in every world.  When the key has
    a file and the file system accepts the removal, the world afterwards is
    the world before without that file; in every case every other file is
    as it was, and so are the clock and the collaborator; when the key has
    no file, nothing at all changes, the console included. *)
Theorem delete_removes_only_its_entry {E} (this : CacheManager.t) (key : string)
    (w : world E) :
  let file := CacheManager.getCacheFilePath this key in
  let r := CacheManager.delete this key w in
  fst r = Return tt ∧
  logged
    (match file_at w file with
     | Some _ => if read_only w then w else without_file file w
     | None => w
     end) (snd r) ∧
  (∀ l, l ≠ file → file_at (snd r) l = file_at w l) ∧
  (read_only w = false → file_at (snd r) file = None) ∧
  (fst (existsSync file w) = Return false → snd r = w).
Proof.
  intros file r. destruct (delete_spec this key w) as [Hr Hw]. fold file r in Hr, Hw.
  split; [exact Hr |]. split; [exact Hw |]. split; [| split].
  - intros l Hl. now apply delete_frame.
  - now apply delete_gone.
  - subst r file. unfold CacheManager.delete, try_catch, bind.
    destruct (existsSync _ w) as [res w'] eqn:Hex. cbn [fst]. intros ->.
    assert (w' = w) as ->; [| reflexivity].
    revert Hex. unfold existsSync.
    destruct (CacheManager.getCacheFilePath this key); [destruct (disk w) |];
      intros H; apply (f_equal snd) in H; symmetry; exact H.
Qed.

(** X2. Deleting a key forces a refresh, as the tools do for
    [forceRefresh]: on a file system that accepts the removal, after
    [delete(k)] a [get(k)] at any later time is a miss, and a
    [getOrSet(k, p, ttl)] invokes the producer, once, and returns what it
    resolves with or throws what it rejects with. *)
Theorem delete_forces_a_refresh {E} (this : CacheManager.t) (key : string)
    (w : world E) (p : producer E) (ttl : option number) (ms : N) :
  read_only w = false →
  let w1 := elapse ms (snd (CacheManager.delete this key w)) in
  let r := CacheManager.getOrSet this key p ttl w1 in
  fst (CacheManager.get this key w1) = Return null ∧
  fst r = match fst (fst (p (ext w))) with
          | Return result => Return (J result)
          | Throw error => Throw error
          end ∧
  invoked (snd r) = S (invoked w).
Proof.
  intros Hro w1 r.
  pose proof (delete_gone this key w Hro) as Hgone.
  destruct (delete_fields this key w) as (_ & Hext0 & Hinv0).
  assert (Hmiss : fst (CacheManager.get this key w1) = Return null).
  { assert (Hf : file_at w1 (CacheManager.getCacheFilePath this key) = None).
    { rewrite <- Hgone. unfold w1.
      now destruct (CacheManager.getCacheFilePath this key). }
    rewrite (proj1 (get_spec this key w1)). cbv zeta. now rewrite Hf. }
  split; [exact Hmiss |].
  assert (Hext : ext w1 = ext w) by exact Hext0.
  assert (Hinv : invoked w1 = invoked w) by exact Hinv0.
  destruct (p (ext w)) as [[res e] ms'] eqn:Hp. cbn [fst].
  assert (Hp1 : p (ext w1) = (res, e, ms')) by now rewrite Hext.
  unfold r. rewrite (getOrSet_miss this key p ttl w1 res e ms' Hmiss Hp1).
  destruct (get_fields this key w1) as (_ & _ & _ & Hinv1).
  destruct res as [result | error]; cbn [fst snd].
  - split; [reflexivity |].
    match goal with
    | |- invoked (snd (CacheManager.set this key result ttl ?w2)) = _ =>
        destruct (set_fields this key result ttl w2) as (_ & _ & ->)
    end.
    cbn [after_await invoked]. congruence.
  - split; [reflexivity |]. cbn [after_await invoked]. congruence.
Qed.

Lemma delete_forces_a_refresh_witness :
  fst (CacheManager.getOrSet sample_cache sample_key counting_producer (Some (num 5000))
         (elapse 10 (snd (CacheManager.delete sample_cache sample_key live_entry_world))))
  = Return (J (JNum (num 0))).
Proof.
  exact (proj1 (proj2 (delete_forces_a_refresh sample_cache sample_key live_entry_world
                         counting_producer (Some (num 5000)) 10 eq_refl))).
Defined.

(** X3. An operation on one key does not change what a key with
    another file reads: [get(k')] returns after [delete(k)], after [get(k)]
    (which may purge the entry of [k]) and, when the file of [k'] is not the
    metadata file (which [set] rewrites), after [set(k, data, ttl)] what it
    returned before, in every world. *)
Theorem other_keys_are_left_alone {E} (this : CacheManager.t) (k k' : string)
    (w : world E) :
  CacheManager.getCacheFilePath this k' ≠ CacheManager.getCacheFilePath this k →
  fst (CacheManager.get this k' (snd (CacheManager.delete this k w)))
  = fst (CacheManager.get this k' w) ∧
  fst (CacheManager.get this k' (snd (CacheManager.get this k w)))
  = fst (CacheManager.get this k' w) ∧
  (CacheManager.getCacheFilePath this k' ≠ Inside ".metadata.json" →
   ∀ data ttl,
     fst (CacheManager.get this k' (snd (CacheManager.set this k data ttl w)))
     = fst (CacheManager.get this k' w)).
Proof.
  intros Hfile. split; [| split].
  - apply get_depends; [apply delete_fields | now apply delete_frame].
  - apply get_depends; [apply get_fields |].
    rewrite (file_at_logged _ _ _ (get_purged this k w)). unfold purged.
    destruct (entry_state_at _ _); try reflexivity.
    destruct (read_only w); [reflexivity |]. now apply file_at_without_ne.
  - intros Hmeta data ttl. apply get_depends; [apply set_fields |].
    now apply set_frame.
Qed.

Lemma other_keys_are_left_alone_witness :
  fst (CacheManager.get sample_cache "tool_fetchTicker_02"
         (snd (CacheManager.set sample_cache "tool_fetchTicker_01" (JStr "new")
                 (Some (num 9)) sweep_world)))
  = fst (CacheManager.get sample_cache "tool_fetchTicker_02" sweep_world).
Proof.
  refine (proj2 (proj2 (other_keys_are_left_alone sample_cache "tool_fetchTicker_01"
                          "tool_fetchTicker_02" sweep_world _)) _ (JStr "new")
            (Some (num 9))); vm_compute; discriminate.
Defined.

Lemma delete_removes_only_its_entry_witness :
  file_at (snd (CacheManager.delete sample_cache sample_key live_entry_world))
          (Inside "tool_fetchTicker_9f2c.json") = None.
Proof.
  exact (proj1 (proj2 (proj2 (proj2 (delete_removes_only_its_entry sample_cache sample_key
                                       live_entry_world)))) eq_refl).
Defined.

(** *** Files that are not entries, negative TTLs *)


Lemma gt_nan_l (b : number) : Number.gt Number.NaN b = false.
Proof. reflexivity. Qed.



(** What [cleanup] leaves of a file. *)
Lemma cleanup_lookup {E} (this : CacheManager.t) (w : world E) (d : gmap string string)
    (file : string) :
  disk w = Some d → read_only w = false → file ≠ ".metadata.json" →
  disk (snd (CacheManager.cleanup this w)) ≫= (.!! file)
  = if swept (num (clock w)) d file then None else d !! file.
Proof.
  intros Hd Hro Hfile. destruct (cleanup_spec this w d Hd Hro) as [warnings ->].
  cbn [snd disk mbind option_bind].
  destruct (0 <? _); [rewrite lookup_insert_ne by congruence |]; apply lookup_swept.
Qed.

(** Rounding keeps the sign. *)
Lemma round_ratio_sign (negative : bool) (a b : Z) :
  Number.round_ratio negative a b = Number.Infinity negative ∨
  Number.round_ratio negative a b = Number.Zero negative ∨
  ∃ m e, Number.round_ratio negative a b = Number.Finite negative m e.
Proof.
  unfold Number.round_ratio. cbv zeta.
  match goal with
  | |- context [match ?k with Z0 => _ | Zpos _ => _ | Zneg _ => _ end] =>
      destruct k as [|p|p]; auto
  end.
  destruct (1024 <=? _); auto.
  destruct (Number.odd_part p) as [m i]. right. right. eauto.
Qed.

(** A time that is not negative exceeds a negative TTL. *)
Lemma gt_negative (T : number) (elapsed : Z) :
  Number.gt (num 0) T = true → 0 <= elapsed → Number.gt (num elapsed) T = true.
Proof.
  change (num 0) with (Number.Zero false). intros HT Hel.
  destruct elapsed as [|p|p]; [exact HT | | lia].
  change (num (Zpos p)) with (Number.round_ratio false (Zpos p) 1).
  destruct (round_ratio_sign false (Zpos p) 1) as [-> | [-> | (m & e & ->)]];
    [| exact HT |].
  - now destruct T as [| [] | [] |].
  - destruct T as [| [] | [] | negT mT eT]; try discriminate; try reflexivity.
    unfold Number.gt in *. cbn [Number.exact] in *. cbv zeta in *.
    assert (0 < 2 ^ (eT - Z.min e eT)) by (apply Z.pow_pos_nonneg; lia).
    assert (0 < 2 ^ (e - Z.min e eT)) by (apply Z.pow_pos_nonneg; lia).
    assert (0 < 2 ^ (eT - Z.min 0 eT)) by (apply Z.pow_pos_nonneg; lia).
    destruct negT.
    + apply Z.ltb_lt. nia.
    + apply Z.ltb_lt in HT. nia.
Qed.



(** X5. A negative TTL is stored as given ([ttl || defaultTTL]
    replaces only a missing TTL, zero and NaN), and the entry it stores is
    expired from the start: on an operational cache a [get(k)] after
    [set(k, V, T)] with [T < 0] returns [null], at once and at every later
    time, and that [get] removes the file. *)
Theorem negative_ttl_is_never_readable {E} (this : CacheManager.t) (w : world E)
    (k : string) (V : json) (T : number) (ms : N) :
  operational w → cache_key this k → wf_json V →
  Number.serializable T → Number.gt (num 0) T = true →
  time_value (clock w) → time_value (clock w + Z.of_N ms) →
  let w1 := elapse ms (snd (CacheManager.set this k V (Some T) w)) in
  fst (CacheManager.get this k w1) = Return null ∧
  file_at (snd (CacheManager.get this k w1)) (CacheManager.getCacheFilePath this k) = None.
Proof.
  intros Hop Hkey Hwf Hser HT Hnow Hlater w1.
  assert (Httl : CacheManager.ttl_or_default this (Some T) = T).
  { cbn [CacheManager.ttl_or_default]. revert HT. change (num 0) with (Number.Zero false).
    now destruct T as [| [] | [] |]. }
  assert (Hgt : JS.gt (num (Z.of_N ms)) T = true).
  { apply gt_negative; [exact HT | lia]. }
  assert (Hnull : fst (CacheManager.get this k w1) = Return null).
  { unfold w1. rewrite (set_get this k V (Some T) ms w Hop Hkey Hwf);
      rewrite ?Httl; try assumption. now rewrite Hgt. }
  split; [exact Hnull |].
  destruct Hop as [[d Hd] Hro]. destruct Hkey as (name & Hloc & Hlegal & Hentry).
  destruct (set_entry this k name V (Some T) w d Hd Hro Hloc Hlegal) as [lines Hw1].
  rewrite Httl in Hw1.
  rewrite (file_at_logged _ _ _ (get_purged this k w1)). unfold purged.
  assert (Hfile : file_at w1 (CacheManager.getCacheFilePath this k)
                  = Some (entry_text V (num (clock w)) T)).
  { unfold w1. rewrite Hw1, Hloc. cbn [elapse file_at disk with_disk mbind option_bind].
    rewrite lookup_insert_ne by now apply entry_file_not_metadata.
    now rewrite lookup_insert_eq. }
  rewrite Hfile, entry_state_written;
    [| exact Hwf | apply serializable_num, time_value_safe, Hnow | exact Hser].
  assert (Hclock : clock w1 = clock w + Z.of_N ms).
  { unfold w1. cbn [elapse clock]. now rewrite Hw1. }
  rewrite Hclock, age_of_time_values, Hgt by assumption.
  assert (Hro1 : read_only w1 = false).
  { unfold w1. cbn [elapse read_only]. now rewrite Hw1. }
  rewrite Hro1. apply file_at_without.
Qed.

Lemma negative_ttl_is_never_readable_witness :
  fst (CacheManager.get sample_cache sample_key
         (elapse 0 (snd (CacheManager.set sample_cache sample_key sample_ticker
                           (Some (num (-1))) fresh_world))))
  = Return null.
Proof.
  refine (proj1 (negative_ttl_is_never_readable sample_cache fresh_world sample_key
                   sample_ticker (num (-1)) 0 fresh_world_operational
                   sample_key_is_cache_key sample_ticker_wf _ _ _ _));
    vm_compute; try reflexivity; split; discriminate.
Defined.

(** *** The count of entries and the metadata file *)

Lemma filter_length_Permutation {A} (f : A → bool) (l l' : list A) :
  l ≡ₚ l' → length (List.filter f l) = length (List.filter f l').
Proof.
  induction 1 as [| x l l' _ IH | x y l | l l' l'' _ IH1 _ IH2]; cbn.
  - reflexivity.
  - destruct (f x); cbn; congruence.
  - destruct (f x), (f y); reflexivity.
  - congruence.
Qed.

Lemma entry_count_insert (d : gmap string string) (f x : string) :
  entry_count (<[f := x]> d)
  = entry_count d
    + (if CacheManager.is_entry_file f && bool_decide (d !! f = None) then 1 else 0).
Proof.
  unfold entry_count, names. rewrite dom_insert_L.
  destruct (d !! f) as [c|] eqn:Hf.
  - rewrite bool_decide_eq_false_2, andb_false_r, Z.add_0_r by discriminate.
    replace ({[f]} ∪ dom d) with (dom d); [reflexivity |].
    symmetry. apply subseteq_union_1_L, singleton_subseteq_l, elem_of_dom. eauto.
  - rewrite bool_decide_eq_true_2, andb_true_r by reflexivity.
    rewrite (filter_length_Permutation _ _ (f :: elements (dom d))).
    + cbn [List.filter]. destruct (CacheManager.is_entry_file f); cbn [length]; lia.
    + apply elements_union_singleton. now apply not_elem_of_dom.
Qed.

Lemma entry_count_delete (d : gmap string string) (f : string) :
  entry_count (delete f d)
  = entry_count d
    - (if CacheManager.is_entry_file f && bool_decide (is_Some (d !! f)) then 1 else 0).
Proof.
  destruct (d !! f) as [c|] eqn:Hf.
  - rewrite bool_decide_eq_true_2, andb_true_r by eauto.
    rewrite <- (insert_delete_id d f c Hf) at 2.
    rewrite entry_count_insert, lookup_delete_eq, bool_decide_eq_true_2 by reflexivity.
    rewrite andb_true_r. lia.
  - rewrite bool_decide_eq_false_2, andb_false_r by (intros [? ?]; congruence).
    rewrite delete_id by exact Hf. lia.
Qed.

Lemma getStats_count {E} (this : CacheManager.t) (w : world E) (d : gmap string string) :
  disk w = Some d →
  fst (CacheManager.getStats this w)
  = Return {| Stats.totalEntries := entry_count d;
              Stats.cacheDir := CacheManager.cacheDir this;
              Stats.defaultTTL := CacheManager.defaultTTL this |}.
Proof. intros Hd. now rewrite (getStats_spec this w d Hd). Qed.

(** X6. On an operational cache, [set] on a key that names an
    entry file leaves the count of entries as it was when the key had a file
    and raises it by one when it had none; [getStats().totalEntries] then
    reports that count, and the metadata file, which [set] rewrites, records
    it with the time of the call. *)
Theorem set_updates_count_and_metadata {E} (this : CacheManager.t) (w : world E)
    (d : gmap string string) (k name : string) (data : json) (ttl : option number) :
  disk w = Some d → read_only w = false →
  CacheManager.getCacheFilePath this k = Inside name →
  legal_name name = true → CacheManager.is_entry_file name = true →
  let w1 := snd (CacheManager.set this k data ttl w) in
  let n := entry_count d + (if bool_decide (d !! name = None) then 1 else 0) in
  fst (CacheManager.getStats this w1)
  = Return {| Stats.totalEntries := n;
              Stats.cacheDir := CacheManager.cacheDir this;
              Stats.defaultTTL := CacheManager.defaultTTL this |} ∧
  file_at w1 (CacheManager.metadataPath this)
  = Some (JSON.stringify2
            (CacheMetadata.object
               {| CacheMetadata.totalEntries := num n;
                  CacheMetadata.lastCleanup := num (clock w) |})).
Proof.
  intros Hd Hro Hloc Hlegal Hentry w1 n.
  destruct (set_entry this k name data ttl w d Hd Hro Hloc Hlegal) as [lines Hw1].
  fold w1 in Hw1.
  set (d' := <[name := _]> d) in Hw1.
  assert (Hn : entry_count d' = n).
  { unfold d'. now rewrite entry_count_insert, Hentry. }
  split.
  - erewrite getStats_count by (rewrite Hw1; reflexivity).
    now rewrite entry_count_insert, Z.add_0_r, Hn.
  - rewrite Hw1. cbn [CacheManager.metadataPath file_at with_disk disk mbind option_bind].
    rewrite lookup_insert_eq. unfold metadata_text. fold (names d') (entry_count d').
    now rewrite Hn.
Qed.

Lemma set_updates_count_and_metadata_witness :
  fst (CacheManager.getStats sample_cache
         (snd (CacheManager.set sample_cache "tool_fetchTicker_06" sample_ticker None
                 sweep_world)))
  = Return (stats_of (entry_count sweep_dir + 1)).
Proof.
  refine (proj1 (set_updates_count_and_metadata sample_cache sweep_world sweep_dir
                   "tool_fetchTicker_06" "tool_fetchTicker_06.json" sample_ticker None
                   eq_refl eq_refl _ _ _)); vm_compute; reflexivity.
Defined.

(** X7. [delete], and the purge of an expired entry by [get],
    never rewrite the metadata file: on an operational cache, when they
    remove the entry file of a key, [getStats().totalEntries] drops by one
    while the metadata file keeps its content, and with it the old count. *)
Theorem removal_leaves_metadata_behind {E} (this : CacheManager.t) (w : world E)
    (d : gmap string string) (k name content : string) :
  disk w = Some d → read_only w = false →
  CacheManager.getCacheFilePath this k = Inside name →
  CacheManager.is_entry_file name = true →
  d !! name = Some content →
  let stats := {| Stats.totalEntries := entry_count d - 1;
                  Stats.cacheDir := CacheManager.cacheDir this;
                  Stats.defaultTTL := CacheManager.defaultTTL this |} in
  (let w1 := snd (CacheManager.delete this k w) in
   fst (CacheManager.getStats this w1) = Return stats ∧
   file_at w1 (CacheManager.metadataPath this) = d !! ".metadata.json") ∧
  (entry_state_at (num (clock w)) (Some content) = Expired →
   let w1 := snd (CacheManager.get this k w) in
   fst (CacheManager.getStats this w1) = Return stats ∧
   file_at w1 (CacheManager.metadataPath this) = d !! ".metadata.json").
Proof.
  intros Hd Hro Hloc Hentry Hfile stats.
  pose proof (entry_file_not_metadata _ Hentry) as Hmeta.
  assert (Hcount : entry_count (delete name d) = entry_count d - 1).
  { rewrite entry_count_delete, Hentry, Hfile.
    now rewrite bool_decide_eq_true_2 by eauto. }
  assert (Hat : file_at w (CacheManager.getCacheFilePath this k) = Some content).
  { rewrite Hloc. cbn [file_at]. now rewrite Hd. }
  assert (Hgone : disk (without_file (Inside name) w) = Some (delete name d)).
  { cbn [without_file with_disk disk]. now rewrite Hd. }
  split.
  - destruct (delete_spec this k w) as [_ Hw]. rewrite Hat, Hro, Hloc in Hw.
    pose proof (logged_fields _ _ Hw) as (Hdisk & _). rewrite Hgone in Hdisk.
    cbv zeta. split.
    + erewrite getStats_count by exact Hdisk. now rewrite Hcount.
    + cbn [CacheManager.metadataPath file_at]. rewrite Hdisk. cbn.
      now apply lookup_delete_ne.
  - intros Hexp. pose proof (get_purged this k w) as Hw. unfold purged in Hw.
    rewrite Hat, Hexp, Hro, Hloc in Hw.
    pose proof (logged_fields _ _ Hw) as (Hdisk & _). rewrite Hgone in Hdisk.
    cbv zeta. split.
    + erewrite getStats_count by exact Hdisk. now rewrite Hcount.
    + cbn [CacheManager.metadataPath file_at]. rewrite Hdisk. cbn.
      now apply lookup_delete_ne.
Qed.

Lemma removal_leaves_metadata_behind_witness :
  fst (CacheManager.getStats sample_cache
         (snd (CacheManager.delete sample_cache "tool_fetchTicker_05" sweep_world)))
  = Return (stats_of (entry_count sweep_dir - 1)) ∧
  file_at (snd (CacheManager.delete sample_cache "tool_fetchTicker_05" sweep_world))
          (CacheManager.metadataPath sample_cache)
  = sweep_dir !! ".metadata.json".
Proof.
  refine (proj1 (removal_leaves_metadata_behind sample_cache sweep_world sweep_dir
                   "tool_fetchTicker_05" "tool_fetchTicker_05.json"
                   (entry_text (JNum (num 5)) (num 1700000009000) (num 5000))
                   eq_refl eq_refl _ _ _)); vm_compute; reflexivity.
Defined.

(** *** [cleanup] and [clear], seen by the readers *)

(** One turn of the loop of [cleanup] on a file that it keeps. *)
Lemma cleanup_file_keeps {E} (now : number) (cnt : Z) (f : string)
    (d : gmap string string) (w : world E) :
  disk w = Some d → is_Some (d !! f) → swept now d f = false →
  CacheManager.cleanup_file now cnt f w = (Return cnt, w).
Proof.
  intros Hd [content Hf] Hkeep. destruct w as [d0 o ro clk con e inv]. cbn [disk] in Hd.
  subst d0. unfold swept in Hkeep. rewrite Hf in Hkeep.
  unfold CacheManager.cleanup_file.
  destruct (CacheManager.is_entry_file f); [| reflexivity]. cbn [andb] in Hkeep.
  unfold entry_state_at in Hkeep. run.
  destruct (JSON.parse content) as [entry|]; [| discriminate]. run.
  destruct entry as [| b | n | s | items | ms]; cbn [JS.get_property] in *;
    [discriminate | ..]; run.
  all: match goal with
       | |- context [JS.gt ?a ?b] => destruct (JS.gt a b)
       end; [discriminate | reflexivity].
Qed.

Lemma cleanup_loop_keeps {E} (now : number) (l : list string) (d : gmap string string)
    (cnt : Z) (w : world E) :
  disk w = Some d → (∀ f, f ∈ l → is_Some (d !! f) ∧ swept now d f = false) →
  for_of l cnt (CacheManager.cleanup_file now) w = (Return cnt, w).
Proof.
  intros Hd. induction l as [|f l IH]; intros Hall; [reflexivity |].
  cbn [for_of]. unfold bind at 1.
  destruct (Hall f ltac:(left)) as [Hf Hkeep].
  rewrite (cleanup_file_keeps now cnt f d w Hd Hf Hkeep).
  apply IH. intros f' Hin. apply Hall. now right.
Qed.

(** After a [cleanup] no file of the directory is one that a [cleanup] at
    the same time removes. *)
Lemma swept_after_cleanup (now : number) (d : gmap string string) (text : option string)
    (f : string) :
  let d1 := without (List.filter (swept now d) (names d)) d in
  let d2 := match text with Some t => <[".metadata.json" := t]> d1 | None => d1 end in
  is_Some (d2 !! f) → swept now d2 f = false.
Proof.
  intros d1 d2 Hf. unfold swept.
  destruct (CacheManager.is_entry_file f) eqn:Hentry; [| reflexivity]. cbn [andb].
  assert (Hlookup : d2 !! f = d1 !! f).
  { unfold d2. destruct text; [| reflexivity].
    apply lookup_insert_ne. now apply entry_file_not_metadata. }
  rewrite Hlookup in Hf |- *. unfold d1 in *. rewrite lookup_swept in Hf |- *.
  unfold swept in Hf |- *. rewrite Hentry in Hf |- *. cbn [andb] in Hf |- *.
  destruct (stale (entry_state_at now (d !! f))) eqn:Hs; [now destruct Hf | exact Hs].
Qed.

(** A [cleanup] that finds no file to remove changes nothing. *)
Lemma cleanup_nothing_to_do {E} (this : CacheManager.t) (w : world E)
    (d : gmap string string) :
  disk w = Some d → (∀ f, is_Some (d !! f) → swept (num (clock w)) d f = false) →
  CacheManager.cleanup this w = (Return tt, w).
Proof.
  intros Hd Hkeep. destruct w as [d0 o ro now con e inv]. cbn [disk clock] in *. subst d0.
  unfold CacheManager.cleanup. run. fold (names d).
  rewrite (cleanup_loop_keeps (num now) (names d) d 0
             (World (Some d) o ro now con e inv) eq_refl).
  - reflexivity.
  - intros f Hf. apply names_spec in Hf. split; [exact Hf | now apply Hkeep].
Qed.

(** X8. [cleanup] is idempotent: on an operational cache a
    second [cleanup] at the time of the first finds nothing to remove and
    changes nothing, neither a file nor the console. *)
Theorem cleanup_is_idempotent {E} (this : CacheManager.t) (w : world E) :
  operational w →
  let w1 := snd (CacheManager.cleanup this w) in
  CacheManager.cleanup this w1 = (Return tt, w1).
Proof.
  intros [[d Hd] Hro] w1.
  destruct (cleanup_spec this w d Hd Hro) as [warnings Hw1]. cbv zeta in Hw1.
  apply (f_equal snd) in Hw1. cbn [snd] in Hw1. fold w1 in Hw1.
  set (removed := List.filter (swept (num (clock w)) d) (names d)) in *.
  destruct (0 <? Z.of_nat (length removed)).
  - apply (cleanup_nothing_to_do this w1 _ ltac:(rewrite Hw1; reflexivity)).
    intros f Hf. replace (clock w1) with (clock w) by now rewrite Hw1.
    now apply (swept_after_cleanup (num (clock w)) d (Some _) f).
  - apply (cleanup_nothing_to_do this w1 _ ltac:(rewrite Hw1; reflexivity)).
    intros f Hf. replace (clock w1) with (clock w) by now rewrite Hw1.
    now apply (swept_after_cleanup (num (clock w)) d None f).
Qed.

(** X9. [cleanup] is invisible to the readers: on an
    operational cache, for every key whose file is not the metadata file,
    [get(k)] returns after a [cleanup] what it returned before it (an entry
    that [cleanup] removes read as a miss already). *)
Theorem cleanup_is_invisible_to_readers {E} (this : CacheManager.t) (w : world E)
    (k : string) :
  operational w →
  CacheManager.getCacheFilePath this k ≠ Inside ".metadata.json" →
  fst (CacheManager.get this k (snd (CacheManager.cleanup this w)))
  = fst (CacheManager.get this k w).
Proof.
  intros [[d Hd] Hro] Hk.
  destruct (cleanup_spec this w d Hd Hro) as [warnings Hw1]. cbv zeta in Hw1.
  assert (Hclock : clock (snd (CacheManager.cleanup this w)) = clock w) by now rewrite Hw1.
  rewrite (proj1 (get_spec this k _)), (proj1 (get_spec this k w)). cbv zeta.
  rewrite Hclock.
  destruct (CacheManager.getCacheFilePath this k) as [name | path].
  - cbn [file_at].
    rewrite (cleanup_lookup this w d name Hd Hro ltac:(congruence)), Hd.
    cbn [mbind option_bind]. unfold swept.
    destruct (CacheManager.is_entry_file name); [| reflexivity]. cbn [andb].
    destruct (entry_state_at (num (clock w)) (d !! name)) eqn:Hs;
      cbn [stale]; rewrite ?Hs; reflexivity.
  - rewrite Hw1. reflexivity.
Qed.

(** X10. After [clear] on an operational cache every key that
    names an entry file is a miss: [get(k)] returns [null] at every later
    time. *)
Theorem clear_then_get_misses {E} (this : CacheManager.t) (w : world E) (k : string)
    (ms : N) :
  operational w → cache_key this k →
  fst (CacheManager.get this k (elapse ms (snd (CacheManager.clear this w))))
  = Return null.
Proof.
  intros [[d Hd] Hro] (name & Hloc & Hlegal & Hentry).
  pose proof (clear_spec this w d Hd Hro) as Hw1. cbv zeta in Hw1.
  apply (f_equal snd) in Hw1. cbn [snd] in Hw1.
  rewrite (proj1 (get_spec this k _)). cbv zeta. rewrite Hw1, Hloc.
  cbn [elapse file_at disk clock mbind option_bind].
  rewrite lookup_insert_ne by now apply entry_file_not_metadata.
  now rewrite lookup_cleared, Hentry.
Qed.

Lemma sweep_world_operational : operational sweep_world.
Proof. split; [eexists |]; reflexivity. Qed.

Lemma cleanup_is_idempotent_witness :
  CacheManager.cleanup sample_cache (snd (CacheManager.cleanup sample_cache sweep_world))
  = (Return tt, snd (CacheManager.cleanup sample_cache sweep_world)).
Proof.
  exact (cleanup_is_idempotent sample_cache sweep_world sweep_world_operational).
Defined.

Lemma cleanup_is_invisible_to_readers_witness :
  fst (CacheManager.get sample_cache "tool_fetchOHLCV_03"
         (snd (CacheManager.cleanup sample_cache sweep_world)))
  = fst (CacheManager.get sample_cache "tool_fetchOHLCV_03" sweep_world).
Proof.
  refine (cleanup_is_invisible_to_readers sample_cache sweep_world "tool_fetchOHLCV_03"
            sweep_world_operational _).
  vm_compute. discriminate.
Defined.

Lemma clear_then_get_misses_witness :
  fst (CacheManager.get sample_cache "tool_fetchMarkets_04"
         (elapse 1 (snd (CacheManager.clear sample_cache sweep_world))))
  = Return null.
Proof.
  refine (clear_then_get_misses sample_cache sweep_world "tool_fetchMarkets_04" 1
            sweep_world_operational _).
  exists "tool_fetchMarkets_04.json". vm_compute. repeat split.
Defined.

(** *** [path.join] on a file name *)

Lemma split_nonempty (s : string) : Path.split s ≠ [].
Proof.
  destruct s as [|c r]; cbn [Path.split]; [discriminate |].
  destruct (code c =? 47); [discriminate |]. now destruct (Path.split r).
Qed.

Lemma split_no_separator (s : string) : no_separator s = true → Path.split s = [s].
Proof.
  induction s as [|c r IH]; [reflexivity |]. cbn [no_separator Path.split].
  intros [Hc Hr]%andb_true_iff. apply negb_true_iff in Hc. rewrite Hc, (IH Hr).
  reflexivity.
Qed.

Lemma split_app (a b : string) :
  Path.split (a +:+ "/" +:+ b) = (Path.split a ++ Path.split b)%list.
Proof.
  induction a as [|c r IH].
  - reflexivity.
  - change (String c r +:+ "/" +:+ b) with (String c (r +:+ "/" +:+ b)).
    cbn [Path.split]. rewrite IH. destruct (code c =? 47); [reflexivity |].
    pose proof (split_nonempty r) as Hne.
    destruct (Path.split r) as [|s0 ss]; [contradiction | reflexivity].
Qed.

Lemma split_segments (s : string) : Forall (fun seg => no_separator seg = true) (Path.split s).
Proof.
  induction s as [|c r IH]; cbn [Path.split]; [repeat constructor |].
  destruct (code c =? 47) eqn:Hc; [constructor; [reflexivity | exact IH] |].
  destruct (Path.split r) as [|s0 ss]; [repeat constructor; cbn; now rewrite Hc |].
  inversion IH; subst. constructor; [| assumption]. cbn. now rewrite Hc.
Qed.

Lemma normal_nil (absolute : bool) : normal absolute [].
Proof. split; [constructor |]. exists O, []. repeat split. apply not_elem_of_nil. Qed.

Lemma last_repeat (x : string) (n : nat) : last (repeat x (S n)) = Some x.
Proof. induction n as [|n IH]; [reflexivity |]. exact IH. Qed.

Lemma repeat_snoc (x : string) (n : nat) : (repeat x n ++ [x])%list = repeat x (S n).
Proof. induction n as [|n IH]; [reflexivity |]. cbn. now rewrite IH. Qed.

Lemma proper_dotdot : proper_segment "..".
Proof. repeat split; discriminate. Qed.

(** A step on a proper segment other than [..] appends it. *)
Lemma step_proper (absolute : bool) (stack : list string) (seg : string) :
  proper_segment seg → seg ≠ ".." → Path.step absolute stack seg = (stack ++ [seg])%list.
Proof.
  intros (H1 & H2 & _) H3. unfold Path.step.
  apply String.eqb_neq in H1, H2, H3. now rewrite H1, H2, H3.
Qed.

(** Every step keeps the segments normal. *)
Lemma step_normal (absolute : bool) (stack : list string) (seg : string) :
  no_separator seg = true → normal absolute stack →
  normal absolute (Path.step absolute stack seg).
Proof.
  intros Hseg Hn. unfold Path.step.
  destruct (String.eqb_spec seg "") as [-> | H1]; [exact Hn |].
  destruct (String.eqb_spec seg ".") as [-> | H2]; [exact Hn |]. cbn [orb].
  destruct Hn as [Hall (n & rest & -> & Hrest & Habs)].
  destruct (String.eqb_spec seg "..") as [-> | H3].
  - destruct rest as [|r0 rest] using rev_ind.
    + rewrite app_nil_r in *. destruct n as [|n].
      * cbn [repeat last]. destruct absolute eqn:Ha; [apply normal_nil |].
        split; [repeat constructor; discriminate |].
        exists 1%nat, []. repeat split; [apply not_elem_of_nil | discriminate].
      * rewrite last_repeat. change (String.eqb ".." "..") with true. cbv iota. split.
        -- apply Forall_app. split; [exact Hall | repeat constructor; discriminate].
        -- exists (S (S n)), []. rewrite app_nil_r, repeat_snoc.
           repeat split; [apply not_elem_of_nil |].
           intros Ha. specialize (Habs Ha). discriminate.
    + clear IHrest. rewrite app_assoc, last_snoc.
      assert (Hr0 : r0 ≠ "..").
      { intros ->. apply Hrest. apply elem_of_app. right. now left. }
      apply String.eqb_neq in Hr0. rewrite Hr0.
      rewrite removelast_last. rewrite app_assoc in Hall.
      apply Forall_app in Hall as [Hall _]. split; [exact Hall |].
      exists n, rest. repeat split; [| exact Habs].
      intros Hin. apply Hrest. apply elem_of_app. now left.
  - split.
    + apply Forall_app. split; [exact Hall |]. repeat constructor; assumption.
    + exists n, (rest ++ [seg])%list. rewrite app_assoc. repeat split; [| exact Habs].
      rewrite elem_of_app, list_elem_of_singleton. intros [? | ?]; [contradiction | congruence].
Qed.

Lemma fold_step_normal (absolute : bool) (segs stack : list string) :
  Forall (fun seg => no_separator seg = true) segs → normal absolute stack →
  normal absolute (fold_left (Path.step absolute) segs stack).
Proof.
  revert stack. induction segs as [|seg segs IH]; intros stack Hsegs Hn; [exact Hn |].
  inversion Hsegs; subst. cbn [fold_left]. apply IH; [assumption |].
  now apply step_normal.
Qed.

Lemma segments_normal (p : string) : normal (Path.is_absolute p) (Path.segments p).
Proof. apply fold_step_normal; [apply split_segments | apply normal_nil]. Qed.

(** Normal segments are what the steps over them give. *)
Lemma fold_step_id (absolute : bool) (l2 l1 : list string) :
  normal absolute (l1 ++ l2)%list → fold_left (Path.step absolute) l2 l1 = (l1 ++ l2)%list.
Proof.
  revert l1. induction l2 as [|seg l2 IH]; intros l1 Hn; [now rewrite app_nil_r |].
  cbn [fold_left].
  assert (Hstep : Path.step absolute l1 seg = (l1 ++ [seg])%list).
  { destruct Hn as [Hall (n & rest & Heq & Hrest & Habs)].
    assert (Hseg : proper_segment seg).
    { apply Forall_app in Hall as [_ Hall]. now inversion Hall. }
    destruct (String.eqb_spec seg "..") as [-> | Hne]; [| now apply step_proper].
    unfold Path.step. change (String.eqb ".." "") with false.
    change (String.eqb ".." ".") with false. change (String.eqb ".." "..") with true.
    cbn [orb]. cbv iota.
    assert (Hl1 : ∃ k, l1 = repeat ".." k ∧ (absolute = true → False)).
    { clear IH. revert n rest Heq Hrest Habs. induction l1 as [|x l1 IHl]; intros.
      - exists O. split; [reflexivity |]. intros Ha. specialize (Habs Ha). subst n.
        cbn in Heq. apply Hrest. rewrite <- Heq. now left.
      - destruct n as [|n].
        + cbn in Heq. exfalso. apply Hrest. rewrite <- Heq.
          right. apply elem_of_app. right. now left.
        + cbn in Heq. injection Heq as -> Heq.
          apply Forall_app in Hall as [Hall1 Hall2]. inversion Hall1; subst.
          destruct (IHl ltac:(apply Forall_app; split; assumption) n rest Heq Hrest)
            as (k & -> & Hrel).
          * intros Ha. specialize (Habs Ha). discriminate.
          * exists (S k). split; [reflexivity | exact Hrel]. }
    destruct Hl1 as (k & -> & Hrel).
    destruct k as [|k].
    - cbn [repeat last]. destruct absolute; [now exfalso |]. reflexivity.
    - rewrite last_repeat. change (String.eqb ".." "..") with true. reflexivity. }
  rewrite Hstep, IH; rewrite <- app_assoc; [reflexivity | exact Hn].
Qed.

Lemma join_cons (sep x : string) (l : list string) :
  l ≠ [] → join sep (x :: l) = x +:+ sep +:+ join sep l.
Proof. destruct l; [congruence | reflexivity]. Qed.

Lemma split_join (l : list string) :
  l ≠ [] → Forall (fun seg => no_separator seg = true) l → Path.split (join "/" l) = l.
Proof.
  induction l as [|x l IH]; [congruence |]. intros _ Hall. inversion Hall; subst.
  destruct l as [|y l].
  - cbn [join]. now apply split_no_separator.
  - rewrite join_cons by discriminate. rewrite split_app, IH by (congruence || assumption).
    now rewrite split_no_separator.
Qed.

Lemma proper_no_separator (l : list string) :
  Forall proper_segment l → Forall (fun seg => no_separator seg = true) l.
Proof. intros H. eapply Forall_impl; [exact H |]. now intros seg (_ & _ & ?). Qed.

(** The segments of the text of normal segments. *)
Lemma segments_of_normal (absolute : bool) (l : list string) :
  normal absolute l → l ≠ [] →
  let q := (if absolute then "/" else "") +:+ join "/" l in
  Path.is_absolute q = absolute ∧ Path.segments q = l.
Proof.
  intros Hn Hne q.
  assert (Hsplit : Path.split (join "/" l) = l).
  { apply split_join; [exact Hne |]. apply proper_no_separator, Hn. }
  assert (Habs : Path.is_absolute q = absolute).
  { unfold q. destruct absolute; [reflexivity |].
    change ("" +:+ join "/" l) with (join "/" l).
    destruct l as [|x l]; [congruence |].
    destruct Hn as [Hall _]. inversion Hall as [|? ? (Hx & _ & Hsep) _]; subst.
    destruct x as [|c x]; [congruence |].
    cbn [no_separator] in Hsep. apply andb_true_iff in Hsep as [Hc _].
    apply negb_true_iff in Hc.
    destruct l; [exact Hc |]. rewrite join_cons by discriminate. exact Hc. }
  split; [exact Habs |]. unfold Path.segments. rewrite Habs. unfold q.
  destruct absolute.
  - change ("/" +:+ join "/" l) with (String "/" (join "/" l)).
    cbn [Path.split]. change (code "/" =? 47) with true. cbv iota.
    cbn [fold_left]. change (Path.step true [] "") with (@nil string).
    rewrite Hsplit. now apply (fold_step_id true l []).
  - change ("" +:+ join "/" l) with (join "/" l).
    rewrite Hsplit. now apply (fold_step_id false l []).
Qed.

Lemma list_ascii_app (a b : string) :
  list_ascii_of_string (a +:+ b) = (list_ascii_of_string a ++ list_ascii_of_string b)%list.
Proof.
  induction a as [|c a IH]; [reflexivity |].
  change (String c a +:+ b) with (String c (a +:+ b)). cbn [list_ascii_of_string].
  now rewrite IH.
Qed.

Lemma last_no_separator (s : string) (c : ascii) :
  no_separator s = true → last (list_ascii_of_string s) = Some c → (code c =? 47) = false.
Proof.
  induction s as [|x s IH]; [discriminate |]. cbn [no_separator list_ascii_of_string].
  intros [Hx Hs]%andb_true_iff. apply negb_true_iff in Hx.
  destruct s as [|y s]; [now intros [= <-] |].
  intros Hlast. apply (IH Hs). exact Hlast.
Qed.

Lemma ends_with_separator_app (a b : string) :
  b ≠ "" → no_separator b = true → Path.ends_with_separator (a +:+ b) = false.
Proof.
  intros Hb Hsep. unfold Path.ends_with_separator. rewrite list_ascii_app.
  destruct b as [|c b]; [congruence |]. cbn [list_ascii_of_string].
  rewrite last_app_cons.
  change (c :: list_ascii_of_string b) with (list_ascii_of_string (String c b)).
  destruct (last (list_ascii_of_string (String c b))) as [x|] eqn:Hlast; [| reflexivity].
  exact (last_no_separator _ _ Hsep Hlast).
Qed.

Lemma join_snoc_nonempty (l : list string) (name : string) :
  name ≠ "" → join "/" (l ++ [name]) ≠ "".
Proof.
  intros Hname. destruct l as [|x l]; [exact Hname |].
  change ((x :: l) ++ [name])%list with (x :: (l ++ [name]))%list.
  rewrite join_cons by (now destruct l). intros H.
  apply (f_equal String.length) in H. rewrite !length_append in H. cbn in H. lia.
Qed.

Lemma strip_prefix_app (l r : list string) : strip_prefix l (l ++ r) = Some r.
Proof.
  induction l as [|x l IH]; [reflexivity |]. cbn [strip_prefix app].
  now rewrite String.eqb_refl.
Qed.

Lemma normal_snoc (absolute : bool) (l : list string) (name : string) :
  normal absolute l → proper_segment name → name ≠ ".." →
  normal absolute (l ++ [name]).
Proof.
  intros [Hall (n & rest & -> & Hrest & Habs)] Hname Hne. split.
  - apply Forall_app. split; [exact Hall | constructor; [exact Hname | constructor]].
  - exists n, (rest ++ [name])%list. rewrite app_assoc. repeat split; [| exact Habs].
    rewrite elem_of_app, list_elem_of_singleton. intros [? | ?]; [contradiction | congruence].
Qed.

Lemma segments_empty : Path.segments "" = [].
Proof. reflexivity. Qed.

(** [path.join(dir, name)] for a file name: the normalized directory,
    then the name. *)
Lemma join_file_name (dir name : string) :
  proper_segment name → name ≠ ".." →
  Path.join dir name
  = (if Path.is_absolute dir then "/" else "")
    +:+ join "/" (Path.segments dir ++ [name]).
Proof.
  intros Hname Hne. pose proof Hname as (Hne0 & Hdot & Hsep).
  assert (Hstep : ∀ absolute stack,
            Path.step absolute stack name = (stack ++ [name])%list)
    by (intros; now apply step_proper).
  destruct name as [|c name]; [congruence |].
  destruct dir as [|d dir].
  - unfold Path.join, Path.normalize, Path.segments.
    rewrite (split_no_separator _ Hsep). cbn [fold_left]. rewrite Hstep.
    cbn [app join]. change (Path.is_absolute "") with false. cbv iota.
    assert (Habs : Path.is_absolute (String c name) = false).
    { cbn [Path.is_absolute]. cbn [no_separator] in Hsep.
      apply andb_true_iff in Hsep as [Hc _]. now apply negb_true_iff in Hc. }
    rewrite Habs.
    pose proof (ends_with_separator_app "" (String c name) Hne0 Hsep) as Hend.
    change ("" +:+ String c name) with (String c name) in Hend. rewrite Hend.
    change ("" +:+ String c name +:+ "") with (String c (name +:+ "")).
    now rewrite append_nil_r.
  - unfold Path.join, Path.normalize.
    change (String d dir +:+ "/" +:+ String c name)
      with (String d (dir +:+ "/" +:+ String c name)).
    cbv iota.
    change (String d (dir +:+ "/" +:+ String c name))
      with (String d dir +:+ "/" +:+ String c name).
    assert (Habs : Path.is_absolute (String d dir +:+ "/" +:+ String c name)
                   = Path.is_absolute (String d dir)) by reflexivity.
    assert (Hsegs : Path.segments (String d dir +:+ "/" +:+ String c name)
                    = (Path.segments (String d dir) ++ [String c name])%list).
    { unfold Path.segments. rewrite Habs, split_app, fold_left_app.
      rewrite (split_no_separator _ Hsep). cbn [fold_left]. apply Hstep. }
    rewrite Hsegs, Habs.
    replace (String d dir +:+ "/" +:+ String c name)
      with ((String d dir +:+ "/") +:+ String c name) by now rewrite append_assoc.
    rewrite (ends_with_separator_app _ (String c name) Hne0 Hsep).
    pose proof (join_snoc_nonempty (Path.segments (String d dir)) (String c name) Hne0)
      as Hbody.
    destruct (join "/" (Path.segments (String d dir) ++ [String c name])) as [|b body];
      [congruence |].
    now rewrite append_nil_r.
Qed.

(** Where [path.join(dir, name)] leads for a file name: to that file of the
    directory. *)
Lemma resolve_file_name (dir name : string) :
  proper_segment name → name ≠ ".." →
  resolve dir (Path.join dir name) = Inside name.
Proof.
  intros Hname Hne. rewrite (join_file_name dir name Hname Hne).
  assert (Hn : normal (Path.is_absolute dir) (Path.segments dir ++ [name])).
  { apply normal_snoc; [apply segments_normal | exact Hname | exact Hne]. }
  destruct (segments_of_normal _ _ Hn ltac:(now destruct (Path.segments dir)))
    as [Habs Hsegs].
  unfold resolve. rewrite Habs, Hsegs, strip_prefix_app.
  rewrite Bool.eqb_reflx. cbn [negb]. apply String.eqb_neq in Hne. rewrite Hne.
  reflexivity.
Qed.

(** *** Keys that name an entry file *)

Lemma plain_chars_app (a b : string) :
  plain_chars (a +:+ b) = plain_chars a && plain_chars b.
Proof.
  induction a as [|c a IH]; [reflexivity |].
  change (String c a +:+ b) with (String c (a +:+ b)). cbn [plain_chars].
  now rewrite IH, !andb_assoc.
Qed.

Lemma plain_no_separator (s : string) : plain_chars s = true → no_separator s = true.
Proof.
  induction s as [|c s IH]; [reflexivity |]. cbn [plain_chars no_separator].
  intros [[Hc _]%andb_true_iff Hs]%andb_true_iff. now rewrite Hc, IH.
Qed.

Lemma substring_suffix (a b : string) :
  String.substring (String.length a) (String.length b) (a +:+ b) = b.
Proof.
  induction a as [|c a IH]; [| exact IH].
  change (String.substring 0 (String.length b) b = b).
  induction b as [|c b IH]; [reflexivity |].
  cbn [String.length String.substring]. now rewrite IH.
Qed.

Lemma endsWith_append (a b : string) : JS.endsWith (a +:+ b) b = true.
Proof.
  unfold JS.endsWith. rewrite length_append.
  replace (String.length a + String.length b - String.length b)%nat
    with (String.length a) by lia.
  rewrite substring_suffix, String.eqb_refl, andb_true_r.
  apply Nat.leb_le. lia.
Qed.

Lemma append_inj_l (a b s : string) : a +:+ s = b +:+ s → a = b.
Proof.
  revert b. induction a as [|x a IH]; intros [|y b] H.
  - reflexivity.
  - apply (f_equal String.length) in H. rewrite !length_append in H.
    cbn [String.length] in H. lia.
  - apply (f_equal String.length) in H. rewrite !length_append in H.
    cbn [String.length] in H. lia.
  - change (String x (a +:+ s) = String y (b +:+ s)) in H.
    injection H as -> H. f_equal. now apply IH.
Qed.

(** A key without separator or NUL, of at most 250 bytes and other than
    [.metadata], names an entry file in every cache. *)
Lemma plain_key_is_cache_key (this : CacheManager.t) (k : string) :
  plain_chars k = true → (String.length k <= 250)%nat → k ≠ ".metadata" →
  cache_key this k.
Proof.
  intros Hplain Hlen Hmeta. exists (k +:+ ".json").
  assert (Hname : plain_chars (k +:+ ".json") = true)
    by now rewrite plain_chars_app, Hplain.
  assert (Hl : String.length (k +:+ ".json") = (String.length k + 5)%nat)
    by now rewrite length_append.
  split; [| split].
  - unfold CacheManager.getCacheFilePath. apply resolve_file_name.
    + repeat split.
      * intros H. apply (f_equal String.length) in H. rewrite Hl in H. cbn in H. lia.
      * intros H. apply (f_equal String.length) in H. rewrite Hl in H. cbn in H. lia.
      * now apply plain_no_separator.
    + intros H. apply (f_equal String.length) in H. rewrite Hl in H. cbn in H. lia.
  - change (legal_name (k +:+ ".json"))
      with (plain_chars (k +:+ ".json") && (0 <? String.length (k +:+ ".json"))%nat
            && (String.length (k +:+ ".json") <=? 255)%nat).
    rewrite Hname, Hl. cbn [andb]. apply andb_true_iff. split.
    + apply Nat.ltb_lt. lia.
    + apply Nat.leb_le. lia.
  - unfold CacheManager.is_entry_file. rewrite endsWith_append. cbn [andb].
    apply negb_true_iff, String.eqb_neq. intros H. apply Hmeta.
    now apply (append_inj_l k ".metadata" ".json").
Qed.

(** *** The keys of [generateCacheKey] *)

Lemma round_length (st : list Z) (k w : Z) :
  length st = 8%nat → length (Sha256.round st k w) = 8%nat.
Proof.
  intros H. do 9 (destruct st as [|? st]; try discriminate). reflexivity.
Qed.

Lemma rounds_length (ks w st : list Z) :
  length st = 8%nat → length (Sha256.rounds ks w st) = 8%nat.
Proof.
  revert w st. induction ks as [|k ks IH]; intros w st H; [exact H |].
  cbn [Sha256.rounds]. apply IH. now apply round_length.
Qed.

Lemma compress_length (h block : list Z) :
  length h = 8%nat → length (Sha256.compress h block) = 8%nat.
Proof.
  intros H. unfold Sha256.compress.
  rewrite length_map, length_combine, rounds_length, H by exact H. reflexivity.
Qed.

Lemma blocks_length (n : nat) (h bs : list Z) :
  length h = 8%nat → length (Sha256.blocks n h bs) = 8%nat.
Proof.
  revert h bs. induction n as [|n IH]; intros h bs H; [exact H |].
  cbn [Sha256.blocks]. apply IH. now apply compress_length.
Qed.

Lemma digest_length (msg : list Z) : length (Sha256.digest msg) = 8%nat.
Proof. unfold Sha256.digest. cbv zeta. now apply blocks_length. Qed.

Lemma hex_digit_plain (x : Z) :
  plain_chars (String (Sha256.hex_digit (x mod 16)) "") = true.
Proof.
  assert (H : 0 <= x mod 16 < 16) by (apply Z.mod_pos_bound; lia).
  set (d := x mod 16) in *. clearbody d.
  assert (Hd : d = 0 ∨ d = 1 ∨ d = 2 ∨ d = 3 ∨ d = 4 ∨ d = 5 ∨ d = 6 ∨ d = 7 ∨ d = 8
               ∨ d = 9 ∨ d = 10 ∨ d = 11 ∨ d = 12 ∨ d = 13 ∨ d = 14 ∨ d = 15) by lia.
  repeat (destruct Hd as [-> | Hd]; [reflexivity |]). now subst d.
Qed.

Lemma hex_plain (n : nat) (x : Z) :
  plain_chars (Sha256.hex n x) = true ∧ String.length (Sha256.hex n x) = n.
Proof.
  induction n as [|n [IH1 IH2]]; [now split |]. cbn [Sha256.hex String.length].
  split; [| now rewrite IH2].
  change (String ?c ?r) with (String c "" +:+ r).
  now rewrite plain_chars_app, hex_digit_plain, IH1.
Qed.

Lemma hex_words_plain (ws : list Z) :
  plain_chars (fold_right (fun w acc => Sha256.hex 8 w +:+ acc) "" ws) = true ∧
  String.length (fold_right (fun w acc => Sha256.hex 8 w +:+ acc) "" ws)
  = (8 * length ws)%nat.
Proof.
  induction ws as [|w ws [IH1 IH2]]; [now split |]. cbn [fold_right length].
  destruct (hex_plain 8 w) as [H1 H2].
  rewrite plain_chars_app, length_append, H1, H2, IH1, IH2. split; [reflexivity | lia].
Qed.

Lemma sha256_hex_plain (s : string) :
  plain_chars (Sha256.sha256_hex s) = true ∧ String.length (Sha256.sha256_hex s) = 64%nat.
Proof.
  unfold Sha256.sha256_hex.
  destruct (hex_words_plain (Sha256.digest (Sha256.bytes_of_string s))) as [H1 H2].
  rewrite digest_length in H2. now split.
Qed.

(** X12. Which keys the cache can hold: in every cache, whatever
    its directory, a key without path separator or NUL byte, of at most 250
    bytes and other than [.metadata], names an entry file: [path.join] leads
    to the file [key.json] of the cache directory, a legal file name that is
    not the metadata file. *)
Theorem plain_keys_name_entry_files (this : CacheManager.t) (k : string) :
  plain_chars k = true → (String.length k <= 250)%nat → k ≠ ".metadata" →
  CacheManager.getCacheFilePath this k = Inside (k +:+ ".json") ∧
  cache_key this k.
Proof.
  intros Hplain Hlen Hmeta.
  pose proof (plain_key_is_cache_key this k Hplain Hlen Hmeta) as Hkey.
  split; [| exact Hkey].
  destruct Hkey as (name & Hloc & _). unfold CacheManager.getCacheFilePath.
  assert (Hl : String.length (k +:+ ".json") = (String.length k + 5)%nat)
    by now rewrite length_append.
  apply resolve_file_name.
  - repeat split.
    + intros H. apply (f_equal String.length) in H. rewrite Hl in H. cbn in H. lia.
    + intros H. apply (f_equal String.length) in H. rewrite Hl in H. cbn in H. lia.
    + apply plain_no_separator. now rewrite plain_chars_app, Hplain.
  - intros H. apply (f_equal String.length) in H. rewrite Hl in H. cbn in H. lia.
Qed.

Lemma plain_keys_name_entry_files_witness :
  CacheManager.getCacheFilePath sample_cache sample_key
  = Inside (sample_key +:+ ".json") ∧
  cache_key sample_cache sample_key.
Proof.
  refine (plain_keys_name_entry_files sample_cache sample_key _ _ _).
  - reflexivity.
  - vm_compute. repeat constructor.
  - discriminate.
Defined.

(** X13. The keys the tools use: for a namespace and an identifier
    without path separator or NUL byte, of at most 184 bytes together, and
    any parameters, [generateCacheKey(namespace, identifier, params)] names
    an entry file in every cache. *)
Theorem generateCacheKey_names_an_entry_file (this : CacheManager.t)
    (namespace identifier : string) (params : option (list (string * json))) :
  plain_chars namespace = true → plain_chars identifier = true →
  (String.length namespace + String.length identifier <= 184)%nat →
  cache_key this (CacheManager.generateCacheKey namespace identifier params).
Proof.
  intros Hns Hid Hlen. unfold CacheManager.generateCacheKey. cbv zeta.
  match goal with
  | |- context [Sha256.sha256_hex ?text] =>
      destruct (sha256_hex_plain text) as [Hhash Hhashlen];
      generalize dependent (Sha256.sha256_hex text)
  end.
  intros hash Hhash Hhashlen. apply plain_key_is_cache_key.
  - now rewrite !plain_chars_app, Hns, Hid, Hhash.
  - rewrite !length_append, Hhashlen. cbn [String.length]. lia.
  - intros H. apply (f_equal String.length) in H.
    rewrite !length_append, Hhashlen in H. cbn [String.length] in H. lia.
Qed.

Lemma generateCacheKey_names_an_entry_file_witness :
  cache_key sample_cache
    (CacheManager.generateCacheKey "tool" "fetchTicker" (Some ticker_params)).
Proof.
  refine (generateCacheKey_names_an_entry_file sample_cache "tool" "fetchTicker"
            (Some ticker_params) _ _ _).
  - reflexivity.
  - reflexivity.
  - vm_compute. repeat constructor.
Defined.

(** *** The cache tools *)

(** A [try] whose handler only logs returns normally. *)
Lemma try_log_returns {E} (body : M E unit) (l : exn → log_line) (w : world E) :
  fst (try_catch body (fun error => console_error (l error)) w) = Return tt.
Proof.
  unfold try_catch. destruct (body w) as [[[]|error] w1]; reflexivity.
Qed.

Lemma clear_returns {E} (this : CacheManager.t) (w : world E) :
  fst (CacheManager.clear this w) = Return tt.
Proof. apply try_log_returns. Qed.

Lemma cleanup_returns {E} (this : CacheManager.t) (w : world E) :
  fst (CacheManager.cleanup this w) = Return tt.
Proof. apply try_log_returns. Qed.

Lemma getStats_returns {E} (this : CacheManager.t) (w : world E) :
  fst (CacheManager.getStats this w)
  = Return {| Stats.totalEntries :=
                match disk w with
                | Some d => Z.of_nat (length (List.filter CacheManager.is_entry_file (names d)))
                | None => 0
                end;
              Stats.cacheDir := CacheManager.cacheDir this;
              Stats.defaultTTL := CacheManager.defaultTTL this |}.
Proof.
  destruct w as [[d|] o ro now con e inv]; unfold CacheManager.getStats; run; reflexivity.
Qed.

(** *** A file system that refuses modifications *)

Lemma same_files_refl {E} (w : world E) : same_files w w.
Proof. now repeat split. Qed.

Lemma same_files_trans {E} (w1 w2 w3 : world E) :
  same_files w1 w2 → same_files w2 w3 → same_files w1 w3.
Proof. intros (? & ? & ?) (? & ? & ?). repeat split; congruence. Qed.

Lemma same_files_logged {E} (w w' : world E) : logged w w' → same_files w w'.
Proof. intros [lines ->]. now repeat split. Qed.

Lemma unlinkSync_read_only {E} (l : location) (w : world E) :
  read_only w = true → same_files w (snd (unlinkSync l w)).
Proof.
  intros Hro. destruct w as [d o ro now con e inv]. cbn [read_only] in Hro. subst ro.
  unfold unlinkSync. destruct l as [name | path].
  - destruct d as [d|]; run; [| apply same_files_refl].
    destruct (d !! name); run; apply same_files_refl.
  - run. destruct (has_nul path); [apply same_files_refl |].
    destruct (o !! path) as [[content | |]|]; run; apply same_files_refl.
Qed.

Lemma console_error_same {E} (line : log_line) (w : world E) :
  same_files w (snd (console_error line w)).
Proof. now repeat split. Qed.

Lemma clear_file_read_only {E} (cnt : Z) (file : string) (w : world E) :
  read_only w = true → same_files w (snd (CacheManager.clear_file cnt file w)).
Proof.
  intros Hro. unfold CacheManager.clear_file.
  destruct (CacheManager.is_entry_file file); [| apply same_files_refl].
  unfold bind. pose proof (unlinkSync_read_only (Inside file) w Hro) as H.
  destruct (unlinkSync (Inside file) w) as [[[]|err] w1]; exact H.
Qed.

Lemma cleanup_file_read_only {E} (now : number) (cnt : Z) (file : string) (w : world E) :
  read_only w = true → same_files w (snd (CacheManager.cleanup_file now cnt file w)).
Proof.
  intros Hro. unfold CacheManager.cleanup_file.
  destruct (CacheManager.is_entry_file file); [| apply same_files_refl].
  assert (Hhandler : ∀ w1 : world E, same_files w w1 →
            same_files w
              (snd ((console_error
                       (Log ("[WARN] Invalid cache file: " +:+ file +:+ ", deleting...")) ;;
                     unlinkSync (Inside file) ;; ret (cnt + 1)) w1))).
  { intros w1 Hw1. unfold bind at 1. cbn [console_error].
    unfold bind.
    match goal with
    | |- context [unlinkSync (Inside file) ?w2] =>
        pose proof (unlinkSync_read_only (Inside file) w2) as H;
        assert (Hw2 : same_files w1 w2) by now repeat split
    end.
    destruct Hw1 as (? & ? & Hro1).
    match type of H with ?P → _ => assert (HP : P) by (cbn; congruence) end.
    specialize (H HP).
    destruct (unlinkSync (Inside file) _) as [[[]|err] w3]; cbn [snd] in *;
      eapply same_files_trans; try exact H;
      eapply same_files_trans; try exact Hw2; now repeat split. }
  unfold try_catch.
  assert (Hbody : ∀ r w1,
            (fileContent <- readFileSync (Inside file) ;;
             entry <- JSON_parse fileContent ;;
             entry_timestamp <- read_property entry "timestamp" ;;
             entry_ttl <- read_property entry "ttl" ;;
             (if JS.gt (JS.sub now (JS.to_number entry_timestamp)) (JS.to_number entry_ttl)
              then unlinkSync (Inside file) ;; ret (cnt + 1)
              else ret cnt)) w = (r, w1) →
            same_files w w1).
  { intros r w1. unfold bind at 1.
    assert (Hread : snd (readFileSync (Inside file) w) = w).
    { unfold readFileSync. destruct (disk w) as [d|]; [| reflexivity].
      now destruct (d !! file). }
    destruct (readFileSync (Inside file) w) as [[content|err] w0]; cbn [snd] in Hread;
      subst w0; [| intros [= _ <-]; apply same_files_refl].
    unfold JSON_parse. destruct (JSON.parse content) as [entry|];
      [| intros [= _ <-]; apply same_files_refl].
    unfold bind at 1. cbn [ret]. unfold read_property.
    destruct (JS.get_property entry "timestamp") as [ts|];
      [| intros [= _ <-]; apply same_files_refl].
    unfold bind at 1. cbn [ret].
    destruct (JS.get_property entry "ttl") as [t|];
      [| intros [= _ <-]; apply same_files_refl].
    unfold bind at 1. cbn [ret].
    destruct (JS.gt _ _); [| intros [= _ <-]; apply same_files_refl].
    unfold bind. pose proof (unlinkSync_read_only (Inside file) w Hro) as H.
    destruct (unlinkSync (Inside file) w) as [[[]|err] w3]; cbn [snd] in H;
      intros [= _ <-]; exact H. }
  match goal with
  | |- context [match ?b w with _ => _ end] =>
      specialize (Hbody (fst (b w)) (snd (b w))); destruct (b w) as [[r|err] w1]
  end; cbn [fst snd] in Hbody; specialize (Hbody eq_refl).
  - exact Hbody.
  - now apply Hhandler.
Qed.

Lemma for_of_read_only {E A S} (body : S → A → M E S) (l : list A) :
  (∀ s x w, read_only w = true → same_files w (snd (body s x w))) →
  ∀ s w, read_only w = true → same_files w (snd (for_of l s body w)).
Proof.
  intros Hbody. induction l as [|x l IH]; intros s w Hro; [apply same_files_refl |].
  cbn [for_of]. unfold bind. specialize (Hbody s x w Hro).
  destruct (body s x w) as [[s'|err] w1]; cbn [snd] in Hbody; [| exact Hbody].
  eapply same_files_trans; [exact Hbody |]. apply IH.
  destruct Hbody as (_ & _ & ->). exact Hro.
Qed.

Lemma updateMetadata_read_only {E} (this : CacheManager.t) (w : world E) :
  read_only w = true → same_files w (snd (CacheManager.updateMetadata this w)).
Proof.
  intros Hro. destruct (updateMetadata_spec this w) as [_ Hw].
  apply same_files_logged in Hw. unfold with_metadata in Hw. rewrite Hro in Hw.
  now destruct (disk w).
Qed.

Lemma clear_read_only {E} (this : CacheManager.t) (w : world E) :
  read_only w = true → same_files w (snd (CacheManager.clear this w)).
Proof.
  intros Hro. unfold CacheManager.clear, try_catch. unfold bind at 1.
  unfold readdirSync. destruct (disk w) as [d|] eqn:Hd; [| now repeat split].
  unfold bind at 1.
  pose proof (for_of_read_only CacheManager.clear_file (elements (dom d))
                clear_file_read_only 0 w Hro) as Hloop.
  destruct (for_of _ 0 CacheManager.clear_file w) as [[cnt|err] w1]; cbn [snd] in Hloop.
  - unfold bind at 1. cbn [console_error].
    match goal with
    | |- context [CacheManager.updateMetadata this ?w2] =>
        pose proof (updateMetadata_read_only this w2) as Hm;
        pose proof (proj1 (updateMetadata_spec this w2)) as Hr;
        destruct (CacheManager.updateMetadata this w2) as [r w3]
    end.
    cbn [fst snd read_only] in *. subst r. cbn [snd].
    destruct Hloop as (H1 & H2 & H3). rewrite H3, Hro in Hm. specialize (Hm eq_refl).
    destruct Hm as (? & ? & ?). cbn [disk outside read_only] in *.
    repeat split; congruence.
  - cbn [console_error snd]. destruct Hloop as (? & ? & ?). now repeat split.
Qed.

Lemma cleanup_read_only {E} (this : CacheManager.t) (w : world E) :
  read_only w = true → same_files w (snd (CacheManager.cleanup this w)).
Proof.
  intros Hro. unfold CacheManager.cleanup, try_catch. unfold bind at 1.
  unfold readdirSync. destruct (disk w) as [d|] eqn:Hd; [| now repeat split].
  unfold bind at 1, Date_now at 1. unfold bind at 1.
  pose proof (for_of_read_only (CacheManager.cleanup_file (num (clock w)))
                (elements (dom d)) (cleanup_file_read_only (num (clock w))) 0 w Hro)
    as Hloop.
  destruct (for_of _ 0 _ w) as [[cnt|err] w1]; cbn [snd] in Hloop.
  - destruct (0 <? cnt); [| exact Hloop].
    unfold bind at 1. cbn [console_error].
    match goal with
    | |- context [CacheManager.updateMetadata this ?w2] =>
        pose proof (updateMetadata_read_only this w2) as Hm;
        pose proof (proj1 (updateMetadata_spec this w2)) as Hr;
        destruct (CacheManager.updateMetadata this w2) as [r w3]
    end.
    cbn [fst snd read_only] in *. subst r. cbn [snd].
    destruct Hloop as (H1 & H2 & H3). rewrite H3, Hro in Hm. specialize (Hm eq_refl).
    destruct Hm as (? & ? & ?). cbn [disk outside read_only] in *.
    repeat split; congruence.
  - cbn [console_error snd]. destruct Hloop as (? & ? & ?). now repeat split.
Qed.

(** X14. The cache tools never report an error, in any world: since
    [clear], [cleanup] and [getStats] absorb every failure, [clearCache]
    always answers that the cache was cleared and [cleanupCache] that the
    cleanup completed, also when the directory is missing or refuses
    modifications and nothing was removed, and [getCacheStats] always answers
    with the statistics, which count no entry when the directory cannot be
    read. *)
Theorem cache_tools_never_report_an_error {E} (this : CacheManager.t) (w : world E) :
  fst (Server.clearCache this w)
  = Return {| Server.content := Server.Text "Cache cleared successfully";
              Server.isError := false |} ∧
  fst (Server.cleanupCache this w)
  = Return {| Server.content := Server.Text "Cache cleanup completed";
              Server.isError := false |} ∧
  fst (Server.getCacheStats this w)
  = Return {| Server.content :=
                Server.Text
                  (JSON.stringify2
                     (Server.stats_object
                        {| Stats.totalEntries :=
                             match disk w with
                             | Some d =>
                                 Z.of_nat (length (List.filter CacheManager.is_entry_file
                                                     (names d)))
                             | None => 0
                             end;
                           Stats.cacheDir := CacheManager.cacheDir this;
                           Stats.defaultTTL := CacheManager.defaultTTL this |}));
              Server.isError := false |} ∧
  (read_only w = true →
   disk (snd (Server.clearCache this w)) = disk w ∧
   disk (snd (Server.cleanupCache this w)) = disk w).
Proof.
  split; [| split; [| split]].
  - unfold Server.clearCache, try_catch, bind.
    pose proof (clear_returns this w) as H.
    destruct (CacheManager.clear this w) as [r w1]. cbn [fst] in H. now subst r.
  - unfold Server.cleanupCache, try_catch, bind.
    pose proof (cleanup_returns this w) as H.
    destruct (CacheManager.cleanup this w) as [r w1]. cbn [fst] in H. now subst r.
  - unfold Server.getCacheStats, try_catch, bind.
    pose proof (getStats_returns this w) as H.
    destruct (CacheManager.getStats this w) as [r w1]. cbn [fst] in H. now subst r.
  - intros Hro.
    pose proof (clear_read_only this w Hro) as (Hclear & _).
    pose proof (cleanup_read_only this w Hro) as (Hcleanup & _).
    pose proof (clear_returns this w) as H1. pose proof (cleanup_returns this w) as H2.
    unfold Server.clearCache, Server.cleanupCache, try_catch, bind.
    destruct (CacheManager.clear this w) as [r1 w1].
    destruct (CacheManager.cleanup this w) as [r2 w2].
    cbn [fst snd] in *. subst r1 r2. now split.
Qed.

Lemma cache_tools_never_report_an_error_witness :
  fst (Server.clearCache sample_cache read_only_world)
  = Return {| Server.content := Server.Text "Cache cleared successfully";
              Server.isError := false |} ∧
  disk (snd (Server.clearCache sample_cache read_only_world)) = disk read_only_world.
Proof.
  destruct (cache_tools_never_report_an_error sample_cache read_only_world)
    as (H1 & _ & _ & H4).
  split; [exact H1 |]. exact (proj1 (H4 eq_refl)).
Defined.

Lemma get_read_only {E} (this : CacheManager.t) (key : string) (w : world E) :
  read_only w = true → same_files w (snd (CacheManager.get this key w)).
Proof.
  intros Hro. pose proof (same_files_logged _ _ (get_purged this key w)) as H.
  unfold purged in H. rewrite Hro in H. now destruct (entry_state_at _ _).
Qed.

Lemma set_read_only {E} (this : CacheManager.t) (key : string) (data : json)
    (ttl : option number) (w : world E) :
  read_only w = true → same_files w (snd (CacheManager.set this key data ttl w)).
Proof.
  intros Hro. destruct (set_spec this key data ttl w) as [_ Hw].
  apply same_files_logged in Hw.
  pose proof (writeFileSync_spec (CacheManager.getCacheFilePath this key)
                (entry_text data (num (clock w)) (CacheManager.ttl_or_default this ttl)) w)
    as Hwrite.
  destruct (writeFileSync _ _ w) as [[[]|err] w1]; cbn [fst snd] in Hwrite; [| exact Hw].
  destruct Hwrite as [Hro' _]. congruence.
Qed.

Lemma delete_read_only {E} (this : CacheManager.t) (key : string) (w : world E) :
  read_only w = true → same_files w (snd (CacheManager.delete this key w)).
Proof.
  intros Hro. destruct (delete_spec this key w) as [_ Hw].
  apply same_files_logged in Hw. rewrite Hro in Hw. now destruct (file_at w _).
Qed.

Lemma getOrSet_read_only {E} (this : CacheManager.t) (key : string) (p : producer E)
    (ttl : option number) (w : world E) :
  read_only w = true → same_files w (snd (CacheManager.getOrSet this key p ttl w)).
Proof.
  intros Hro. unfold CacheManager.getOrSet, bind.
  pose proof (get_read_only this key w Hro) as Hget.
  pose proof (get_returns this key w) as [v Hv].
  destruct (CacheManager.get this key w) as [r w1]. cbn [fst snd] in *. subst r.
  destruct (JS.is_null v); cbn [negb]; [| exact Hget].
  cbn [console_error]. unfold await.
  cbn [disk outside read_only clock console ext invoked].
  destruct (p (ext w1)) as [[[result|error] e] ms].
  - match goal with
    | |- context [CacheManager.set this key result ttl ?w2] =>
        pose proof (set_read_only this key result ttl w2) as Hset;
        pose proof (proj1 (set_spec this key result ttl w2)) as Hr;
        destruct (CacheManager.set this key result ttl w2) as [r w3]
    end.
    cbn [fst snd read_only] in *. subst r. cbn [ret snd].
    destruct Hget as (H1 & H2 & H3). rewrite H3, Hro in Hset. specialize (Hset eq_refl).
    destruct Hset as (? & ? & ?). cbn [disk outside read_only] in *.
    repeat split; cbn [disk outside read_only]; congruence.
  - cbn [snd]. destruct Hget as (? & ? & ?). now repeat split.
Qed.

(** X15. The cache is advisory: on a file system that refuses
    modifications no method changes a file, inside or outside the cache
    directory, and every method but [getOrSet] returns normally; [getOrSet]
    returns what [get] found or what the producer resolves with, and throws
    only what the producer rejects with. *)
Theorem read_only_cache_is_never_modified {E} (this : CacheManager.t) (w : world E)
    (key : string) (data : json) (ttl : option number) (p : producer E) :
  read_only w = true →
  same_files w (snd (CacheManager.get this key w)) ∧
  same_files w (snd (CacheManager.set this key data ttl w)) ∧
  same_files w (snd (CacheManager.delete this key w)) ∧
  same_files w (snd (CacheManager.clear this w)) ∧
  same_files w (snd (CacheManager.cleanup this w)) ∧
  same_files w (snd (CacheManager.getOrSet this key p ttl w)) ∧
  fst (CacheManager.set this key data ttl w) = Return tt ∧
  fst (CacheManager.delete this key w) = Return tt ∧
  fst (CacheManager.clear this w) = Return tt ∧
  fst (CacheManager.cleanup this w) = Return tt.
Proof.
  intros Hro.
  split; [now apply get_read_only |]. split; [now apply set_read_only |].
  split; [now apply delete_read_only |]. split; [now apply clear_read_only |].
  split; [now apply cleanup_read_only |]. split; [now apply getOrSet_read_only |].
  split; [apply set_spec |]. split; [apply delete_spec |].
  split; [apply clear_returns | apply cleanup_returns].
Qed.

Lemma read_only_cache_is_never_modified_witness :
  same_files read_only_world
    (snd (CacheManager.set sample_cache sample_key sample_ticker None read_only_world)).
Proof.
  exact (proj1 (proj2 (read_only_cache_is_never_modified sample_cache read_only_world
                         sample_key sample_ticker None (fun _ => (Return JNull, tt, 0%N))
                         eq_refl))).
Defined.
